(** * easy-v0-api: polling, staged retry and materialisation of generated files

    A shallow embedding of the client-side orchestration of the v0 scripts:
    - [backend-integration-config.js] (module [Backend]),
    - the creator class shared by the scripts (module [Creator]),
    - [v0-chat-creator-enforced.js]   (module [Enforced]),
    - [v0-chat-creator-sdk.js]        (module [Sdk]),
    - [v0-chat-creator.js]            (module [Basic]),
    - [v0-system-prompts.js]          (module [Prompts]),
    - [smart-v0-generator.js]         (module [Smart]).

    JavaScript strings are [string]s (one [ascii] per code unit), [undefined]
    is [None], an exception is [Throw msg], and every effect (file system,
    clock, remote service, console) is threaded through an explicit [World]. *)

From Stdlib Require Import ZArith Ascii String List Bool Lia.
From stdpp Require Import base gmap strings list.
Import ListNotations.
Local Open Scope string_scope.

(** ** JavaScript string primitives *)

Module Js.

(** [s.startsWith(pre)] *)
Fixpoint startsWith (s pre : string) : bool :=
  match pre with
  | "" => true
  | String b pre' =>
      match s with
      | "" => false
      | String a s' => if Ascii.eqb a b then startsWith s' pre' else false
      end
  end.

(** [s.endsWith(suf)] *)
Definition endsWith (s suf : string) : bool :=
  startsWith (String.rev s) (String.rev suf).

(** [s.includes(sub)] *)
Fixpoint includes (s sub : string) : bool :=
  startsWith s sub ||
  match s with
  | "" => false
  | String _ s' => includes s' sub
  end.

(** [s.slice(n)] for [0 <= n] *)
Fixpoint drop (n : nat) (s : string) : string :=
  match n, s with
  | O, _ => s
  | S n', String _ s' => drop n' s'
  | S _, "" => ""
  end.

(** [s.slice(0, n)] for [0 <= n] *)
Fixpoint take (n : nat) (s : string) : string :=
  match n, s with
  | S n', String a s' => String a (take n' s')
  | _, _ => ""
  end.

(** [l.join(sep)] *)
Definition join (sep : string) (l : list string) : string := String.concat sep l.

(** Truthiness of a value that is a string or [undefined]. *)
Definition truthy (v : option string) : bool :=
  match v with
  | Some s => negb (String.eqb s "")
  | None => false
  end.

(** [a || b] on such values. *)
Definition or_else (v : option string) (d : string) : string :=
  match v with
  | Some s => if String.eqb s "" then d else s
  | None => d
  end.

End Js.

(** ** Node's [path] module (POSIX flavour) *)

Module Path.

Definition slash : ascii := "/"%char.
Definition dot : ascii := "."%char.

(** [p.split('/')] *)
Fixpoint split (p : string) : list string :=
  match p with
  | "" => [""]
  | String c p' =>
      match split p' with
      | seg :: rest =>
          if Ascii.eqb c slash then "" :: seg :: rest else String c seg :: rest
      | [] => [String c ""]
      end
  end.

(** [normalizeString(path, allowAboveRoot)], segment by segment; [stack] is
    the result so far, last segment first. *)
Fixpoint normalize_segs (allowAbove : bool) (stack segs : list string) : list string :=
  match segs with
  | [] => rev stack
  | seg :: rest =>
      if String.eqb seg "" || String.eqb seg "." then
        normalize_segs allowAbove stack rest
      else if String.eqb seg ".." then
        match stack with
        | top :: stack' =>
            if String.eqb top ".." then
              normalize_segs allowAbove (if allowAbove then ".." :: stack else stack) rest
            else normalize_segs allowAbove stack' rest
        | [] => normalize_segs allowAbove (if allowAbove then [".."] else []) rest
        end
      else normalize_segs allowAbove (seg :: stack) rest
  end.

(** [path.normalize(p)] *)
Definition normalize (p : string) : string :=
  if String.eqb p "" then "." else
  let isAbsolute := Js.startsWith p "/" in
  let trailing := Js.endsWith p "/" in
  let body := Js.join "/" (normalize_segs (negb isAbsolute) [] (split p)) in
  if String.eqb body "" then
    (if isAbsolute then "/" else if trailing then "./" else ".")
  else
    (if isAbsolute then "/" else "") ++ body ++ (if trailing then "/" else "").

(** [path.join(...args)] *)
Definition join (args : list string) : string :=
  let parts := List.filter (fun a => negb (String.eqb a "")) args in
  match parts with
  | [] => "."
  | _ => normalize (Js.join "/" parts)
  end.

(** The backward scan of [path.dirname]: [r] holds the characters of the
    path from the last one down to index 1. *)
Fixpoint dirname_end (matchedSlash : bool) (r : list ascii) : option nat :=
  match r with
  | [] => None
  | c :: rest =>
      if Ascii.eqb c slash then
        (if matchedSlash then dirname_end true rest else Some (S (length rest)))
      else dirname_end false rest
  end.

(** [path.dirname(p)] *)
Definition dirname (p : string) : string :=
  match p with
  | "" => "."
  | String c0 p' =>
      let hasRoot := Ascii.eqb c0 slash in
      match dirname_end true (rev (list_ascii_of_string p')) with
      | None => if hasRoot then "/" else "."
      | Some e => if hasRoot && Nat.eqb e 1 then "//" else Js.take e p
      end
  end.

(** The last component of a path, trailing slashes ignored. *)
Definition last_component (p : string) : string :=
  List.last (List.filter (fun s => negb (String.eqb s "")) (split p)) "".

(** Index of the last dot of [s], if any. *)
Fixpoint last_dot (s : string) : option nat :=
  match s with
  | "" => None
  | String c s' =>
      match last_dot s' with
      | Some k => Some (S k)
      | None => if Ascii.eqb c dot then Some O else None
      end
  end.

(** [path.extname(p)]: from the last dot of the last component to its end;
    empty when there is no dot, when the dot is the first character, and for
    the component [".."]. *)
Definition extname (p : string) : string :=
  let b := last_component p in
  match last_dot b with
  | None | Some O => ""
  | Some k => if String.eqb b ".." then "" else Js.drop k b
  end.

(** [path.basename(p, suffix)]. (Node's scan differs when the last component
    is a proper suffix of [suffix] and [p] carries trailing slashes, which
    cannot happen for [suffix = extname p], the only use here.) *)
Definition basename (p suffix : string) : string :=
  let b := last_component p in
  if negb (String.eqb suffix "") && (String.length suffix <=? String.length p)%nat then
    if String.eqb suffix p then ""
    else if Js.endsWith b suffix && negb (String.eqb b suffix)
         then Js.take (String.length b - String.length suffix) b
         else b
  else b.

(** Canonical absolute location of [p] seen from the working directory
    [cwd] (the segments below the root), resolved lexically. *)
Definition resolve (cwd : list string) (p : string) : list string :=
  if Js.startsWith p "/" then normalize_segs false [] (split p)
  else normalize_segs false (rev cwd) (split p).

End Path.

(** ** The world the scripts run in *)

(** A completed call: a value, or a thrown [Error] with its message. *)
Inductive Res (A : Type) : Type :=
| Ok (a : A)
| Throw (msg : string).
Arguments Ok {A} a.
Arguments Throw {A} msg.

(** *** Remote objects *)

(** An element of [latestVersion.files] ([name], [content]) or of
    [chat.files] ([meta.file], [source]); an absent property is [None]. *)
Record FileObj : Type := mkFileObj {
  name : option string;
  content : option string;
  meta_file : option string;
  source : option string
}.

Record Version : Type := mkVersion {
  status : option string;
  vfiles : option (list FileObj);
  demoUrl : option string
}.

Record Chat : Type := mkChat {
  id : string;
  webUrl : string;
  latestVersion : option Version;
  files : option (list FileObj)
}.

(** The [chatOptions] handed to [v0.chats.create]. *)
Record ModelConfiguration : Type := mkModelConfiguration {
  mc_modelId : option string;
  mc_imageGenerations : bool;
  mc_thinking : bool;
  mc_responseMode : string
}.

Record ChatOptions : Type := mkChatOptions {
  co_message : string;
  co_modelConfiguration : ModelConfiguration;
  co_chatPrivacy : option string;
  co_system : option string;
  co_projectId : option string;
  co_attachments : option (list string);
  co_designSystemId : option string
}.

(** What the remote service answers, and how long the call takes (ms). *)
Record Response (A : Type) : Type := mkResponse {
  latency : N;
  outcome : Res A
}.
Arguments mkResponse {A} latency outcome.
Arguments latency {A} r.
Arguments outcome {A} r.

(** The remote service as seen by one run: the answer to [chats.create],
    the answer to the [k]-th [chats.getById] (counted from 0), and the answer
    to [chats.find]. *)
Record Remote : Type := mkRemote {
  on_create : ChatOptions -> Response Chat;
  on_get : nat -> string -> Response Chat;
  on_find : Response (list Chat)
}.

(** *** File system *)

Inductive node : Type :=
| File (data : string)
| Dir.

Inductive fs_op : Type :=
| OpMkdir (p : list string)
| OpWrite (p : list string) (data : string).

(** Nodes are keyed by their resolved location; the root is always a
    directory. [ops] records every successful mutation, oldest first. *)
Record FS : Type := mkFS {
  cwd : list string;
  nodes : gmap (list string) node;
  ops : list fs_op
}.

Definition node_at (f : FS) (q : list string) : option node :=
  match q with
  | [] => Some Dir
  | _ => nodes f !! q
  end.

Definition is_dir (f : FS) (q : list string) : bool :=
  match node_at f q with
  | Some Dir => true
  | _ => false
  end.

(** Content of the regular file at location [q], if there is one. *)
Definition file_at (f : FS) (q : list string) : option string :=
  match node_at f q with
  | Some (File d) => Some d
  | _ => None
  end.

(** [mkdir -p]: walk down from [pre] through [rest]; a regular file on the
    way makes the whole call fail. *)
Fixpoint mkdir_from (pre rest : list string) (m : gmap (list string) node)
  : option (gmap (list string) node) :=
  match rest with
  | [] => Some m
  | s :: rest' =>
      let q := (pre ++ [s])%list in
      match m !! q with
      | Some (File _) => None
      | _ => mkdir_from q rest' (<[q := Dir]> m)
      end
  end.

(** *** Console and trace *)

(** The console lines the model keeps (all other output is elided). *)
Inductive line : Type :=
| LogFetching (chatId : string)
| LogFetchError (msg : string)
| LogDownloading (chatId : string)
| LogNoFiles
| LogCreatedDir (dir : string)
| LogSaved (path : string)
| LogSkipping (index : nat)
| LogSavedAll (n : nat) (dir : string)
| LogIndexCreated (path : string)
| LogIndexFailed (msg : string)
| LogDownloadFailed (msg : string)
| LogStatusUpdate (old new : string)
| LogCompleted
| LogCompletedEmpty
| LogFailedTrying
| LogStillWaiting (elapsed : Z) (attempts : nat) (status : string)
| LogElapsed (elapsed : Z)
| LogDot
| LogPollError (attempts : nat) (msg : string)
| LogRetrying5
| LogDeadline
| LogFinalAttempt (i n : nat)
| LogFinalOk (i : nat)
| LogFinalFailed (i : nat) (msg : string)
| LogExhausted
| LogManualHint (chatId : string)
| LogFixedImports (file : string)
| LogIntegrationOk
| LogIntegrationWarning (msg : string)
| LogRetry (i : nat)
| LogRetryOk (i : nat)
| LogRetryFailed (i : nat) (msg : string)
| LogDownloadError (msg : string)
| LogHelp
| LogNoPrompt
| LogNoKey
| LogInvalidModel (m : option string)
| LogInvalidPrivacy (p : option string)
| LogProcessFailed (msg : string)
| LogDone
| LogDownloadCompleted
| LogNothingDownloaded
| LogListFailed (msg : string)
| LogNoChats
| LogChatList (n : nat)
| LogDownloadEnforced
| LogChatCreated (chatId : string)
| LogIntegrated (n : nat)
| LogAutoDownloadFailed (msg : string)
| LogGeneratedFiles (n : nat)
| LogChatFailed (msg : string).

Inductive event : Type :=
| Console (l : line)
| Slept (ms : Z)
| Created
| Fetched (chatId : string)
| Listed.

Record World : Type := mkWorld {
  service : Remote;
  fs : FS;
  clock : Z;
  gets : nat;
  trace : list event
}.

(** *** Computations *)

(** A computation over a state [S] that returns or throws. The scripts run
    in [M = ST World]; a function with mutable locals [L] that must survive a
    [throw] runs in [ST (L * World)]. *)
Definition ST (S A : Type) : Type := S -> Res A * S.

Abbreviation M := (ST World).

Definition ret {S A : Type} (a : A) : ST S A := fun s => (Ok a, s).

Definition throw {S A : Type} (msg : string) : ST S A := fun s => (Throw msg, s).

Definition bind {S A B : Type} (m : ST S A) (k : A -> ST S B) : ST S B :=
  fun s =>
    match m s with
    | (Ok a, s') => k a s'
    | (Throw e, s') => (Throw e, s')
    end.

(** [try { m } catch (error) { h error.message }] *)
Definition try_catch {S A : Type} (m : ST S A) (h : string -> ST S A) : ST S A :=
  fun s =>
    match m s with
    | (Ok a, s') => (Ok a, s')
    | (Throw e, s') => h e s'
    end.

Notation "x <- m ;; k" := (bind m (fun x => k))
  (at level 100, m at next level, right associativity).
Notation "m ;;; k" := (bind m (fun _ => k))
  (at level 100, right associativity).

(** Running a world computation next to the locals. *)
Definition lift {L A : Type} (m : M A) : ST (L * World) A :=
  fun s =>
    match m (snd s) with
    | (r, w') => (r, (fst s, w'))
    end.

Definition get_local {L : Type} : ST (L * World) L :=
  fun s => (Ok (fst s), s).

Definition set_local {L : Type} (l : L) : ST (L * World) unit :=
  fun s => (Ok tt, (l, snd s)).

(** Entering a function body with fresh locals [l]; the locals die with it. *)
Definition with_locals {L A : Type} (l : L) (m : ST (L * World) A) : M A :=
  fun w =>
    match m (l, w) with
    | (r, s') => (r, snd s')
    end.

(** A loop body either goes on to the next iteration or returns from the
    enclosing function. *)
Inductive Flow (A : Type) : Type :=
| Next
| Return (a : A).
Arguments Next {A}.
Arguments Return {A} a.

Definition emit (e : event) : M unit :=
  fun w => (Ok tt, mkWorld (service w) (fs w) (clock w) (gets w) (trace w ++ [e])%list).

(** [console.log] / [console.error] *)
Definition log (l : line) : M unit := emit (Console l).

(** [Date.now()] *)
Definition now : M Z := fun w => (Ok (clock w), w).

(** [await new Promise(resolve => setTimeout(resolve, ms))] *)
Definition sleep (ms : Z) : M unit :=
  fun w => (Ok tt, mkWorld (service w) (fs w) (clock w + ms) (gets w) (trace w ++ [Slept ms])%list).

Definition with_fs (f : FS) (w : World) : World :=
  mkWorld (service w) f (clock w) (gets w) (trace w).

(** [process.cwd()] *)
Definition process_cwd : M string :=
  fun w => (Ok ("/" ++ Js.join "/" (cwd (fs w))), w).

(** [fs.existsSync(p)]. Here and in the three primitives below a path is
    first resolved lexically, as [path.resolve] does, and then looked up:
    the empty path stands for the working directory, a trailing slash is
    dropped, and [..] cancels the segment before it whether or not that
    segment exists. *)
Definition existsSync (p : string) : M bool :=
  fun w =>
    (Ok (match node_at (fs w) (Path.resolve (cwd (fs w)) p) with
         | Some _ => true
         | None => false
         end), w).

(** [fs.mkdirSync(p, { recursive: true })] *)
Definition mkdirSync (p : string) : M unit :=
  fun w =>
    let f := fs w in
    let q := Path.resolve (cwd f) p in
    match mkdir_from [] q (nodes f) with
    | Some m => (Ok tt, with_fs (mkFS (cwd f) m (ops f ++ [OpMkdir q])%list) w)
    | None => (Throw ("ENOTDIR: not a directory, mkdir '" ++ p ++ "'"), w)
    end.

(** [fs.writeFileSync(p, data, 'utf8')] *)
Definition writeFileSync (p data : string) : M unit :=
  fun w =>
    let f := fs w in
    let q := Path.resolve (cwd f) p in
    match node_at f q with
    | Some Dir => (Throw ("EISDIR: illegal operation on a directory, open '" ++ p ++ "'"), w)
    | _ =>
        match node_at f (removelast q) with
        | Some Dir =>
            (Ok tt, with_fs (mkFS (cwd f) (<[q := File data]> (nodes f))
                                  (ops f ++ [OpWrite q data])%list) w)
        | Some (File _) => (Throw ("ENOTDIR: not a directory, open '" ++ p ++ "'"), w)
        | None => (Throw ("ENOENT: no such file or directory, open '" ++ p ++ "'"), w)
        end
    end.

(** [fs.readFileSync(p, 'utf8')] *)
Definition readFileSync (p : string) : M string :=
  fun w =>
    let f := fs w in
    match node_at f (Path.resolve (cwd f) p) with
    | Some (File d) => (Ok d, w)
    | Some Dir => (Throw ("EISDIR: illegal operation on a directory, read"), w)
    | None => (Throw ("ENOENT: no such file or directory, open '" ++ p ++ "'"), w)
    end.

(** One remote call: the clock advances by the call's latency. *)
Definition remote_call {A : Type} (e : event) (bump : nat) (r : Response A) : M A :=
  fun w =>
    (outcome r,
     mkWorld (service w) (fs w) (clock w + Z.of_N (latency r)) (gets w + bump)
             (trace w ++ [e])%list).

(** [await v0.chats.create(chatOptions)] *)
Definition chats_create (chatOptions : ChatOptions) : M Chat :=
  fun w => remote_call Created 0 (on_create (service w) chatOptions) w.

(** [await v0.chats.find({ limit: 10 })] *)
Definition chats_find : M (list Chat) :=
  fun w => remote_call Listed 0 (on_find (service w)) w.

(** [await v0.chats.getById({ chatId })] *)
Definition chats_getById (chatId : string) : M Chat :=
  fun w => remote_call (Fetched chatId) 1 (on_get (service w) (gets w) chatId) w.

(** [for (const x of l) body] *)
Fixpoint for_of {S A : Type} (body : A -> ST S unit) (l : list A) : ST S unit :=
  match l with
  | [] => ret tt
  | x :: l' => body x ;;; for_of body l'
  end.

(** ** backend-integration-config.js *)

Module Backend.

Definition dq : string := String (ascii_of_nat 34) "".

Definition requiredEnvVars : list string :=
  ["NEXT_PUBLIC_SUPABASE_URL"; "NEXT_PUBLIC_SUPABASE_ANON_KEY";
   "NEXT_PUBLIC_DEV_SUPABASE_REDIRECT_URL"].

Definition apiHelperContent : string :=
  "
/**
 * Auto-generated API helpers for Query Engine Studio
 * Ensures consistent backend communication
 */

import { createClient } from " ++ dq ++ "@/lib/supabase/client" ++ dq ++ ";

export interface QueryConfig {
  metrics: string[];
  filters: Array<{
    id: string;
    field: string;
    operator: string;
    value: string;
  }>;
  groupBy: string[];
  dateRange: {
    start: string;
    end: string;
  };
}

export interface AnalyticsResult {
  success: boolean;
  data: any[];
  totalRecords: number;
  error?: string;
}

/**
 * Execute analytics query with proper error handling
 */
export async function executeQuery(config: QueryConfig): Promise<AnalyticsResult> {
  try {
    const response = await fetch('/api/analytics/query', {
      method: 'POST',
      headers: {
        'Content-Type': 'application/json',
      },
      body: JSON.stringify(config),
    });

    const result = await response.json();
    
    if (!response.ok) {
      throw new Error(result.error || 'Query failed');
    }
    
    return result;
  } catch (error) {
    console.error('Query execution error:', error);
    return {
      success: false,
      data: [],
      totalRecords: 0,
      error: error instanceof Error ? error.message : 'Unknown error'
    };
  }
}

/**
 * Save query configuration
 */
export async function saveQuery(queryName: string, queryConfig: QueryConfig, isShared: boolean = false) {
  try {
    const response = await fetch('/api/analytics/save-query', {
      method: 'POST',
      headers: {
        'Content-Type': 'application/json',
      },
      body: JSON.stringify({
        queryName,
        queryConfig,
        isShared,
      }),
    });

    const result = await response.json();
    
    if (!response.ok) {
      throw new Error(result.error || 'Save failed');
    }
    
    return result;
  } catch (error) {
    console.error('Save query error:', error);
    throw error;
  }
}

/**
 * Get saved queries
 */
export async function getSavedQueries() {
  try {
    const response = await fetch('/api/analytics/saved-queries');
    const result = await response.json();
    
    if (!response.ok) {
      throw new Error(result.error || 'Failed to fetch queries');
    }
    
    return result;
  } catch (error) {
    console.error('Get saved queries error:', error);
    throw error;
  }
}

/**
 * Get current user profile with role information
 */
export async function getCurrentUser() {
  try {
    const supabase = createClient();
    const { data: { user }, error: authError } = await supabase.auth.getUser();
    
    if (authError || !user) {
      throw new Error('Not authenticated');
    }
    
    const { data: profile, error: profileError } = await supabase
      .from('users')
      .select('*')
      .eq('id', user.id)
      .single();
      
    if (profileError) {
      throw new Error('Failed to fetch user profile');
    }
    
    return { user, profile };
  } catch (error) {
    console.error('Get current user error:', error);
    throw error;
  }
}
".

Definition envTemplate : string :=
  "
# Supabase Configuration
NEXT_PUBLIC_SUPABASE_URL=your_supabase_url_here
NEXT_PUBLIC_SUPABASE_ANON_KEY=your_supabase_anon_key_here
NEXT_PUBLIC_DEV_SUPABASE_REDIRECT_URL=http://localhost:3000/dashboard

# V0 API Configuration  
V0_API_KEY=your_v0_api_key_here

# Development
NODE_ENV=development
".

Definition middlewareContent : string :=
  "
import { updateSession } from '@/lib/supabase/middleware'

export async function middleware(request: NextRequest) {
  return await updateSession(request)
}

export const config = {
  matcher: [
    '/((?!_next/static|_next/image|favicon.ico|.*\.(?:svg|png|jpg|jpeg|gif|webp)$).*)',
  ],
}
".

(** [filePath.endsWith('.tsx') || filePath.endsWith('.ts')] *)
Definition is_ts (filePath : string) : bool :=
  Js.endsWith filePath ".tsx" || Js.endsWith filePath ".ts".

(** [validateApiContracts]: reads every TypeScript file; its findings only
    go to the console. *)
Definition validateApiContracts (downloadedFiles : list string) : M unit :=
  for_of (fun filePath =>
            if is_ts filePath
            then content <- readFileSync filePath ;; ret tt
            else ret tt)
         downloadedFiles.

Definition createEnvTemplate : M unit :=
  writeFileSync ".env.template" envTemplate.

(** [validateEnvironmentVariables] *)
Definition validateEnvironmentVariables : M unit :=
  here <- process_cwd ;;
  let envPath := Path.join [here; ".env"] in
  found <- existsSync envPath ;;
  if negb found then createEnvTemplate
  else envContent <- readFileSync envPath ;; ret tt.

(** [new RegExp(source, 'g')] for a source whose only metacharacter is the
    dot, which is the case of every key of [importFixes]. *)
Inductive pchar : Type :=
| PAny
| PLit (c : ascii).

Definition regexp_of (source : string) : list pchar :=
  List.map (fun c => if Ascii.eqb c "."%char then PAny else PLit c)
           (list_ascii_of_string source).

Definition line_terminator (c : ascii) : bool :=
  Ascii.eqb c "010"%char || Ascii.eqb c "013"%char.

(** Does the pattern match at the head of [s]? *)
Fixpoint matches (pat : list pchar) (s : string) : bool :=
  match pat with
  | [] => true
  | pc :: pat' =>
      match s with
      | "" => false
      | String c s' =>
          match pc with
          | PAny => negb (line_terminator c) && matches pat' s'
          | PLit a => Ascii.eqb a c && matches pat' s'
          end
      end
  end.

(** Leftmost, non-overlapping replacement; [skip] characters of the last
    match are still to be consumed. *)
Fixpoint replace_from (pat : list pchar) (rep : string) (skip : nat) (s : string) : string :=
  match s with
  | "" => ""
  | String c s' =>
      match skip with
      | S k => replace_from pat rep k s'
      | O =>
          if matches pat s
          then rep ++ replace_from pat rep (length pat - 1) s'
          else String c (replace_from pat rep 0 s')
      end
  end.

(** [s.replace(new RegExp(source, 'g'), rep)] ([rep] without [$]) *)
Definition replace_all (source rep s : string) : string :=
  replace_from (regexp_of source) rep 0 s.

Definition importFixes : list (string * string) :=
  [("from " ++ dq ++ "components/", "from " ++ dq ++ "@/components/");
   ("from " ++ dq ++ "lib/", "from " ++ dq ++ "@/lib/");
   ("from " ++ dq ++ "./ui/", "from " ++ dq ++ "@/components/ui/");
   ("from " ++ dq ++ "../ui/", "from " ++ dq ++ "@/components/ui/")].

(** The [Object.entries(importFixes).forEach] of [fixImportPaths], on the
    locals [content] and [modified]. *)
Fixpoint apply_fixes (fixes : list (string * string)) (content : string) (modified : bool)
  : string * bool :=
  match fixes with
  | [] => (content, modified)
  | (wrongPath, correctPath) :: fixes' =>
      if Js.includes content wrongPath
      then apply_fixes fixes' (replace_all wrongPath correctPath content) true
      else apply_fixes fixes' content modified
  end.

(** The body of the [for] loop of [fixImportPaths]. *)
Definition fix_one (filePath : string) : M unit :=
  if is_ts filePath then
    content <- readFileSync filePath ;;
    let (content', modified) := apply_fixes importFixes content false in
    if modified then
      writeFileSync filePath content' ;;;
      log (LogFixedImports (Path.basename filePath ""))
    else ret tt
  else ret tt.

(** [fixImportPaths] *)
Definition fixImportPaths (downloadedFiles : list string) (outputDir : string) : M unit :=
  for_of fix_one downloadedFiles.

(** [validateTypeScriptInterfaces]: reads every TypeScript file; its hints
    only go to the console. *)
Definition validateTypeScriptInterfaces (downloadedFiles : list string) : M unit :=
  for_of (fun filePath =>
            if is_ts filePath
            then content <- readFileSync filePath ;; ret tt
            else ret tt)
         downloadedFiles.

Definition createMiddlewareFile : M unit :=
  here <- process_cwd ;;
  let middlewarePath := Path.join [here; "src"; "middleware.ts"] in
  writeFileSync middlewarePath middlewareContent.

(** [ensureMiddlewareIntegration] *)
Definition ensureMiddlewareIntegration : M unit :=
  here <- process_cwd ;;
  let middlewarePath := Path.join [here; "src"; "middleware.ts"] in
  found <- existsSync middlewarePath ;;
  if negb found then createMiddlewareFile else ret tt.

(** [generateApiHelpers] *)
Definition generateApiHelpers (outputDir : string) : M unit :=
  let helpersDir := Path.join [outputDir; "lib"; "api"] in
  found <- existsSync helpersDir ;;
  (if negb found then mkdirSync helpersDir else ret tt) ;;;
  writeFileSync (Path.join [helpersDir; "client.ts"]) apiHelperContent.

(** [ensureBackendIntegration] *)
Definition ensureBackendIntegration (downloadedFiles : list string) (outputDir : string)
  : M unit :=
  try_catch
    (validateApiContracts downloadedFiles ;;;
     validateEnvironmentVariables ;;;
     fixImportPaths downloadedFiles outputDir ;;;
     validateTypeScriptInterfaces downloadedFiles ;;;
     ensureMiddlewareIntegration ;;;
     generateApiHelpers outputDir ;;;
     log LogIntegrationOk)
    (fun msg => log (LogIntegrationWarning msg)).

End Backend.

(** ** The creator class: fetching and materialising a chat's files *)

Module Creator.

Definition newline : string := String (ascii_of_nat 10) "".

(** [createChat(options)]; [chatPrivacy] is read but never sent. *)
Definition createChat (message system projectId : option string)
    (modelConfiguration : ModelConfiguration) (attachments : list string)
    (designSystemId : option string) : M Chat :=
  if negb (Js.truthy message) then throw "Message is required to create a chat"
  else
    let chatOptions :=
      mkChatOptions (default "" message) modelConfiguration None
        (if Js.truthy system then system else None)
        (if Js.truthy projectId then projectId else None)
        (match attachments with [] => None | _ => Some attachments end)
        (if Js.truthy designSystemId then designSystemId else None) in
    try_catch
      (chats_create chatOptions)
      (fun msg =>
         if Js.includes msg "401" || Js.includes msg "Unauthorized" then
           throw "Authentication failed. Please check your V0_API_KEY in the .env file"
         else if Js.includes msg "400" then
           throw "Bad request. Please check your prompt format or model configuration"
         else if Js.includes msg "network" || Js.includes msg "fetch" then
           throw "Network error. Please check your internet connection"
         else throw msg).

(** [getChat] *)
Definition getChat (chatId : string) : M Chat :=
  try_catch
    (log (LogFetching chatId) ;;;
     chats_getById chatId)
    (fun msg => log (LogFetchError msg) ;;; throw msg).

(** [chat.latestVersion?.files] *)
Definition version_files (chat : Chat) : option (list FileObj) :=
  match latestVersion chat with
  | Some v => vfiles v
  | None => None
  end.

(** [l && l.length > 0] *)
Definition nonempty (l : option (list FileObj)) : bool :=
  match l with
  | Some (_ :: _) => true
  | _ => false
  end.

(** The local [files] of [downloadGeneratedCode] after the two lookups. *)
Definition generated_files (chat : Chat) : list FileObj :=
  if nonempty (version_files chat) then default [] (version_files chat)
  else if nonempty (files chat) then default [] (files chat)
  else [].

(** The locals [fileName], [fileContent] of the [forEach] callback. *)
Definition pick (file : FileObj) : option string * option string :=
  if Js.truthy (name file) && Js.truthy (content file) then
    (name file, content file)
  else if Js.truthy (meta_file file) && Js.truthy (source file) then
    (meta_file file, source file)
  else (None, None).

(** The [forEach] callback; [savedFiles] is the array it pushes to. *)
Definition save_one (outputDir : string) (file : FileObj) (index : nat)
    (savedFiles : list string) : M (list string) :=
  let (fileName, fileContent) := pick file in
  if Js.truthy fileName && Js.truthy fileContent then
    let filePath := Path.join [outputDir; default "" fileName] in
    let fileDir := Path.dirname filePath in
    found <- existsSync fileDir ;;
    (if negb found then mkdirSync fileDir else ret tt) ;;;
    writeFileSync filePath (default "" fileContent) ;;;
    log (LogSaved filePath) ;;;
    ret (savedFiles ++ [filePath])%list
  else
    log (LogSkipping (index + 1)) ;;;
    ret savedFiles.

(** [files.forEach((file, index) => ...)] *)
Fixpoint save_each (outputDir : string) (files : list FileObj) (index : nat)
    (savedFiles : list string) : M (list string) :=
  match files with
  | [] => ret savedFiles
  | file :: rest =>
      saved <- save_one outputDir file index savedFiles ;;
      save_each outputDir rest (S index) saved
  end.

(** The filter of [createIndexFile]. *)
Definition is_component (file : string) : bool :=
  Js.endsWith file ".jsx" || Js.endsWith file ".tsx" ||
  (Js.endsWith file ".js" && negb (Js.includes file "index")).

(** One line of the generated index file. *)
Definition export_line (filePath : string) : string :=
  let fileName := Path.basename filePath (Path.extname filePath) in
  let relativePath := "./" ++ fileName in
  "export { default as " ++ fileName ++ " } from '" ++ relativePath ++ "';".

(** [createIndexFile] *)
Definition createIndexFile (outputDir : string) (savedFiles : list string) : M unit :=
  try_catch
    (let componentFiles := List.filter is_component savedFiles in
     match componentFiles with
     | [] => ret tt
     | _ =>
         let indexContent := Js.join newline (List.map export_line componentFiles) in
         let indexPath := Path.join [outputDir; "index.js"] in
         writeFileSync indexPath (indexContent ++ newline) ;;;
         log (LogIndexCreated indexPath)
     end)
    (fun msg => log (LogIndexFailed msg)).

Section Download.

(** What runs after the index file: nothing in [v0-chat-creator-sdk.js],
    [ensureBackendIntegration] in [v0-chat-creator-enforced.js]. *)
Variable after_save : list string -> string -> M unit.

(** [downloadGeneratedCode] *)
Definition downloadGeneratedCode (chatId outputDir : string) : M (list string) :=
  try_catch
    (log (LogDownloading chatId) ;;;
     chat <- getChat chatId ;;
     match generated_files chat with
     | [] => log LogNoFiles ;;; ret []
     | files =>
         found <- existsSync outputDir ;;
         (if negb found
          then mkdirSync outputDir ;;; log (LogCreatedDir outputDir)
          else ret tt) ;;;
         savedFiles <- save_each outputDir files 0 [] ;;
         (if (0 <? length savedFiles)%nat
          then log (LogSavedAll (length savedFiles) outputDir) ;;;
               createIndexFile outputDir savedFiles ;;;
               after_save savedFiles outputDir
          else ret tt) ;;;
         ret savedFiles
     end)
    (fun msg => log (LogDownloadFailed msg) ;;; throw msg).

End Download.

End Creator.

(** ** v0-chat-creator-enforced.js *)

Module Enforced.

Definition downloadGeneratedCode : string -> string -> M (list string) :=
  Creator.downloadGeneratedCode Backend.ensureBackendIntegration.

(** The mutable locals of [waitAndDownloadEnforced]. *)
Record PollState : Type := mkPollState {
  attempts : nat;
  lastStatus : string
}.

Abbreviation W := (ST (PollState * World)).

(** [chat.latestVersion?.status] *)
Definition version_status (chat : Chat) : option string :=
  match latestVersion chat with
  | Some v => status v
  | None => None
  end.

(** [chat.latestVersion?.status || 'unknown'] *)
Definition status_of (chat : Chat) : string :=
  Js.or_else (version_status chat) "unknown".

(** [Math.round((Date.now() - startTime) / 1000)] *)
Definition elapsed_seconds (startTime t : Z) : Z := ((t - startTime + 500) / 1000)%Z.

(** The progress output at the end of the [try] block. *)
Definition progress (startTime : Z) (currentStatus : string) : W unit :=
  t <- lift now ;;
  ps <- get_local ;;
  let elapsed := elapsed_seconds startTime t in
  if (attempts ps mod 10 =? 0)%nat then
    lift (log (LogStillWaiting elapsed (attempts ps) currentStatus))
  else if (attempts ps mod 5 =? 0)%nat then lift (log (LogElapsed elapsed))
  else lift (log LogDot).

(** The [try] block of the polling loop. *)
Definition poll_try (chatId outputDir : string) (startTime : Z) : W (Flow (list string)) :=
  ps <- get_local ;;
  set_local (mkPollState (S (attempts ps)) (lastStatus ps)) ;;;
  chat <- lift (Creator.getChat chatId) ;;
  let currentStatus := status_of chat in
  ps <- get_local ;;
  (if negb (String.eqb currentStatus (lastStatus ps)) then
     lift (log (LogStatusUpdate (lastStatus ps) currentStatus)) ;;;
     set_local (mkPollState (attempts ps) currentStatus)
   else ret tt) ;;;
  branch <-
    (if String.eqb currentStatus "completed" then
       lift (log LogCompleted) ;;;
       files <- lift (downloadGeneratedCode chatId outputDir) ;;
       if (0 <? length files)%nat then ret (Return files)
       else lift (log LogCompletedEmpty) ;;; ret Next
     else if String.eqb currentStatus "failed" then
       lift (log LogFailedTrying) ;;;
       try_catch
         (files <- lift (downloadGeneratedCode chatId outputDir) ;;
          ret (Return files))
         (fun _ => throw "Generation failed and no files available")
     else ret Next) ;;
  match branch with
  | Return files => ret (Return files)
  | Next =>
      progress startTime currentStatus ;;;
      lift (sleep 2000) ;;;
      ret Next
  end.

(** The [catch] block of the polling loop. *)
Definition poll_catch (msg : string) : W (Flow (list string)) :=
  ps <- get_local ;;
  lift (log (LogPollError (attempts ps) msg)) ;;;
  (if (attempts ps mod 5 =? 0)%nat then
     lift (log LogRetrying5) ;;;
     lift (sleep 5000)
   else lift (sleep 3000)) ;;;
  ret Next.

(** One iteration of the [while] loop. *)
Definition poll_once (chatId outputDir : string) (startTime : Z) : W (Flow (list string)) :=
  try_catch (poll_try chatId outputDir startTime) poll_catch.

(** [while (Date.now() - startTime < maxWaitMs) { ... }]; [None] when the
    fuel runs out before the loop ends. *)
Fixpoint poll_loop (fuel : nat) (chatId outputDir : string) (startTime maxWaitMs : Z)
  : W (option (Flow (list string))) :=
  t <- lift now ;;
  if (t - startTime <? maxWaitMs)%Z then
    match fuel with
    | O => ret None
    | S fuel' =>
        r <- poll_once chatId outputDir startTime ;;
        match r with
        | Return files => ret (Some (Return files))
        | Next => poll_loop fuel' chatId outputDir startTime maxWaitMs
        end
    end
  else ret (Some Next).

(** Every iteration that goes on sleeps at least 2000 ms, so this many
    iterations exhaust any deadline. *)
Definition poll_fuel (maxWaitMs : Z) : nat := Z.to_nat (maxWaitMs / 2000 + 1)%Z.

(** The [strategies] array: each entry waits, then downloads. *)
Definition strategies (chatId outputDir : string) : list (M (list string)) :=
  [ downloadGeneratedCode chatId outputDir;
    sleep 5000 ;;; downloadGeneratedCode chatId outputDir;
    sleep 15000 ;;; downloadGeneratedCode chatId outputDir ].

(** [for (let i = 0; i < strategies.length; i++) { try ... catch ... }] from
    index [i] on, [n] being [strategies.length]. *)
Fixpoint final_attempts (i n : nat) (todo : list (M (list string)))
  : M (Flow (list string)) :=
  match todo with
  | [] => ret Next
  | strategy :: todo' =>
      r <- try_catch
             (log (LogFinalAttempt (i + 1) n) ;;;
              files <- strategy ;;
              if (0 <? length files)%nat
              then log (LogFinalOk (i + 1)) ;;; ret (Return files)
              else ret Next)
             (fun msg => log (LogFinalFailed (i + 1) msg) ;;; ret Next) ;;
      match r with
      | Return files => ret (Return files)
      | Next => final_attempts (S i) n todo'
      end
  end.

(** The part of [waitAndDownloadEnforced] after the polling loop. *)
Definition after_deadline (chatId outputDir : string) : M (list string) :=
  log LogDeadline ;;;
  let todo := strategies chatId outputDir in
  r <- final_attempts 0 (length todo) todo ;;
  match r with
  | Return files => ret files
  | Next =>
      log LogExhausted ;;;
      log (LogManualHint chatId) ;;;
      ret []
  end.

(** [waitAndDownloadEnforced(chatId, outputDir, maxWaitTime)] *)
Definition waitAndDownloadEnforced (chatId outputDir : string) (maxWaitTime : Z)
  : M (list string) :=
  startTime <- now ;;
  let maxWaitMs := (maxWaitTime * 1000)%Z in
  r <- with_locals (mkPollState 0 "unknown")
         (poll_loop (poll_fuel maxWaitMs) chatId outputDir startTime maxWaitMs) ;;
  match r with
  | Some (Return files) => ret files
  | Some Next => after_deadline chatId outputDir
  | None => throw "poll_loop: out of fuel"
  end.

(** The [options] object built by [parseArgs]. *)
Record Options : Type := mkOptions {
  prompt : option string;
  system : option string;
  modelId : option string;
  thinking : bool;
  privacy : option string;
  outputDir : option string;
  help : bool
}.

(** The chat object returned by [createAndDownload], with the properties it
    adds. *)
Record Outcome : Type := mkOutcome {
  chat : Chat;
  downloadedFiles : option (list string);
  autoDownloadStatus : option string;
  downloadError : option string
}.

Definition defaultSystem : string :=
  "You are an expert React developer. Create modern, responsive components using Tailwind CSS. Follow best practices for accessibility and performance.".

(** [10000 + (retry * 5000)] *)
Definition retry_delay (retry : nat) : Z := (10000 + Z.of_nat retry * 5000)%Z.

(** [for (let retry = 1; retry <= 5; retry++) { ... }] over the remaining
    values of [retry]; the result is the local [savedFiles] and, after a
    [break], the retry that succeeded. *)
Fixpoint aggressive_retries (chatId dir : string) (retries : list nat)
  : M (list string * option nat) :=
  match retries with
  | [] => ret ([], None)
  | retry :: retries' =>
      log (LogRetry retry) ;;;
      sleep (retry_delay retry) ;;;
      r <- try_catch
             (savedFiles <- downloadGeneratedCode chatId dir ;;
              if (0 <? length savedFiles)%nat
              then log (LogRetryOk retry) ;;; ret (Return savedFiles)
              else ret Next)
             (fun msg => log (LogRetryFailed retry msg) ;;; ret Next) ;;
      match r with
      | Return savedFiles => ret (savedFiles, Some retry)
      | Next => aggressive_retries chatId dir retries'
      end
  end.

(** [createAndDownload(prompt, options)] *)
Definition createAndDownload (prompt_ : option string) (options : Options) : M Outcome :=
  created <- Creator.createChat prompt_
               (Some (Js.or_else (system options) defaultSystem))
               None
               (mkModelConfiguration (Some (Js.or_else (modelId options) "v0-1.5-md"))
                                     false (thinking options) "sync")
               [] None ;;
  let dir := Js.or_else (outputDir options) "./src/components" in
  try_catch
    (savedFiles <-
       (if bool_decide (version_status created = Some "completed")
        then downloadGeneratedCode (id created) dir
        else waitAndDownloadEnforced (id created) dir 300) ;;
     if (0 <? length savedFiles)%nat then
       ret (mkOutcome created (Some savedFiles) (Some "success") None)
     else
       r <- aggressive_retries (id created) dir [1; 2; 3; 4; 5]%nat ;;
       match r with
       | (savedFiles', Some _) =>
           ret (mkOutcome created (Some savedFiles') (Some "retry_success") None)
       | (_, None) =>
           log (LogManualHint (id created)) ;;;
           ret (mkOutcome created None (Some "failed_will_retry") None)
       end)
    (fun msg =>
       log (LogDownloadError msg) ;;;
       ret (mkOutcome created None (Some "error") (Some msg))).

Definition defaults : Options :=
  mkOptions (Some "") (Some "") (Some "v0-1.5-md") false (Some "private")
            (Some "./src/components") false.

Definition is_flag (arg a b : string) : bool := String.eqb arg a || String.eqb arg b.

Definition set_prompt (v : option string) (o : Options) : Options :=
  mkOptions v (system o) (modelId o) (thinking o) (privacy o) (outputDir o) (help o).
Definition set_system (v : option string) (o : Options) : Options :=
  mkOptions (prompt o) v (modelId o) (thinking o) (privacy o) (outputDir o) (help o).
Definition set_modelId (v : option string) (o : Options) : Options :=
  mkOptions (prompt o) (system o) v (thinking o) (privacy o) (outputDir o) (help o).
Definition set_thinking (o : Options) : Options :=
  mkOptions (prompt o) (system o) (modelId o) true (privacy o) (outputDir o) (help o).
Definition set_privacy (v : option string) (o : Options) : Options :=
  mkOptions (prompt o) (system o) (modelId o) (thinking o) v (outputDir o) (help o).
Definition set_outputDir (v : option string) (o : Options) : Options :=
  mkOptions (prompt o) (system o) (modelId o) (thinking o) (privacy o) v (help o).
Definition set_help (o : Options) : Options :=
  mkOptions (prompt o) (system o) (modelId o) (thinking o) (privacy o) (outputDir o) true.

(** The [for]/[switch] of [parseArgs] over the remaining arguments. An
    option with a value reads [args[++i]]: the next argument, or [undefined]
    when there is none. *)
Fixpoint parse (args : list string) (o : Options) : Options :=
  match args with
  | [] => o
  | arg :: rest =>
      let with_value (set : option string -> Options -> Options) :=
        match rest with
        | [] => set None o
        | value :: rest' => parse rest' (set (Some value) o)
        end in
      if is_flag arg "--prompt" "-p" then with_value set_prompt
      else if is_flag arg "--system" "-s" then with_value set_system
      else if is_flag arg "--model" "-m" then with_value set_modelId
      else if is_flag arg "--thinking" "-t" then parse rest (set_thinking o)
      else if String.eqb arg "--privacy" then with_value set_privacy
      else if is_flag arg "--output" "-o" then with_value set_outputDir
      else if is_flag arg "--help" "-h" then parse rest (set_help o)
      else if negb (Js.truthy (prompt o)) && negb (Js.startsWith arg "-") then
        parse rest (set_prompt (Some arg) o)
      else parse rest o
  end.

(** [parseArgs()], [argv] being [process.argv.slice(2)]. *)
Definition parseArgs (argv : list string) : Options := parse argv defaults.

Definition validModels : list string :=
  ["v0-1.5-sm"; "v0-1.5-md"; "v0-1.5-lg"; "v0-gpt-5"].

Definition validPrivacy : list string :=
  ["private"; "public"; "team"; "team-edit"; "unlisted"].

(** [list.includes(v)] *)
Definition includes_value (l : list string) (v : option string) : bool :=
  match v with
  | Some s => existsb (String.eqb s) l
  | None => false
  end.

(** The [require.main === module] block. The result is the exit status of
    the process: the argument of the [process.exit] reached, or 0 when the
    script runs to its end. *)
Definition main (V0_API_KEY : option string) (argv : list string) : M Z :=
  if negb (Js.truthy V0_API_KEY) then
    log LogNoKey ;;; ret 1%Z
  else
    let options := parseArgs argv in
    if help options then
      log LogHelp ;;; ret 0%Z
    else if negb (Js.truthy (prompt options)) then
      log LogNoPrompt ;;; log LogHelp ;;; ret 1%Z
    else if negb (includes_value validModels (modelId options)) then
      log (LogInvalidModel (modelId options)) ;;; ret 1%Z
    else if negb (includes_value validPrivacy (privacy options)) then
      log (LogInvalidPrivacy (privacy options)) ;;; ret 1%Z
    else
      try_catch
        (result <- createAndDownload (prompt options) options ;;
         log LogDone ;;; ret 0%Z)
        (fun msg => log (LogProcessFailed msg) ;;; ret 1%Z).

End Enforced.

(** ** v0-chat-creator-sdk.js *)

Module Sdk.

Definition downloadGeneratedCode : string -> string -> M (list string) :=
  Creator.downloadGeneratedCode (fun _ _ => ret tt).

(** The only mutable local of [waitAndDownload] is [attempts]. *)
Abbreviation W := (ST (nat * World)).

(** The [try] block of the polling loop. *)
Definition poll_try (chatId outputDir : string) (startTime : Z) : W (Flow (list string)) :=
  attempts <- get_local ;;
  set_local (S attempts) ;;;
  chat <- lift (Creator.getChat chatId) ;;
  if bool_decide (Enforced.version_status chat = Some "completed") then
    lift (log LogCompleted) ;;;
    files <- lift (downloadGeneratedCode chatId outputDir) ;;
    ret (Return files)
  else if bool_decide (Enforced.version_status chat = Some "failed") then
    throw "Generation failed"
  else
    t <- lift now ;;
    attempts <- get_local ;;
    (if (attempts mod 5 =? 0)%nat
     then lift (log (LogStillWaiting (Enforced.elapsed_seconds startTime t) attempts
                                     (Enforced.status_of chat)))
     else lift (log LogDot)) ;;;
    lift (sleep 2000) ;;;
    ret Next.

(** The [catch] block of the polling loop. *)
Definition poll_catch (msg : string) : W (Flow (list string)) :=
  attempts <- get_local ;;
  lift (log (LogPollError attempts msg)) ;;;
  lift (log LogRetrying5) ;;;
  lift (sleep 5000) ;;;
  ret Next.

Definition poll_once (chatId outputDir : string) (startTime : Z) : W (Flow (list string)) :=
  try_catch (poll_try chatId outputDir startTime) poll_catch.

(** [while (Date.now() - startTime < maxWaitMs) { ... }] *)
Fixpoint poll_loop (fuel : nat) (chatId outputDir : string) (startTime maxWaitMs : Z)
  : W (option (Flow (list string))) :=
  t <- lift now ;;
  if (t - startTime <? maxWaitMs)%Z then
    match fuel with
    | O => ret None
    | S fuel' =>
        r <- poll_once chatId outputDir startTime ;;
        match r with
        | Return files => ret (Some (Return files))
        | Next => poll_loop fuel' chatId outputDir startTime maxWaitMs
        end
    end
  else ret (Some Next).

(** [waitAndDownload(chatId, outputDir, maxWaitTime)] *)
Definition waitAndDownload (chatId outputDir : string) (maxWaitTime : Z) : M (list string) :=
  startTime <- now ;;
  let maxWaitMs := (maxWaitTime * 1000)%Z in
  r <- with_locals 0%nat
         (poll_loop (Enforced.poll_fuel maxWaitMs) chatId outputDir startTime maxWaitMs) ;;
  match r with
  | Some (Return files) => ret files
  | Some Next =>
      log LogDeadline ;;;
      try_catch (downloadGeneratedCode chatId outputDir)
                (fun _ => log (LogManualHint chatId) ;;; ret [])
  | None => throw "poll_loop: out of fuel"
  end.

(** [downloadFromChatId(chatId, outputDir)]; the result is the exit status
    the entry block ends with: 1 from the [process.exit(1)] of the [catch]
    block, 0 from the [.then(() => process.exit(0))] of the caller. *)
Definition downloadFromChatId (chatId outputDir : string) : M Z :=
  try_catch
    (savedFiles <- downloadGeneratedCode chatId outputDir ;;
     (if (0 <? length savedFiles)%nat
      then log LogDownloadCompleted
      else log LogNothingDownloaded) ;;;
     ret 0%Z)
    (fun msg => log (LogDownloadFailed msg) ;;; ret 1%Z).

(** [listRecentChats()], with its exit status likewise. *)
Definition listRecentChats : M Z :=
  try_catch
    (chats <- chats_find ;;
     match chats with
     | [] => log LogNoChats
     | _ => log (LogChatList (length chats))
     end ;;;
     ret 0%Z)
    (fun msg => log (LogListFailed msg) ;;; ret 1%Z).

(** The [options] object built by [parseArgs]. *)
Record Options : Type := mkOptions {
  prompt : option string;
  system : option string;
  modelId : option string;
  thinking : bool;
  privacy : option string;
  autoDownload : bool;
  forceDownload : bool;
  outputDir : option string;
  help : bool
}.

Definition defaults : Options :=
  mkOptions (Some "") (Some "") (Some "v0-1.5-md") false (Some "private") true true
            (Some "./src/components") false.

Definition set_prompt (v : option string) (o : Options) : Options :=
  mkOptions v (system o) (modelId o) (thinking o) (privacy o) (autoDownload o)
            (forceDownload o) (outputDir o) (help o).
Definition set_system (v : option string) (o : Options) : Options :=
  mkOptions (prompt o) v (modelId o) (thinking o) (privacy o) (autoDownload o)
            (forceDownload o) (outputDir o) (help o).
Definition set_modelId (v : option string) (o : Options) : Options :=
  mkOptions (prompt o) (system o) v (thinking o) (privacy o) (autoDownload o)
            (forceDownload o) (outputDir o) (help o).
Definition set_thinking (o : Options) : Options :=
  mkOptions (prompt o) (system o) (modelId o) true (privacy o) (autoDownload o)
            (forceDownload o) (outputDir o) (help o).
Definition set_privacy (v : option string) (o : Options) : Options :=
  mkOptions (prompt o) (system o) (modelId o) (thinking o) v (autoDownload o)
            (forceDownload o) (outputDir o) (help o).
Definition set_outputDir (v : option string) (o : Options) : Options :=
  mkOptions (prompt o) (system o) (modelId o) (thinking o) (privacy o) (autoDownload o)
            (forceDownload o) v (help o).
Definition set_download (o : Options) : Options :=
  mkOptions (prompt o) (system o) (modelId o) (thinking o) (privacy o) true true
            (outputDir o) (help o).
Definition set_force (o : Options) : Options :=
  mkOptions (prompt o) (system o) (modelId o) (thinking o) (privacy o) (autoDownload o)
            true (outputDir o) (help o).
Definition set_help (o : Options) : Options :=
  mkOptions (prompt o) (system o) (modelId o) (thinking o) (privacy o) (autoDownload o)
            (forceDownload o) (outputDir o) true.

(** The [for]/[switch] of [parseArgs]; [warned] counts the warnings that
    [--no-download] has printed so far. *)
Fixpoint parse (args : list string) (o : Options) (warned : nat) : Options * nat :=
  match args with
  | [] => (o, warned)
  | arg :: rest =>
      let with_value (set : option string -> Options -> Options) :=
        match rest with
        | [] => (set None o, warned)
        | value :: rest' => parse rest' (set (Some value) o) warned
        end in
      if Enforced.is_flag arg "--prompt" "-p" then with_value set_prompt
      else if Enforced.is_flag arg "--system" "-s" then with_value set_system
      else if Enforced.is_flag arg "--model" "-m" then with_value set_modelId
      else if Enforced.is_flag arg "--thinking" "-t" then parse rest (set_thinking o) warned
      else if String.eqb arg "--privacy" then with_value set_privacy
      else if Enforced.is_flag arg "--output" "-o" then with_value set_outputDir
      else if String.eqb arg "--no-download" then parse rest o (S warned)
      else if Enforced.is_flag arg "--download" "-d" then parse rest (set_download o) warned
      else if Enforced.is_flag arg "--force" "-f" then parse rest (set_force o) warned
      else if Enforced.is_flag arg "--help" "-h" then parse rest (set_help o) warned
      else if negb (Js.truthy (prompt o)) && negb (Js.startsWith arg "-") then
        parse rest (set_prompt (Some arg) o) warned
      else parse rest o warned
  end.

(** [parseArgs()]: the options, after the warnings have been printed. *)
Definition parseArgs (argv : list string) : M Options :=
  let (options, warned) := parse argv defaults 0 in
  for_of (fun _ => log LogDownloadEnforced) (List.repeat tt warned) ;;;
  ret options.

(** [createDynamicChat(options)] *)
Definition createDynamicChat (options : Options) : M Chat :=
  try_catch
    (chat <- Creator.createChat (prompt options)
               (Some (Js.or_else (system options) Enforced.defaultSystem))
               None
               (mkModelConfiguration (modelId options) false (thinking options) "sync")
               [] None ;;
     log (LogChatCreated (id chat)) ;;;
     (if autoDownload options then
        try_catch
          (savedFiles <-
             (if bool_decide (Enforced.version_status chat = Some "completed")
              then downloadGeneratedCode (id chat)
                     (default "./src/components" (outputDir options))
              else waitAndDownload (id chat)
                     (default "./src/components" (outputDir options)) 180) ;;
           if (0 <? length savedFiles)%nat
           then log (LogIntegrated (length savedFiles))
           else ret tt)
          (fun msg =>
             log (LogAutoDownloadFailed msg) ;;;
             log (LogManualHint (id chat)))
      else log (LogManualHint (id chat))) ;;;
     ret chat)
    (fun msg => log (LogChatFailed msg) ;;; throw msg).

(** The [require.main === module] block, with the exit status of the
    process as result. *)
Definition main (V0_API_KEY : option string) (argv : list string) : M Z :=
  if negb (Js.truthy V0_API_KEY) then
    log LogNoKey ;;; ret 1%Z
  else if bool_decide (head argv = Some "download") && Js.truthy (argv !! 1%nat) then
    downloadFromChatId (default "" (argv !! 1%nat))
                       (Js.or_else (argv !! 2%nat) "./src/components")
  else if bool_decide (head argv = Some "list") then
    listRecentChats
  else
    options <- parseArgs argv ;;
    if help options then
      log LogHelp ;;; ret 0%Z
    else if negb (Js.truthy (prompt options)) then
      log LogNoPrompt ;;; log LogHelp ;;; ret 1%Z
    else if negb (Enforced.includes_value Enforced.validModels (modelId options)) then
      log (LogInvalidModel (modelId options)) ;;; ret 1%Z
    else if negb (Enforced.includes_value Enforced.validPrivacy (privacy options)) then
      log (LogInvalidPrivacy (privacy options)) ;;; ret 1%Z
    else
      try_catch
        (chat <- createDynamicChat options ;;
         log LogDone ;;; ret 0%Z)
        (fun _ => ret 1%Z).

End Sdk.

(** ** v0-chat-creator.js *)

Module Basic.

(** [createChat(options)]: one [POST /chats]; a response that is not [ok]
    is thrown as a [V0 API error]. *)
Definition createChat (message system projectId chatPrivacy : option string)
    (modelConfiguration : ModelConfiguration) (attachments : list string)
    (designSystemId : option string) : M Chat :=
  if negb (Js.truthy message) then throw "Message is required to create a chat"
  else
    let requestBody :=
      mkChatOptions (default "" message) modelConfiguration chatPrivacy
        (if Js.truthy system then system else None)
        (if Js.truthy projectId then projectId else None)
        (match attachments with [] => None | _ => Some attachments end)
        (if Js.truthy designSystemId then designSystemId else None) in
    try_catch
      (result <- chats_create requestBody ;;
       log (LogChatCreated (id result)) ;;;
       ret result)
      (fun msg => log (LogChatFailed msg) ;;; throw msg).

(** The [options] object built by [parseArgs]. *)
Record Options : Type := mkOptions {
  prompt : option string;
  system : option string;
  modelId : option string;
  thinking : bool;
  privacy : option string;
  help : bool
}.

Definition defaults : Options :=
  mkOptions (Some "") (Some "") (Some "v0-1.5-md") false (Some "private") false.

Definition set_prompt (v : option string) (o : Options) : Options :=
  mkOptions v (system o) (modelId o) (thinking o) (privacy o) (help o).
Definition set_system (v : option string) (o : Options) : Options :=
  mkOptions (prompt o) v (modelId o) (thinking o) (privacy o) (help o).
Definition set_modelId (v : option string) (o : Options) : Options :=
  mkOptions (prompt o) (system o) v (thinking o) (privacy o) (help o).
Definition set_thinking (o : Options) : Options :=
  mkOptions (prompt o) (system o) (modelId o) true (privacy o) (help o).
Definition set_privacy (v : option string) (o : Options) : Options :=
  mkOptions (prompt o) (system o) (modelId o) (thinking o) v (help o).
Definition set_help (o : Options) : Options :=
  mkOptions (prompt o) (system o) (modelId o) (thinking o) (privacy o) true.

(** The [for]/[switch] of [parseArgs]. *)
Fixpoint parse (args : list string) (o : Options) : Options :=
  match args with
  | [] => o
  | arg :: rest =>
      let with_value (set : option string -> Options -> Options) :=
        match rest with
        | [] => set None o
        | value :: rest' => parse rest' (set (Some value) o)
        end in
      if Enforced.is_flag arg "--prompt" "-p" then with_value set_prompt
      else if Enforced.is_flag arg "--system" "-s" then with_value set_system
      else if Enforced.is_flag arg "--model" "-m" then with_value set_modelId
      else if Enforced.is_flag arg "--thinking" "-t" then parse rest (set_thinking o)
      else if String.eqb arg "--privacy" then with_value set_privacy
      else if Enforced.is_flag arg "--help" "-h" then parse rest (set_help o)
      else if negb (Js.truthy (prompt o)) && negb (Js.startsWith arg "-") then
        parse rest (set_prompt (Some arg) o)
      else parse rest o
  end.

Definition parseArgs (argv : list string) : Options := parse argv defaults.

(** [createDynamicChat(options)]; listing the generated files reads
    [file.content.length], which throws on a file without content. *)
Definition createDynamicChat (options : Options) : M Chat :=
  try_catch
    (chat <- createChat (prompt options)
               (Some (Js.or_else (system options) Enforced.defaultSystem))
               None (privacy options)
               (mkModelConfiguration (modelId options) false (thinking options) "sync")
               [] None ;;
     (if Creator.nonempty (Creator.version_files chat) then
        if forallb (fun file => match content file with Some _ => true | None => false end)
                   (default [] (Creator.version_files chat))
        then log (LogGeneratedFiles (length (default [] (Creator.version_files chat))))
        else throw "Cannot read properties of undefined (reading 'length')"
      else ret tt) ;;;
     ret chat)
    (fun msg => log (LogChatFailed msg) ;;; throw msg).

(** The [require.main === module] block, with the exit status of the
    process as result. *)
Definition main (V0_API_KEY : option string) (argv : list string) : M Z :=
  if negb (Js.truthy V0_API_KEY) then
    log LogNoKey ;;; ret 1%Z
  else
    let options := parseArgs argv in
    if help options then
      log LogHelp ;;; ret 0%Z
    else if negb (Js.truthy (prompt options)) then
      log LogNoPrompt ;;; log LogHelp ;;; ret 1%Z
    else if negb (Enforced.includes_value Enforced.validModels (modelId options)) then
      log (LogInvalidModel (modelId options)) ;;; ret 1%Z
    else if negb (Enforced.includes_value Enforced.validPrivacy (privacy options)) then
      log (LogInvalidPrivacy (privacy options)) ;;; ret 1%Z
    else
      try_catch
        (chat <- createDynamicChat options ;;
         log LogDone ;;; ret 0%Z)
        (fun _ => ret 1%Z).

End Basic.


(** ** Vocabulary of the statements *)

(** [w'] continues [w]: same service and working directory, time and the
    call counter only grow, and the trace grows by events satisfying [P]. *)
Definition extends (P : event -> bool) (w w' : World) : Prop :=
  service w' = service w /\
  cwd (fs w') = cwd (fs w) /\
  (clock w <= clock w')%Z /\
  (gets w <= gets w')%nat /\
  exists ext, trace w' = (trace w ++ ext)%list /\ forallb P ext = true.

(** The state of a script is the world itself. *)
Abbreviation here := (fun w : World => w).

(** Every run of [m] continues the world it starts from; [proj] finds the
    world in the state. *)
Definition frames {S A : Type} (proj : S -> World) (P : event -> bool) (m : ST S A) : Prop :=
  forall s, extends P (proj s) (proj (snd (m s))).

Definition any_event (e : event) : bool := true.

(** Events other than a status report and a sleep. *)
Definition quiet (e : event) : bool :=
  match e with
  | Console (LogStatusUpdate _ _) => false
  | Slept _ => false
  | _ => true
  end.

(** Events that are no remote call. *)
Definition local (e : event) : bool :=
  match e with
  | Created => false
  | Fetched _ => false
  | Listed => false
  | _ => true
  end.

(** The status reports of a trace, in order. *)
Fixpoint status_updates (tr : list event) : list (string * string) :=
  match tr with
  | [] => []
  | Console (LogStatusUpdate old new) :: tr' => (old, new) :: status_updates tr'
  | _ :: tr' => status_updates tr'
  end.

(** The sleeps of a trace, in order. *)
Fixpoint sleeps (tr : list event) : list Z :=
  match tr with
  | [] => []
  | Slept ms :: tr' => ms :: sleeps tr'
  | _ :: tr' => sleeps tr'
  end.

(** The number of remote calls of a trace. *)
Fixpoint remote_calls (tr : list event) : nat :=
  match tr with
  | [] => 0
  | Created :: tr' => S (remote_calls tr')
  | Fetched _ :: tr' => S (remote_calls tr')
  | Listed :: tr' => S (remote_calls tr')
  | _ :: tr' => remote_calls tr'
  end.

(** The answer the next [getChat] of [w] receives. *)
Definition fetched (w : World) (chatId : string) : Res Chat :=
  outcome (on_get (service w) (gets w) chatId).

(** An entry the write loop passes over: after the two lookups, its name or
    its content is [undefined] or empty. *)
Definition skipped (file : FileObj) : bool :=
  negb (Js.truthy (fst (Creator.pick file)) && Js.truthy (snd (Creator.pick file))).

(** Where [p] lives in the file system of [w]. *)
Definition location (w : World) (p : string) : list string :=
  Path.resolve (cwd (fs w)) p.



(** Path and text of the generated index file. *)
Definition manifest_path (outputDir : string) : string :=
  Path.join [outputDir; "index.js"].

Definition manifest_text (savedFiles : list string) : string :=
  Js.join Creator.newline
    (List.map Creator.export_line (List.filter Creator.is_component savedFiles))
  ++ Creator.newline.

(** Does [content] hold one of the keys of [importFixes]? *)
Definition needs_fix (content : string) : bool :=
  existsb (fun fix_ => Js.includes content (fst fix_)) Backend.importFixes.

(** The mutations [w'] has recorded beyond those of [w]. *)
Definition new_ops (w w' : World) : list fs_op :=
  List.skipn (length (ops (fs w))) (ops (fs w')).

(** Is [op] a write to location [q]? *)
Definition writes_to (q : list string) (op : fs_op) : bool :=
  match op with
  | OpWrite q' _ => bool_decide (q' = q)
  | OpMkdir _ => false
  end.

(** *** Sample data *)

Definition no_version : option Version := None.

Definition chat_with (st : string) (fl : list FileObj) : Chat :=
  mkChat "abc123" "https://v0.app/chat/abc123"
         (Some (mkVersion (Some st) (Some fl) None)) None.

Definition entry (n c : string) : FileObj := mkFileObj (Some n) (Some c) None None.

(** A service that answers every call with the same chat, in 100 ms. *)
Definition steady (c : Chat) : Remote :=
  mkRemote (fun _ => mkResponse 100 (Ok c)) (fun _ _ => mkResponse 100 (Ok c))
           (mkResponse 100 (Ok [c])).

(** A service whose [k]-th [getById] is taken from a script, the last answer
    being repeated for ever. *)
Definition scripted (first : Res Chat) (script : list (Res Chat)) (last : Res Chat) : Remote :=
  mkRemote (fun _ => mkResponse 100 first)
           (fun k _ => mkResponse 100 (nth k script last))
           (mkResponse 100 (Ok [])).

(** A project directory [/work] holding an empty [out] directory. *)
Definition disk : FS :=
  mkFS ["work"] (<[ ["work"; "out"] := Dir ]> (<[ ["work"] := Dir ]> ∅)) [].

Definition world_of (r : Remote) : World := mkWorld r disk 0 0 [].

(** *** The claims as worded, where the code departs from them *)


(** C7 as worded: a component is a file with a component extension whose
    base name is not [index], and every such file gets re-exported. *)
Definition claimed_component (file : string) : bool :=
  (Js.endsWith file ".jsx" || Js.endsWith file ".tsx" || Js.endsWith file ".js") &&
  negb (String.eqb (Path.basename file (Path.extname file)) "index").

Definition manifest_for_every_component (outputDir : string) (savedFiles : list string)
    (w : World) : Prop :=
  existsb claimed_component savedFiles = true ->
  exists text,
    file_at (fs (snd (Creator.createIndexFile outputDir savedFiles w)))
            (location w (manifest_path outputDir)) = Some text /\
    forall p, In p savedFiles -> claimed_component p = true ->
              Js.includes text (Creator.export_line p) = true.

(** A job that stays pending and has produced nothing. *)
Definition idle : Remote := steady (chat_with "pending" []).

(** C9 as worded: a file that cannot be processed does not keep the files
    after it from being processed. *)
Definition failures_are_isolated (bad : string) (rest : list string)
    (outputDir : string) (w : World) : Prop :=
  (exists e, fst (Backend.fix_one bad w) = Throw e) ->
  fs (snd (Backend.fixImportPaths (bad :: rest) outputDir w)) =
    fs (snd (Backend.fixImportPaths rest outputDir w)).

(** [/work/out/b.ts] imports from a non-canonical path, [/work/out/c.ts]
    imports nothing. *)
Definition stale_import : string :=
  "import { cn } from " ++ Backend.dq ++ "lib/utils" ++ Backend.dq ++ ";".

Definition disk_with_import : FS :=
  mkFS ["work"]
       (<[ ["work"; "out"; "b.ts"] := File stale_import ]>
          (<[ ["work"; "out"; "c.ts"] := File "export const one = 1;" ]> (nodes disk))) [].

(** *** The polling loop *)

(** The pause the [catch] block of the enforced loop takes. *)
Definition backoff_ms (attempts : nat) : Z :=
  if (attempts mod 5 =? 0)%nat then 5000%Z else 3000%Z.

(** What the next poll of [w] sees: a status, or nothing when [getChat]
    throws. *)
Definition observed (chatId : string) (w : World) : option string :=
  match fetched w chatId with
  | Ok chat => Some (Enforced.status_of chat)
  | Throw _ => None
  end.

(** What the polls of [poll_loop], run from [s], see one after the other. *)
Fixpoint observations (fuel : nat) (chatId dir : string) (startTime maxWaitMs : Z)
    (s : Enforced.PollState * World) : list (option string) :=
  if (clock (snd s) - startTime <? maxWaitMs)%Z then
    match fuel with
    | O => []
    | S fuel' =>
        observed chatId (snd s) ::
        match Enforced.poll_once chatId dir startTime s with
        | (Ok Next, s') => observations fuel' chatId dir startTime maxWaitMs s'
        | _ => []
        end
    end
  else [].

(** The status changes in a sequence of observations that follows the
    status [last]. *)
Fixpoint transitions (last : string) (obs : list (option string)) : list (string * string) :=
  match obs with
  | [] => []
  | None :: obs' => transitions last obs'
  | Some st :: obs' =>
      if String.eqb st last then transitions last obs'
      else (last, st) :: transitions st obs'
  end.

(** The last status seen in such a sequence. *)
Fixpoint last_seen (last : string) (obs : list (option string)) : string :=
  match obs with
  | [] => last
  | None :: obs' => last_seen last obs'
  | Some st :: obs' => last_seen st obs'
  end.

(** Events other than a status report. *)
Definition no_report (e : event) : bool :=
  match e with
  | Console (LogStatusUpdate _ _) => false
  | _ => true
  end.

(** The end of the [try] block when the loop goes on. *)
Definition carry_on (startTime : Z) (currentStatus : string)
  : Enforced.W (Flow (list string)) :=
  Enforced.progress startTime currentStatus ;;;
  lift (sleep 2000) ;;;
  ret Next.

(** The console line of the progress output. *)
Definition progress_line (startTime : Z) (currentStatus : string) (attempts : nat) (t : Z)
  : line :=
  if (attempts mod 10 =? 0)%nat
  then LogStillWaiting (Enforced.elapsed_seconds startTime t) attempts currentStatus
  else if (attempts mod 5 =? 0)%nat
       then LogElapsed (Enforced.elapsed_seconds startTime t)
       else LogDot.

(** What the [catch] block of the enforced loop adds to the trace. *)
Definition backoff_events (attempts : nat) (msg : string) : list event :=
  (Console (LogPollError attempts msg) ::
   (if (attempts mod 5 =? 0)%nat then [Console LogRetrying5] else []) ++
   [Slept (backoff_ms attempts)])%list.

(** [w] after [ms] more milliseconds and the events [ext]. *)
Definition later (ms : Z) (ext : list event) (w : World) : World :=
  mkWorld (service w) (fs w) (clock w + ms) (gets w) (trace w ++ ext).

(** [w'] continues [w] with exactly the events [ext]. *)
Definition grows (w w' : World) (ext : list event) : Prop :=
  service w' = service w /\
  cwd (fs w') = cwd (fs w) /\
  (clock w <= clock w')%Z /\
  (gets w <= gets w')%nat /\
  trace w' = (trace w ++ ext)%list.

(** The number of failed polls at the end of a sequence of observations. *)
Fixpoint leading_failures (obs : list (option string)) : nat :=
  match obs with
  | None :: obs' => S (leading_failures obs')
  | _ => 0
  end.

Definition consecutive_failures (obs : list (option string)) : nat :=
  leading_failures (rev obs).

(** C5 as worded: after a poll that throws, the pause is 5 s on every fifth
    consecutive failure and 3 s otherwise. *)
Definition backoff_by_consecutive_failures (fuel : nat) (chatId dir : string)
    (startTime maxWaitMs : Z) (s : Enforced.PollState * World) : Prop :=
  let obs := observations fuel chatId dir startTime maxWaitMs s in
  let w' := snd (snd (Enforced.poll_loop fuel chatId dir startTime maxWaitMs s)) in
  last obs = Some None ->
  last (sleeps (trace w')) =
    Some (if (consecutive_failures obs mod 5 =? 0)%nat then 5000%Z else 3000%Z).

(** Four polls see a pending job, then the service stops answering. *)
Definition flaky : Remote :=
  scripted (Ok (chat_with "pending" []))
           [Ok (chat_with "pending" []); Ok (chat_with "pending" []);
            Ok (chat_with "pending" []); Ok (chat_with "pending" [])]
           (Throw "socket hang up").

(** The job has failed; the first download cannot reach the service, later
    calls find one generated file. *)
Definition failed_job : Remote :=
  scripted (Ok (chat_with "pending" []))
           [Ok (chat_with "failed" []); Throw "socket hang up"]
           (Ok (chat_with "failed" [entry "Button.tsx" "export default 1"])).

(** The first arguments select the [download] or the [list] command of
    [v0-chat-creator-sdk.js]. *)
Definition special_command (argv : list string) : bool :=
  (bool_decide (head argv = Some "download") && Js.truthy (argv !! 1%nat)) ||
  bool_decide (head argv = Some "list").

(** C4 as worded: asking for help ends the process with a non-zero status. *)
Definition help_exits_nonzero (V0_API_KEY : option string) (argv : list string)
    (w : World) : Prop :=
  Enforced.help (Enforced.parseArgs argv) = true ->
  exists n w', Enforced.main V0_API_KEY argv w = (Ok n, w') /\ n <> 0%Z.

(** ** v0-system-prompts.js *)

Module Prompts.

Definition dq : string := String (ascii_of_nat 34) "".

Definition BACKEND_COMPATIBLE_SYSTEM_PROMPT : string :=
  "
You are an expert React.js and TypeScript developer specializing in creating components that integrate seamlessly with existing backend systems.

CRITICAL REQUIREMENTS - ALWAYS FOLLOW THESE:

1. IMPORT STRUCTURE:
   - Use " ++ dq ++ "@/components/ui/" ++ dq ++ " for all UI components (Button, Card, Input, etc.)
   - Use " ++ dq ++ "@/lib/supabase/client" ++ dq ++ " for client-side Supabase operations
   - Use " ++ dq ++ "@/lib/supabase/server" ++ dq ++ " for server-side Supabase operations  
   - Use " ++ dq ++ "@/lib/api/client" ++ dq ++ " for standardized API calls
   - Use " ++ dq ++ "@/components/" ++ dq ++ " for other components

2. API INTEGRATION:
   - ALWAYS use these exact API endpoints:
     * POST /api/analytics/query - for executing analytics queries
     * POST /api/analytics/save-query - for saving queries
     * GET /api/analytics/saved-queries - for fetching saved queries
     * GET /api/admin/users - for user management (admin only)
   
   - ALWAYS use this QueryConfig interface:
     interface QueryConfig {
       metrics: string[];
       filters: Array<{ id: string; field: string; operator: string; value: string }>;
       groupBy: string[];
       dateRange: { start: string; end: string };
     }

3. AVAILABLE METRICS (use these exact values):
   - sentiment_score (number 0-100)
   - non_talk_percentage (percentage 0-100) 
   - cross_talk_percentage (percentage 0-100)
   - agent_talk_percentage (percentage 0-100)
   - mobile_pitch_expressed (boolean)
   - branded_greeting_used (boolean)
   - cost_disclosure_compliant (boolean)
   - customer_satisfaction_score (number 1-5)

4. AUTHENTICATION PATTERN:
   - ALWAYS check authentication with:
     const supabase = createClient()
     const { data: { user } } = await supabase.auth.getUser()
   
   - For user profiles:
     const { data: profile } = await supabase.from('users').select('*').eq('id', user.id).single()

5. ROLE-BASED ACCESS:
   - Use RoleGuard component for permission-based features
   - Available roles: admin, analyst, query_builder
   - Permissions: canViewAnalytics, canCreateQueries, canSaveQueries, canShareQueries, canExportData, canManageUsers

6. ERROR HANDLING:
   - ALWAYS include proper error handling for API calls
   - Show user-friendly error messages
   - Use try/catch blocks for async operations

7. STYLING:
   - Use Tailwind CSS classes
   - Follow the existing design system with primary colors and consistent spacing
   - Ensure responsive design (mobile-first approach)

8. COMPONENT STRUCTURE:
   - Use TypeScript for all components
   - Include proper prop types and interfaces
   - Use Next.js 13+ app directory conventions
   - Include " ++ dq ++ "use client" ++ dq ++ " directive for client components

9. DATA FETCHING:
   - Use React hooks (useState, useEffect) for state management
   - Implement loading states and error states
   - Use proper TypeScript types for all data

10. BACKEND COMPATIBILITY:
    - Components must work with Supabase authentication
    - Must integrate with existing PostgreSQL schema
    - Must use existing API routes without modification
    - Must respect Row Level Security (RLS) policies

EXAMPLE API CALL PATTERN:
```typescript
const handleRunQuery = async (config: QueryConfig) => {
  setIsLoading(true)
  setError(null)
  
  try {
    const response = await fetch('/api/analytics/query', {
      method: 'POST',
      headers: { 'Content-Type': 'application/json' },
      body: JSON.stringify(config),
    })
    
    const result = await response.json()
    
    if (result.success) {
      setData(result.data)
      setTotalRecords(result.totalRecords)
    } else {
      setError(result.error || 'Query failed')
    }
  } catch (err) {
    setError('Network error occurred')
  } finally {
    setIsLoading(false)
  }
}
```

Remember: Generated components MUST integrate seamlessly with the existing Query Engine Studio backend without requiring API modifications.
".

Definition QUERY_ENGINE_CONTEXT : string :=
  "
DOMAIN CONTEXT: Call Center Analytics Query Engine Studio

You are building components for a post-call analytics system used by:
- Speech analysts who analyze call quality and compliance
- Query builders who create custom analytics reports  
- Administrators who manage users and system settings

The system analyzes call center agent behaviors including:
- Sentiment scoring (positive/negative on 0-100 scale)
- Talk time analysis (non-talk %, cross-talk %, agent talk %)
- Compliance tracking (mobile pitch, branded greeting, cost disclosure)
- Customer satisfaction and call resolution metrics

All components should reflect this professional call center analytics context.
".

(** [generateSystemPrompt(additionalContext)] *)
Definition generateSystemPrompt (additionalContext : string) : string :=
  BACKEND_COMPATIBLE_SYSTEM_PROMPT ++ "

" ++ QUERY_ENGINE_CONTEXT ++ "

" ++ additionalContext ++ "

Generate professional, production-ready components that integrate seamlessly with the existing backend infrastructure.".

(** The own properties of [COMPONENT_PROMPTS], in the order of the source. *)
Definition COMPONENT_PROMPTS : list (string * string) :=
  [("dashboard", generateSystemPrompt ("
    Create a comprehensive analytics dashboard with:
    - Key metrics cards showing total calls, active agents, avg sentiment, compliance rate
    - Query builder interface for custom analytics
    - Results display with table and chart views
    - Role-based navigation and permissions
  "));
   ("queryBuilder", generateSystemPrompt ("
    Create an advanced query builder component with:
    - Metric selection with checkboxes for all available metrics
    - Dynamic filter builder with field/operator/value selection
    - Group by options for aggregation
    - Date range picker
    - Save/load query functionality
    - Query validation and error handling
  "));
   ("resultsTable", generateSystemPrompt ("
    Create a data results table component with:
    - Sortable columns
    - Pagination for large datasets
    - Export functionality (CSV)
    - Filtering and search capabilities
    - Loading and error states
    - Responsive design for mobile
  "));
   ("analyticsCharts", generateSystemPrompt ("
    Create interactive analytics charts with:
    - Multiple chart types (bar, line, pie)
    - Sentiment score visualization
    - Compliance metrics display
    - Talk time breakdowns
    - Responsive chart sizing
    - Export chart functionality
  "));
   ("userManagement", generateSystemPrompt ("
    Create user management interface with:
    - User list with role and department info
    - Add/edit/delete user functionality
    - Role assignment (admin, analyst, query_builder)
    - Department management
    - Permission-based access controls
  "))].

End Prompts.


(** ** smart-v0-generator.js

    The methods of the class [SmartV0Generator] and [parseArgs]. The entry
    block of the script is not modelled: the script's [require] of
    [v0-system-prompts.js], a file that mixes [export] declarations with
    [module.exports], fails when the script is loaded, so the block is never
    reached. The console lines of [analyzePrompt] and [generateComponent]
    belong to the output the model elides. *)

Module Smart.

(** [c.toLowerCase()] for one code unit below 256: the capital letters of
    ASCII and of Latin-1 (the multiplication sign apart) move up by 32. *)
Definition lower (c : ascii) : ascii :=
  let n := nat_of_ascii c in
  if ((65 <=? n)%nat && (n <=? 90)%nat)
     || ((192 <=? n)%nat && (n <=? 222)%nat && negb (n =? 215)%nat)
  then ascii_of_nat (n + 32)
  else c.

(** [s.toLowerCase()] *)
Fixpoint toLowerCase (s : string) : string :=
  match s with
  | "" => ""
  | String c s' => String (lower c) (toLowerCase s')
  end.

(** The [patterns] of [analyzePrompt], in the order of the source. *)
Definition patterns : list (string * list string) :=
  [("dashboard", ["dashboard"; "overview"; "main page"; "home"; "analytics studio"]);
   ("queryBuilder", ["query builder"; "query building"; "filter"; "search builder";
                     "query interface"]);
   ("resultsTable", ["table"; "results"; "data display"; "list"; "grid"; "export"]);
   ("analyticsCharts", ["chart"; "graph"; "visualization"; "analytics"; "metrics display"]);
   ("userManagement", ["user management"; "admin"; "users"; "permissions"; "roles"]);
   ("authentication", ["login"; "signup"; "auth"; "sign in"; "register"]);
   ("navigation", ["navigation"; "nav"; "menu"; "header"; "sidebar"]);
   ("forms", ["form"; "input"; "create"; "edit"; "add new"])].

(** The [for] loop of [analyzePrompt] over the remaining entries. *)
Fixpoint first_match (prompt : string) (entries : list (string * list string)) : string :=
  match entries with
  | [] => "default"
  | (componentType, keywords) :: entries' =>
      if existsb (fun keyword => Js.includes prompt keyword) keywords
      then componentType
      else first_match prompt entries'
  end.

(** [analyzePrompt(userPrompt)] *)
Definition analyzePrompt (userPrompt : string) : string :=
  first_match (toLowerCase userPrompt) patterns.

(** What a property read of an object literal with string values gives,
    when it gives something: the string of an own property, or a member of
    [Object.prototype], named by its key. *)
Inductive Value : Type :=
| Text (s : string)
| Native (key : string).

(** The keys every object literal inherits from [Object.prototype]. *)
Definition inherited_keys : list string :=
  ["constructor"; "__defineGetter__"; "__defineSetter__"; "hasOwnProperty";
   "__lookupGetter__"; "__lookupSetter__"; "isPrototypeOf"; "propertyIsEnumerable";
   "toString"; "valueOf"; "__proto__"; "toLocaleString"].

(** [table[key]] for an object literal [table]: an own property first, then
    the prototype; [None] is [undefined]. *)
Fixpoint lookup (table : list (string * string)) (key : string) : option Value :=
  match table with
  | [] => if existsb (String.eqb key) inherited_keys then Some (Native key) else None
  | (k, v) :: table' => if String.eqb k key then Some (Text v) else lookup table' key
  end.

(** Truthiness of a property read: functions and objects are truthy. *)
Definition truthy (v : option Value) : bool :=
  match v with
  | Some (Text s) => Js.truthy (Some s)
  | Some (Native _) => true
  | None => false
  end.

(** [String(v)], as [+=] on a string applies it: [__proto__] is the object
    [Object.prototype], [constructor] the function [Object], every other
    inherited key a function of that name. *)
Definition text_of (v : Value) : string :=
  match v with
  | Text s => s
  | Native key =>
      if String.eqb key "__proto__" then "[object Object]"
      else "function " ++ (if String.eqb key "constructor" then "Object" else key)
           ++ "() { [native code] }"
  end.

(** [generateCustomContext(userPrompt)] *)
Definition generateCustomContext (userPrompt : string) : string :=
  let prompt := toLowerCase userPrompt in
  let context := "Create a component that integrates with the Query Engine Studio." in
  let context :=
    if Js.includes prompt "sentiment"
    then context ++ " Focus on sentiment analysis features and scoring (0-100 scale)."
    else context in
  let context :=
    if Js.includes prompt "compliance"
    then context ++ " Emphasize compliance tracking features (mobile pitch, branded greeting, cost disclosure)."
    else context in
  let context :=
    if Js.includes prompt "agent"
    then context ++ " Include agent-specific functionality and analytics."
    else context in
  let context :=
    if Js.includes prompt "admin"
    then context ++ " Include administrative features with proper role-based access controls."
    else context in
  let context :=
    if Js.includes prompt "real-time" || Js.includes prompt "live"
    then context ++ " Implement real-time data updates and live monitoring capabilities."
    else context in
  context.

(** [getSystemPrompt(componentType, userPrompt)]; what it returns is a
    string unless [componentType] is an inherited key. *)
Definition getSystemPrompt (componentType userPrompt : string) : Value :=
  match lookup Prompts.COMPONENT_PROMPTS componentType with
  | Some v =>
      if truthy (Some v) then v
      else Text (Prompts.generateSystemPrompt (generateCustomContext userPrompt))
  | None => Text (Prompts.generateSystemPrompt (generateCustomContext userPrompt))
  end.

Definition integrationHints : list (string * string) :=
  [("dashboard", " Ensure the dashboard integrates with the existing analytics API endpoints and displays real call center metrics.");
   ("queryBuilder", " Make sure the query builder uses the exact QueryConfig interface and available metrics from the backend.");
   ("resultsTable", " The table should work with the analytics API response format and support all query result types.");
   ("analyticsCharts", " Charts should visualize the call center metrics (sentiment, talk time, compliance) from the API.");
   ("userManagement", " User management should integrate with Supabase auth and the users table with proper role permissions.")].

(** The sentence [enhancePrompt] always appends. *)
Definition reminder : string :=
  " Ensure full compatibility with the existing Query Engine Studio backend, API contracts, and TypeScript interfaces.".

(** [enhancePrompt(userPrompt, componentType)] *)
Definition enhancePrompt (userPrompt componentType : string) : string :=
  let enhancedPrompt :=
    match lookup integrationHints componentType with
    | Some hint => if truthy (Some hint) then userPrompt ++ text_of hint else userPrompt
    | None => userPrompt
    end in
  enhancedPrompt ++ reminder.

(** The [options] object built by [parseArgs]. *)
Record Options : Type := mkOptions {
  prompt : option string;
  modelId : option string;
  thinking : bool;
  privacy : option string;
  outputDir : option string;
  help : bool;
  smart : bool
}.

(** What [generateComponent] returns: the chat of [createAndDownload] with
    three more properties. *)
Record Generated : Type := mkGenerated {
  result : Enforced.Outcome;
  componentType : string;
  enhancedPrompt : string;
  systemPromptUsed : string
}.

(** The options [generateComponent] hands to [createAndDownload]: the
    spread of [options] comes last, so its own values win over the defaults
    written before it; only [system] is new. *)
Definition download_options (systemPrompt : string) (options : Options) : Enforced.Options :=
  Enforced.mkOptions (prompt options) (Some systemPrompt) (modelId options)
                     (thinking options) (privacy options) (outputDir options)
                     (help options).

(** [generateComponent(userPrompt, options)]. The last branch stands for a
    system prompt that is no string: [analyzePrompt] answers with no
    inherited key, so it is never taken. *)
Definition generateComponent (userPrompt : string) (options : Options) : M Generated :=
  let componentType := analyzePrompt userPrompt in
  let systemPrompt := getSystemPrompt componentType userPrompt in
  let enhancedPrompt := enhancePrompt userPrompt componentType in
  match systemPrompt with
  | Text systemPrompt =>
      result <- Enforced.createAndDownload (Some enhancedPrompt)
                  (download_options systemPrompt options) ;;
      ret (mkGenerated result componentType enhancedPrompt
                       (Js.take 100 systemPrompt ++ "..."))
  | Native _ => throw "generateComponent: the system prompt is no string"
  end.

Definition defaults : Options :=
  mkOptions (Some "") (Some "v0-1.5-md") false (Some "private") (Some "./src/components")
            false true.

Definition set_prompt (v : option string) (o : Options) : Options :=
  mkOptions v (modelId o) (thinking o) (privacy o) (outputDir o) (help o) (smart o).
Definition set_modelId (v : option string) (o : Options) : Options :=
  mkOptions (prompt o) v (thinking o) (privacy o) (outputDir o) (help o) (smart o).
Definition set_thinking (o : Options) : Options :=
  mkOptions (prompt o) (modelId o) true (privacy o) (outputDir o) (help o) (smart o).
Definition set_privacy (v : option string) (o : Options) : Options :=
  mkOptions (prompt o) (modelId o) (thinking o) v (outputDir o) (help o) (smart o).
Definition set_outputDir (v : option string) (o : Options) : Options :=
  mkOptions (prompt o) (modelId o) (thinking o) (privacy o) v (help o) (smart o).
Definition set_help (o : Options) : Options :=
  mkOptions (prompt o) (modelId o) (thinking o) (privacy o) (outputDir o) true (smart o).

(** The [for]/[switch] of [parseArgs]. *)
Fixpoint parse (args : list string) (o : Options) : Options :=
  match args with
  | [] => o
  | arg :: rest =>
      let with_value (set : option string -> Options -> Options) :=
        match rest with
        | [] => set None o
        | value :: rest' => parse rest' (set (Some value) o)
        end in
      if Enforced.is_flag arg "--prompt" "-p" then with_value set_prompt
      else if Enforced.is_flag arg "--model" "-m" then with_value set_modelId
      else if Enforced.is_flag arg "--thinking" "-t" then parse rest (set_thinking o)
      else if String.eqb arg "--privacy" then with_value set_privacy
      else if Enforced.is_flag arg "--output" "-o" then with_value set_outputDir
      else if Enforced.is_flag arg "--help" "-h" then parse rest (set_help o)
      else if negb (Js.truthy (prompt o)) && negb (Js.startsWith arg "-") then
        parse rest (set_prompt (Some arg) o)
      else parse rest o
  end.

Definition parseArgs (argv : list string) : Options := parse argv defaults.

End Smart.

(** *** Vocabulary of the further properties *)

(** A computation that stays on this machine: it leaves the call counter
    and the number of remote calls in the trace as they are. *)
Definition offline {A : Type} (m : M A) : Prop :=
  forall w, gets (snd (m w)) = gets w /\
            remote_calls (trace (snd (m w))) = remote_calls (trace w).

(** The path under which the write loop saves an entry it does not skip. *)
Definition kept_path (outputDir : string) (file : FileObj) : string :=
  Path.join [outputDir; default "" (fst (Creator.pick file))].

(** The entries of a list the write loop does not skip. *)
Definition kept (files : list FileObj) : list FileObj :=
  List.filter (fun file => negb (skipped file)) files.


(** A path segment that normalisation keeps: neither empty nor [.] nor
    [..]. *)
Definition proper (seg : string) : bool :=
  negb (String.eqb seg "" || String.eqb seg "." || String.eqb seg "..").

(** The stack [Path.normalize_segs] has built when its input is used up
    (the last segment first). *)
Fixpoint walk (allowAbove : bool) (stack segs : list string) : list string :=
  match segs with
  | [] => stack
  | seg :: rest =>
      if String.eqb seg "" || String.eqb seg "." then walk allowAbove stack rest
      else if String.eqb seg ".." then
        match stack with
        | top :: stack' =>
            if String.eqb top ".." then
              walk allowAbove (if allowAbove then ".." :: stack else stack) rest
            else walk allowAbove stack' rest
        | [] => walk allowAbove (if allowAbove then [".."] else []) rest
        end
      else walk allowAbove (seg :: stack) rest
  end.

(** Does a string hold no slash? *)
Fixpoint no_slash (s : string) : bool :=
  match s with
  | "" => true
  | String c s' => negb (Ascii.eqb c Path.slash) && no_slash s'
  end.

(** Location [q] is the directory [root] or lies below it. *)
Definition under (root q : list string) : Prop := exists rest, q = (root ++ rest)%list.

(** A stack of the mode that keeps leading [..]: every entry is [..] or a
    proper segment. *)
Definition tidy (st : list string) : Prop :=
  Forall (fun s => s = ".." \/ proper s = true) st.

(** A working directory as [process.cwd()] gives it: proper segments
    without a slash. *)
Definition canonical (segs : list string) : bool :=
  forallb (fun s => proper s && no_slash s) segs.

(** Where the files of the integration step live, seen from [w]. *)
Definition env_location (w : World) : list string := (cwd (fs w) ++ [".env"])%list.
Definition env_template_location (w : World) : list string :=
  (cwd (fs w) ++ [".env.template"])%list.
Definition src_location (w : World) : list string := (cwd (fs w) ++ ["src"])%list.
Definition middleware_location (w : World) : list string :=
  (cwd (fs w) ++ ["src"; "middleware.ts"])%list.
Definition helpers_location (w : World) (outputDir : string) : list string :=
  (location w outputDir ++ ["lib"; "api"; "client.ts"])%list.

(** The integration step ended with its success line. *)
Definition integrated (w' : World) : Prop :=
  last (trace w') = Some (Console LogIntegrationOk).

(** A computation that removes no node of the file system and leaves the
    working directory where it is. *)
Definition keeps_nodes {A : Type} (m : M A) : Prop :=
  forall w, cwd (fs (snd (m w))) = cwd (fs w) /\
            forall q, node_at (fs w) q <> None -> node_at (fs (snd (m w))) q <> None.

(** A computation that leaves the file system as it is. *)
Definition reads_only {A : Type} (m : M A) : Prop :=
  forall w, fs (snd (m w)) = fs w.

(** *** The stages after the deadline and the retries *)

(** The stages [todo], numbered from [i + 1] of [n] and run one after the
    other from [w], all come up without a file, by returning none or by
    throwing: the world they leave. [None] when one of them returns files. *)
Fixpoint stages_fail (i n : nat) (todo : list (M (list string))) (w : World)
  : option World :=
  match todo with
  | [] => Some w
  | stage :: todo' =>
      match stage (snd (log (LogFinalAttempt (i + 1) n) w)) with
      | (Ok [], w1) => stages_fail (S i) n todo' w1
      | (Ok (_ :: _), _) => None
      | (Throw e, w1) => stages_fail (S i) n todo' (snd (log (LogFinalFailed (i + 1) e) w1))
      end
  end.

(** The world in which retry [retry] of [createAndDownload] downloads, when
    the retry starts in [w]. *)
Definition retry_world (retry : nat) (w : World) : World :=
  snd (sleep (Enforced.retry_delay retry) (snd (log (LogRetry retry) w))).

(** Likewise for the retries of [createAndDownload]: all of [retries] come
    up without a file. *)
Fixpoint retries_fail (chatId dir : string) (retries : list nat) (w : World)
  : option World :=
  match retries with
  | [] => Some w
  | retry :: retries' =>
      match Enforced.downloadGeneratedCode chatId dir (retry_world retry w) with
      | (Ok [], w1) => retries_fail chatId dir retries' w1
      | (Ok (_ :: _), _) => None
      | (Throw e, w1) =>
          retries_fail chatId dir retries' (snd (log (LogRetryFailed retry e) w1))
      end
  end.

(** *** What follows the write loop *)


(** ** Frame rules *)

Section Frames.

Context {St : Type} (proj : St -> World) (P : event -> bool).

Lemma extends_refl w : extends P w w.
Proof.
  unfold extends. repeat split; try reflexivity; try lia.
  exists []. split; [now rewrite app_nil_r | reflexivity].
Qed.

Lemma extends_trans w1 w2 w3 :
  extends P w1 w2 -> extends P w2 w3 -> extends P w1 w3.
Proof.
  intros (Hs1 & Hc1 & Ht1 & Hg1 & e1 & He1 & Hp1) (Hs2 & Hc2 & Ht2 & Hg2 & e2 & He2 & Hp2).
  unfold extends. repeat split; try congruence; try lia.
  exists (e1 ++ e2)%list. split.
  - rewrite He2, He1. now rewrite app_assoc.
  - rewrite forallb_app, Hp1, Hp2. reflexivity.
Qed.

Lemma frames_ret {A} (a : A) : frames proj P (ret a).
Proof. intros s. apply extends_refl. Qed.

Lemma frames_throw {A} msg : frames proj P (@throw St A msg).
Proof. intros s. apply extends_refl. Qed.

Lemma frames_bind {A B} (m : ST St A) (k : A -> ST St B) :
  frames proj P m -> (forall a, frames proj P (k a)) -> frames proj P (bind m k).
Proof.
  intros Hm Hk s. unfold bind. specialize (Hm s).
  destruct (m s) as [[a | e] s1]; simpl in *; [| exact Hm].
  eapply extends_trans; [exact Hm | apply Hk].
Qed.

Lemma frames_try_catch {A} (m : ST St A) (h : string -> ST St A) :
  frames proj P m -> (forall e, frames proj P (h e)) -> frames proj P (try_catch m h).
Proof.
  intros Hm Hh s. unfold try_catch. specialize (Hm s).
  destruct (m s) as [[a | e] s1]; simpl in *; [exact Hm |].
  eapply extends_trans; [exact Hm | apply Hh].
Qed.

Lemma frames_for_of {A} (body : A -> ST St unit) l :
  (forall x, frames proj P (body x)) -> frames proj P (for_of body l).
Proof.
  intros Hb. induction l as [| x l IH]; simpl.
  - apply frames_ret.
  - apply frames_bind; [apply Hb | intros _; exact IH].
Qed.

End Frames.

Section FramesWorld.

Context (P : event -> bool).

Lemma frames_emit e : P e = true -> frames here P (emit e).
Proof.
  intros He w. unfold emit, extends; simpl. repeat split; try lia.
  exists [e]. split; [reflexivity | simpl; now rewrite He].
Qed.

Lemma frames_log l : P (Console l) = true -> frames here P (log l).
Proof. apply frames_emit. Qed.

Lemma frames_now : frames here P now.
Proof. intros w. apply extends_refl. Qed.

Lemma frames_sleep ms : (0 <= ms)%Z -> P (Slept ms) = true -> frames here P (sleep ms).
Proof.
  intros Hms He w. unfold sleep, extends; simpl. repeat split; try lia.
  exists [Slept ms]. split; [reflexivity | simpl; now rewrite He].
Qed.

Lemma frames_process_cwd : frames here P process_cwd.
Proof. intros w. apply extends_refl. Qed.

Lemma frames_existsSync p : frames here P (existsSync p).
Proof. intros w. apply extends_refl. Qed.

Lemma extends_with_fs w f : cwd f = cwd (fs w) -> extends P w (with_fs f w).
Proof.
  intros Hc. unfold with_fs, extends. repeat split; simpl; try lia; try assumption.
  exists []. split; [now rewrite app_nil_r | reflexivity].
Qed.

Lemma frames_mkdirSync p : frames here P (mkdirSync p).
Proof.
  intros w. unfold mkdirSync.
  destruct (mkdir_from _ _ _); simpl; [now apply extends_with_fs | apply extends_refl].
Qed.

Lemma frames_writeFileSync p d : frames here P (writeFileSync p d).
Proof.
  intros w. unfold writeFileSync.
  destruct (node_at (fs w) (Path.resolve (cwd (fs w)) p)) as [[|] |];
    destruct (node_at (fs w) (removelast (Path.resolve (cwd (fs w)) p))) as [[|] |]; simpl;
    first [now apply extends_with_fs | apply extends_refl].
Qed.

Lemma frames_readFileSync p : frames here P (readFileSync p).
Proof.
  intros w. unfold readFileSync.
  destruct (node_at _ _) as [[|] |]; apply extends_refl.
Qed.

Lemma frames_remote_call {A} e bump (r : Response A) :
  P e = true -> frames here P (remote_call e bump r).
Proof.
  intros He w. unfold remote_call, extends; simpl. repeat split; try lia.
  exists [e]. split; [reflexivity | simpl; now rewrite He].
Qed.

Lemma frames_chats_getById chatId :
  P (Fetched chatId) = true -> frames here P (chats_getById chatId).
Proof. intros He w. unfold chats_getById. now apply frames_remote_call. Qed.

Lemma frames_chats_create o : P Created = true -> frames here P (chats_create o).
Proof. intros He w. unfold chats_create. now apply frames_remote_call. Qed.

Lemma frames_chats_find : P Listed = true -> frames here P chats_find.
Proof. intros He w. unfold chats_find. now apply frames_remote_call. Qed.

Lemma frames_lift {L A} (m : M A) :
  frames here P m -> frames (@snd L World) P (lift m).
Proof.
  intros Hm [l w]. unfold lift; simpl. specialize (Hm w).
  destruct (m w) as [r w']; exact Hm.
Qed.

Lemma frames_get_local {L} : frames (@snd L World) P get_local.
Proof. intros s. apply extends_refl. Qed.

Lemma frames_set_local {L} (l : L) : frames (@snd L World) P (set_local l).
Proof. intros s. apply extends_refl. Qed.

Lemma frames_with_locals {L A} (l : L) (m : ST (L * World) A) :
  frames (@snd L World) P m -> frames here P (with_locals l m).
Proof.
  intros Hm w. unfold with_locals. specialize (Hm (l, w)).
  destruct (m (l, w)) as [r s']; exact Hm.
Qed.

End FramesWorld.

(** Weakening of the event predicate. *)
Lemma extends_weaken (P Q : event -> bool) w w' :
  (forall e, P e = true -> Q e = true) -> extends P w w' -> extends Q w w'.
Proof.
  intros HPQ (Hs & Hc & Ht & Hg & ext & He & Hp).
  unfold extends. repeat split; try assumption. exists ext. split; [assumption |].
  rewrite forallb_forall in *. auto.
Qed.

(** One step of a frame proof: a structural rule, a primitive, or a case
    split on the scrutinee the computation branches on. *)
Ltac frame_step :=
  first
    [ apply frames_ret
    | apply frames_throw
    | apply frames_log; reflexivity
    | apply frames_now
    | apply frames_sleep; [lia | reflexivity]
    | apply frames_process_cwd
    | apply frames_existsSync
    | apply frames_mkdirSync
    | apply frames_writeFileSync
    | apply frames_readFileSync
    | apply frames_chats_getById; reflexivity
    | apply frames_chats_create; reflexivity
    | apply frames_chats_find; reflexivity
    | apply frames_get_local
    | apply frames_set_local
    | apply frames_lift
    | apply frames_with_locals
    | apply frames_for_of; intros
    | apply frames_bind; [| intros]
    | apply frames_try_catch; [| intros]
    | match goal with
      | |- frames _ _ (if ?b then _ else _) => destruct b
      | |- frames _ _ (match ?x with _ => _ end) => destruct x
      | |- frames _ _ (let (_, _) := ?x in _) => destruct x
      end ].

Ltac frame := repeat frame_step.

(** ** Frames of the download step *)

Lemma frames_ensureBackendIntegration l d :
  frames here quiet (Backend.ensureBackendIntegration l d).
Proof.
  unfold Backend.ensureBackendIntegration, Backend.validateApiContracts,
    Backend.validateEnvironmentVariables, Backend.fixImportPaths, Backend.fix_one,
    Backend.validateTypeScriptInterfaces, Backend.ensureMiddlewareIntegration,
    Backend.createMiddlewareFile, Backend.createEnvTemplate, Backend.generateApiHelpers.
  frame.
Qed.

Lemma frames_getChat chatId : frames here quiet (Creator.getChat chatId).
Proof. unfold Creator.getChat. frame. Qed.

Lemma frames_save_each d l i saved : frames here quiet (Creator.save_each d l i saved).
Proof.
  revert i saved. induction l as [| f l IH]; intros i saved; simpl.
  - frame.
  - apply frames_bind; [| intros; apply IH].
    unfold Creator.save_one. frame.
Qed.

Lemma frames_createIndexFile d saved : frames here quiet (Creator.createIndexFile d saved).
Proof. unfold Creator.createIndexFile. frame. Qed.

Lemma frames_downloadGeneratedCode after chatId d :
  (forall l d', frames here quiet (after l d')) ->
  frames here quiet (Creator.downloadGeneratedCode after chatId d).
Proof.
  intros Hafter. unfold Creator.downloadGeneratedCode.
  apply frames_try_catch; [| intros; frame].
  apply frames_bind; [frame |]. intros _.
  apply frames_bind; [apply frames_getChat |]. intros chat.
  destruct (Creator.generated_files chat) as [| f fl]; [frame |].
  apply frames_bind; [frame |]. intros found.
  apply frames_bind; [frame |]. intros _.
  apply frames_bind; [apply frames_save_each |]. intros saved.
  apply frames_bind; [| frame].
  destruct (0 <? length saved)%nat; [| frame].
  apply frames_bind; [frame |]. intros _.
  apply frames_bind; [apply frames_createIndexFile |]. intros _.
  apply Hafter.
Qed.

Lemma frames_enforced_download chatId d :
  frames here quiet (Enforced.downloadGeneratedCode chatId d).
Proof.
  apply frames_downloadGeneratedCode. intros. apply frames_ensureBackendIntegration.
Qed.

Lemma frames_sdk_download chatId d :
  frames here quiet (Sdk.downloadGeneratedCode chatId d).
Proof. apply frames_downloadGeneratedCode. intros. frame. Qed.

(** ** Facts about the file-system primitives *)

Lemma mkdir_from_target pre rest m m' :
  mkdir_from pre rest m = Some m' -> rest <> [] -> m' !! (pre ++ rest)%list = Some Dir.
Proof.
  revert pre m. induction rest as [| s rest IH]; intros pre m Hm Hne; [congruence |].
  simpl in Hm.
  assert (Hgo : mkdir_from (pre ++ [s]) rest (<[(pre ++ [s])%list := Dir]> m) = Some m').
  { destruct (m !! (pre ++ [s])%list) as [[d |] |]; congruence. }
  destruct rest as [| s' rest'].
  - simpl in Hgo. injection Hgo as <-. apply lookup_insert_eq.
  - replace (pre ++ s :: s' :: rest')%list with ((pre ++ [s]) ++ s' :: rest')%list
      by (rewrite <- app_assoc; reflexivity).
    eapply IH; [exact Hgo | discriminate].
Qed.

Lemma mkdir_from_files pre rest m m' q d :
  mkdir_from pre rest m = Some m' -> m !! q = Some (File d) -> m' !! q = Some (File d).
Proof.
  revert pre m. induction rest as [| s rest IH]; intros pre m Hm Hq; simpl in Hm.
  - congruence.
  - destruct (m !! (pre ++ [s])%list) as [[d' |] |] eqn:E; [discriminate | |];
      (eapply IH; [exact Hm |]; rewrite lookup_insert_ne; [exact Hq | congruence]).
Qed.

Lemma getChat_run chatId w :
  fst (Creator.getChat chatId w) = fetched w chatId /\
  fs (snd (Creator.getChat chatId w)) = fs w.
Proof.
  unfold Creator.getChat, try_catch, bind, log, emit, chats_getById, remote_call,
    fetched, throw; simpl.
  destruct (outcome (on_get (service w) (gets w) chatId)); simpl; auto.
Qed.

(** A skipped entry costs one console line and nothing else. *)
Lemma save_one_skipped d file i saved w :
  skipped file = true ->
  Creator.save_one d file i saved w =
    (Ok saved, mkWorld (service w) (fs w) (clock w) (gets w)
                       (trace w ++ [Console (LogSkipping (i + 1))])).
Proof.
  unfold skipped, Creator.save_one. intros H.
  destruct (Creator.pick file) as [fileName fileContent]; simpl in *.
  destruct (Js.truthy fileName && Js.truthy fileContent); [discriminate |].
  reflexivity.
Qed.

Lemma save_each_all_skipped d l i saved w :
  forallb skipped l = true ->
  fst (Creator.save_each d l i saved w) = Ok saved /\
  fs (snd (Creator.save_each d l i saved w)) = fs w.
Proof.
  revert i w. induction l as [| f l IH]; intros i w H; simpl in *.
  - auto.
  - apply andb_prop in H as [Hf Hl].
    unfold bind. rewrite (save_one_skipped _ _ _ _ _ Hf).
    match goal with |- context [Creator.save_each d l ?j saved ?w'] =>
      destruct (IH j w' Hl) as [H1 H2] end.
    split; [exact H1 | rewrite H2; reflexivity].
Qed.

(** ** The download step (C10, C3, C1, C7) *)

(** C10. A chat without output files leaves the file system exactly as it
    was and yields the empty list; whenever the download changes the file
    system the fetched chat had files; and a non-empty list whose entries
    are all skipped still gets its destination root created. *)
Theorem C10_empty_chat_touches_nothing :
  forall (after : list string -> string -> M unit) (chatId outputDir : string) (w : World),
    let run := Creator.downloadGeneratedCode after chatId outputDir w in
    (forall chat, fetched w chatId = Ok chat -> Creator.generated_files chat = [] ->
       fst run = Ok [] /\ fs (snd run) = fs w) /\
    (fs (snd run) <> fs w ->
       exists chat, fetched w chatId = Ok chat /\ Creator.generated_files chat <> []) /\
    (forall chat m, fetched w chatId = Ok chat ->
       Creator.generated_files chat <> [] ->
       forallb skipped (Creator.generated_files chat) = true ->
       node_at (fs w) (location w outputDir) = None ->
       mkdir_from [] (location w outputDir) (nodes (fs w)) = Some m ->
       fst run = Ok [] /\ nodes (fs (snd run)) = m /\
       node_at (fs (snd run)) (location w outputDir) = Some Dir).
Proof.
  intros after chatId outputDir w.
  unfold Creator.downloadGeneratedCode, try_catch, bind, log, emit.
  match goal with
  | |- context [Creator.getChat chatId ?w0] =>
      destruct (getChat_run chatId w0) as [Hr Hf];
      destruct (Creator.getChat chatId w0) as [r w2]
  end.
  cbn [fst snd fs] in Hr, Hf. unfold fetched in Hr; cbn [service gets] in Hr.
  fold (fetched w chatId) in Hr. subst r.
  destruct (fetched w chatId) as [chat | e] eqn:Efetch.
  - destruct (Creator.generated_files chat) as [| f fl] eqn:Efiles.
    + cbn. split; [| split].
      * intros _ _ _. split; [reflexivity | assumption].
      * intros H. exfalso. apply H. assumption.
      * intros chat' m Hc. injection Hc as <-. congruence.
    + split; [| split].
      * intros chat' Hc. injection Hc as <-. congruence.
      * intros _. exists chat. split; [reflexivity | congruence].
      * intros chat' m Hc _ Hskip Habsent Hmk. injection Hc as <-.
        rewrite Efiles in Hskip.
        unfold location in *. rewrite <- Hf in Habsent, Hmk.
        unfold existsSync. rewrite Habsent. cbn [negb].
        unfold mkdirSync. rewrite Hmk.
        match goal with
        | |- context [Creator.save_each ?d ?l ?i ?s ?w0] =>
            destruct (save_each_all_skipped d l i s w0 Hskip) as [Hres Hfs];
            destruct (Creator.save_each d l i s w0) as [r3 w3]
        end.
        cbn [fst snd fs with_fs] in Hres, Hfs. subst r3. cbn.
        rewrite Hfs. cbn. split; [reflexivity | split; [reflexivity |]].
        destruct (Path.resolve (cwd (fs w2)) outputDir) as [| s q] eqn:Eq;
          [cbn in Habsent; discriminate |].
        rewrite <- Hf, Eq. cbn. apply (mkdir_from_target [] (s :: q) _ _ Hmk). discriminate.
  - cbn. split; [| split].
    + intros chat Hc. discriminate.
    + intros H. exfalso. apply H. assumption.
    + intros chat m Hc. discriminate.
Qed.

Lemma C10_witness :
  fst (Sdk.downloadGeneratedCode "abc123" "./gen"
         (world_of (steady (chat_with "completed" [])))) = Ok [] /\
  fs (snd (Sdk.downloadGeneratedCode "abc123" "./gen"
             (world_of (steady (chat_with "completed" []))))) =
    fs (world_of (steady (chat_with "completed" []))).
Proof.
  destruct (C10_empty_chat_touches_nothing (fun _ _ => ret tt) "abc123" "./gen"
              (world_of (steady (chat_with "completed" [])))) as (H & _).
  apply (H (chat_with "completed" [])); reflexivity.
Defined.

(** Case analysis on the innermost scrutinee of the goal. *)
Ltac break_match :=
  match goal with
  | |- context [match ?x with _ => _ end] =>
      lazymatch x with
      | context [match _ with _ => _ end] => fail
      | _ => destruct x eqn:?
      end
  end.

(** The write loop sees the world only through its file system. *)
Lemma save_one_same_disk d file i j saved w1 w2 :
  fs w1 = fs w2 ->
  fst (Creator.save_one d file i saved w1) = fst (Creator.save_one d file j saved w2) /\
  fs (snd (Creator.save_one d file i saved w1)) = fs (snd (Creator.save_one d file j saved w2)).
Proof.
  intros H. unfold Creator.save_one.
  destruct (Creator.pick file) as [fileName fileContent].
  destruct (Js.truthy fileName && Js.truthy fileContent); [| cbn; auto].
  unfold bind, existsSync, mkdirSync, writeFileSync, log, emit, ret, with_fs.
  rewrite H.
  repeat (break_match; cbn [negb fs fst snd cwd nodes ops]; try rewrite H); auto.
Qed.

Lemma save_each_same_disk d l :
  forall i j saved w1 w2,
    fs w1 = fs w2 ->
    fst (Creator.save_each d l i saved w1) = fst (Creator.save_each d l j saved w2) /\
    fs (snd (Creator.save_each d l i saved w1)) = fs (snd (Creator.save_each d l j saved w2)).
Proof.
  induction l as [| f l IH]; intros i j saved w1 w2 H; cbn.
  - auto.
  - unfold bind.
    destruct (save_one_same_disk d f i j saved w1 w2 H) as [Hr Hf].
    destruct (Creator.save_one d f i saved w1) as [r1 v1].
    destruct (Creator.save_one d f j saved w2) as [r2 v2].
    cbn in Hr, Hf. subst r2.
    destruct r1 as [saved' | e]; cbn; auto.
Qed.

(** C3. An entry whose name or content is missing after the two lookups --
    in particular a named entry with empty content -- is passed over: the
    loop returns the same list and leaves the same files as if the entry
    were not there, and goes on with the entries after it. *)
Theorem C3_missing_name_or_content_is_skipped :
  forall (outputDir : string) (before after : list FileObj) (file : FileObj) (w : World),
    skipped file = true ->
    fst (Creator.save_each outputDir (before ++ file :: after) 0 [] w) =
      fst (Creator.save_each outputDir (before ++ after) 0 [] w) /\
    fs (snd (Creator.save_each outputDir (before ++ file :: after) 0 [] w)) =
      fs (snd (Creator.save_each outputDir (before ++ after) 0 [] w)) /\
    (forall n, skipped (mkFileObj (Some n) (Some "") None None) = true) /\
    (forall e, Js.truthy (name e) && Js.truthy (content e) = false ->
               Js.truthy (meta_file e) && Js.truthy (source e) = false ->
               skipped e = true).
Proof.
  intros d before after file w Hskip.
  assert (Hloop : forall i j saved w1 w2, fs w1 = fs w2 ->
    fst (Creator.save_each d (before ++ file :: after) i saved w1) =
      fst (Creator.save_each d (before ++ after) j saved w2) /\
    fs (snd (Creator.save_each d (before ++ file :: after) i saved w1)) =
      fs (snd (Creator.save_each d (before ++ after) j saved w2))).
  { induction before as [| f l IH]; intros i j saved w1 w2 H; cbn [app Creator.save_each].
    - unfold bind. rewrite (save_one_skipped _ _ _ _ _ Hskip).
      apply save_each_same_disk. exact H.
    - unfold bind.
      destruct (save_one_same_disk d f i j saved w1 w2 H) as [Hr Hf].
      destruct (Creator.save_one d f i saved w1) as [r1 v1].
      destruct (Creator.save_one d f j saved w2) as [r2 v2].
      cbn in Hr, Hf. subst r2.
      destruct r1 as [saved' | e]; cbn; auto. }
  destruct (Hloop 0%nat 0%nat [] w w eq_refl) as [H1 H2].
  split; [exact H1 | split; [exact H2 | split]].
  - intros n. unfold skipped, Creator.pick. cbn.
    destruct (negb (String.eqb n "")); reflexivity.
  - intros e H1' H2'. unfold skipped, Creator.pick. rewrite H1', H2'. reflexivity.
Qed.

Lemma C3_witness :
  fst (Creator.save_each "./out"
         [entry "a.tsx" "x"; entry "b.tsx" ""; entry "c.tsx" "y"] 0 [] (world_of idle)) =
    fst (Creator.save_each "./out" [entry "a.tsx" "x"; entry "c.tsx" "y"] 0 []
           (world_of idle)) /\
  fs (snd (Creator.save_each "./out"
             [entry "a.tsx" "x"; entry "b.tsx" ""; entry "c.tsx" "y"] 0 [] (world_of idle))) =
    fs (snd (Creator.save_each "./out" [entry "a.tsx" "x"; entry "c.tsx" "y"] 0 []
               (world_of idle))).
Proof.
  destruct (C3_missing_name_or_content_is_skipped "./out" [entry "a.tsx" "x"]
              [entry "c.tsx" "y"] (entry "b.tsx" "") (world_of idle) eq_refl)
    as (H1 & H2 & _).
  split; assumption.
Defined.

Lemma mkdir_from_file_inv pre rest m m' q d :
  mkdir_from pre rest m = Some m' -> m' !! q = Some (File d) -> m !! q = Some (File d).
Proof.
  revert pre m. induction rest as [| s rest IH]; intros pre m Hm Hq; simpl in Hm.
  - congruence.
  - assert (Hgo : mkdir_from (pre ++ [s]) rest (<[(pre ++ [s])%list := Dir]> m) = Some m')
      by (destruct (m !! (pre ++ [s])%list) as [[d' |] |]; congruence).
    specialize (IH _ _ Hgo Hq).
    destruct (decide ((pre ++ [s])%list = q)) as [Heq | Hne].
    + subst q. rewrite lookup_insert_eq in IH. discriminate.
    + now rewrite lookup_insert_ne in IH.
Qed.

Lemma mkdirSync_ok p w w' :
  mkdirSync p w = (Ok tt, w') ->
  cwd (fs w') = cwd (fs w) /\ forall q, file_at (fs w') q = file_at (fs w) q.
Proof.
  unfold mkdirSync. destruct (mkdir_from _ _ _) as [m |] eqn:Hm; [| discriminate].
  intros H. injection H as <-. cbn. split; [reflexivity |].
  intros q. unfold file_at, node_at. destruct q as [| s q]; [reflexivity |]. cbn.
  destruct (m !! (s :: q)) as [[d |] |] eqn:E1.
  - now rewrite (mkdir_from_file_inv _ _ _ _ _ _ Hm E1).
  - destruct (nodes (fs w) !! (s :: q)) as [[d |] |] eqn:E2; try reflexivity.
    rewrite (mkdir_from_files _ _ _ _ _ _ Hm E2) in E1. discriminate.
  - destruct (nodes (fs w) !! (s :: q)) as [[d |] |] eqn:E2; try reflexivity.
    rewrite (mkdir_from_files _ _ _ _ _ _ Hm E2) in E1. discriminate.
Qed.

Lemma writeFileSync_ok p data w w' :
  writeFileSync p data w = (Ok tt, w') ->
  cwd (fs w') = cwd (fs w) /\
  file_at (fs w') (location w p) = Some data /\
  (forall q, q <> location w p -> file_at (fs w') q = file_at (fs w) q) /\
  ops (fs w') = (ops (fs w) ++ [OpWrite (location w p) data])%list.
Proof.
  unfold writeFileSync, location.
  set (q0 := Path.resolve (cwd (fs w)) p).
  destruct (node_at (fs w) q0) as [[d |] |] eqn:E0; try discriminate;
    destruct (node_at (fs w) (removelast q0)) as [[d' |] |] eqn:E1; try discriminate;
    intros H; injection H as <-; cbn;
    (assert (Hq0 : q0 <> []) by (intros Hq; rewrite Hq in E0; discriminate));
    (split; [reflexivity | split; [| split; [| reflexivity]]]).
  all: try (unfold file_at, node_at; cbn; destruct q0; [congruence |];
            now rewrite lookup_insert_eq).
  all: intros q Hne; unfold file_at, node_at; destruct q as [| s q]; [reflexivity |];
    cbn; now rewrite lookup_insert_ne.
Qed.






(** ** Strings *)

Lemma append_cons a p s : String a p ++ s = String a (p ++ s).
Proof. reflexivity. Qed.

Lemma append_empty_r s : s ++ "" = s.
Proof. induction s as [| a s IH]; [reflexivity |]. now rewrite append_cons, IH. Qed.

Lemma startsWith_empty s : Js.startsWith s "" = true.
Proof. now destruct s. Qed.

Lemma startsWith_app p s : Js.startsWith (p ++ s) p = true.
Proof.
  induction p as [| a p IH].
  - apply startsWith_empty.
  - rewrite append_cons. cbn [Js.startsWith]. now rewrite Ascii.eqb_refl.
Qed.

Lemma startsWith_app_l s t sub :
  Js.startsWith s sub = true -> Js.startsWith (s ++ t) sub = true.
Proof.
  revert s. induction sub as [| b sub IH]; intros s H; [apply startsWith_empty |].
  destruct s as [| a s]; [discriminate |].
  rewrite append_cons. cbn [Js.startsWith] in *.
  destruct (Ascii.eqb a b); [now apply IH | discriminate].
Qed.

Lemma includes_app_l s t sub :
  Js.includes s sub = true -> Js.includes (s ++ t) sub = true.
Proof.
  induction s as [| a s IH]; intros H.
  - cbn [Js.includes] in H. rewrite orb_false_r in H.
    destruct sub; [| discriminate]. destruct t; reflexivity.
  - rewrite append_cons. cbn [Js.includes] in *.
    apply orb_prop in H as [H | H].
    + rewrite <- append_cons, (startsWith_app_l _ t _ H). reflexivity.
    + rewrite (IH H). apply orb_true_r.
Qed.

Lemma includes_app_r s t sub :
  Js.includes t sub = true -> Js.includes (s ++ t) sub = true.
Proof.
  intros H. induction s as [| a s IH]; [exact H |].
  rewrite append_cons. cbn [Js.includes]. rewrite IH. apply orb_true_r.
Qed.

Lemma includes_self s : Js.includes s s = true.
Proof.
  destruct s as [| a s]; [reflexivity |].
  cbn [Js.includes].
  rewrite <- (append_empty_r (String a s)) at 1.
  rewrite startsWith_app. reflexivity.
Qed.

Lemma includes_join sep l x :
  In x l -> Js.includes (Js.join sep l) x = true.
Proof.
  unfold Js.join. induction l as [| y l IH]; intros Hin; [destruct Hin |].
  destruct Hin as [-> | Hin].
  - destruct l as [| z l]; cbn [String.concat].
    + apply includes_self.
    + apply includes_app_l. apply includes_self.
  - destruct l as [| z l]; [destruct Hin |].
    change (String.concat sep (y :: z :: l))
      with (y ++ sep ++ String.concat sep (z :: l)).
    apply includes_app_r. apply includes_app_r. now apply IH.
Qed.

Lemma new_ops_one w w' op :
  ops (fs w') = (ops (fs w) ++ [op])%list -> new_ops w w' = [op].
Proof.
  intros H. unfold new_ops. rewrite H.
  rewrite skipn_app, skipn_all, Nat.sub_diag. reflexivity.
Qed.

(** C7, as amended. The files re-exported are those whose written path ends
    in [.jsx] or [.tsx], or ends in [.js] and nowhere contains [index]. If
    there is one, exactly one write is attempted, of the index file at the
    destination root, which names each of them by its base name; and whether
    that write succeeds or fails, [createIndexFile] returns normally. *)
Theorem C7_index_file_best_effort :
  forall (outputDir : string) (savedFiles : list string) (w : World),
    let components := List.filter Creator.is_component savedFiles in
    let run := Creator.createIndexFile outputDir savedFiles w in
    fst run = Ok tt /\
    (components = [] -> snd run = w) /\
    (components <> [] ->
       (forall w1,
          writeFileSync (manifest_path outputDir) (manifest_text savedFiles) w = (Ok tt, w1) ->
          new_ops w (snd run) =
            [OpWrite (location w (manifest_path outputDir)) (manifest_text savedFiles)] /\
          file_at (fs (snd run)) (location w (manifest_path outputDir)) =
            Some (manifest_text savedFiles)) /\
       (forall e w1,
          writeFileSync (manifest_path outputDir) (manifest_text savedFiles) w = (Throw e, w1) ->
          fs (snd run) = fs w)) /\
    (forall p, In p components ->
               Js.includes (manifest_text savedFiles) (Creator.export_line p) = true).
Proof.
  intros d saved w. cbv zeta.
  assert (Htext : forall p, In p (List.filter Creator.is_component saved) ->
            Js.includes (manifest_text saved) (Creator.export_line p) = true).
  { intros p Hp. unfold manifest_text. apply includes_app_l. apply includes_join.
    apply in_map. exact Hp. }
  unfold Creator.createIndexFile, try_catch.
  change (Js.join Creator.newline
            (List.map Creator.export_line (List.filter Creator.is_component saved))
          ++ Creator.newline) with (manifest_text saved).
  fold (manifest_path d).
  destruct (List.filter Creator.is_component saved) as [| c cs] eqn:Ec.
  - cbn. repeat split; auto; congruence.
  - unfold bind.
    destruct (writeFileSync (manifest_path d) (manifest_text saved) w)
      as [[[] | e] w1] eqn:Ew.
    + cbn. split; [reflexivity | split; [congruence | split; [| exact Htext]]].
      intros _. split.
      * intros w1' H. injection H as <-.
        destruct (writeFileSync_ok _ _ _ _ Ew) as (_ & Hfile & _ & Hops).
        split; [now apply new_ops_one | exact Hfile].
      * intros e w1' H. discriminate.
    + assert (Hsame : fs w1 = fs w).
      { revert Ew. unfold writeFileSync.
        repeat (break_match; try discriminate); intros H; injection H as <- <-; reflexivity. }
      cbn. split; [reflexivity | split; [congruence | split; [| exact Htext]]].
      intros _. split.
      * intros w1' H. discriminate.
      * intros e' w1' _. exact Hsame.
Qed.

(** A file [reindex.js] has a component extension and is not named
    [index], yet no index file is generated for it. *)
Lemma C7_reindex_gets_no_manifest :
  ~ manifest_for_every_component "./out" ["out/reindex.js"] (world_of idle).
Proof.
  intros H. destruct (H eq_refl) as (text & Hfile & _).
  vm_compute in Hfile. discriminate.
Qed.

Lemma C7_witness :
  new_ops (world_of idle)
          (snd (Creator.createIndexFile "./out" ["out/Button.tsx"] (world_of idle))) =
    [OpWrite ["work"; "out"; "index.js"] (manifest_text ["out/Button.tsx"])] /\
  file_at (fs (snd (Creator.createIndexFile "./out" ["out/Button.tsx"] (world_of idle))))
          ["work"; "out"; "index.js"] =
    Some ("export { default as Button } from './Button';" ++ Creator.newline).
Proof.
  destruct (C7_index_file_best_effort "./out" ["out/Button.tsx"] (world_of idle))
    as (_ & _ & H & _).
  destruct H as [Hok _]; [discriminate |].
  apply (Hok (snd (writeFileSync (manifest_path "./out")
                     (manifest_text ["out/Button.tsx"]) (world_of idle)))).
  vm_compute. reflexivity.
Defined.

(** The index file cannot be written when [index.js] is a directory; the
    download still returns the saved file. *)
Example download_survives_index_failure :
  let w := world_of (steady (chat_with "completed" [entry "index.js/Button.tsx" "x"])) in
  fst (Sdk.downloadGeneratedCode "abc123" "./out" w) = Ok ["out/index.js/Button.tsx"] /\
  In (Console (LogIndexFailed
                 "EISDIR: illegal operation on a directory, open 'out/index.js'"))
     (trace (snd (Sdk.downloadGeneratedCode "abc123" "./out" w))).
Proof. vm_compute. split; [reflexivity | tauto]. Qed.

(** ** The import post-processor (C9) *)

Lemma apply_fixes_clean fixes content modified :
  existsb (fun fix_ => Js.includes content (fst fix_)) fixes = false ->
  Backend.apply_fixes fixes content modified = (content, modified).
Proof.
  revert content modified. induction fixes as [| [wrong right] fixes IH];
    intros content modified H; cbn in *; [reflexivity |].
  apply orb_false_elim in H as [H1 H2]. rewrite H1. now apply IH.
Qed.

Lemma readFileSync_ok p w c w' :
  readFileSync p w = (Ok c, w') -> w' = w /\ file_at (fs w) (location w p) = Some c.
Proof.
  unfold readFileSync, location, file_at.
  destruct (node_at (fs w) _) as [[d |] |]; try discriminate.
  intros H. injection H as <- <-. auto.
Qed.

Lemma readFileSync_same p w : snd (readFileSync p w) = w.
Proof. unfold readFileSync. now repeat break_match. Qed.

Lemma writeFileSync_failed p data w e w' :
  writeFileSync p data w = (Throw e, w') -> w' = w.
Proof.
  unfold writeFileSync.
  repeat (break_match; try discriminate); intros H; now injection H as <- <-.
Qed.

(** One file of the loop: the working directory stays, and a location [q]
    keeps its bytes and sees no write unless [file] is a TypeScript file
    living at [q] whose content holds a mapped import. *)
Lemma fix_one_effect file w :
  cwd (fs (snd (Backend.fix_one file w))) = cwd (fs w) /\
  exists ext,
    ops (fs (snd (Backend.fix_one file w))) = (ops (fs w) ++ ext)%list /\
    forall q,
      (location w file <> q \/ Backend.is_ts file = false \/
       (forall c, file_at (fs w) q = Some c -> needs_fix c = false)) ->
      file_at (fs (snd (Backend.fix_one file w))) q = file_at (fs w) q /\
      existsb (writes_to q) ext = false.
Proof.
  unfold Backend.fix_one.
  destruct (Backend.is_ts file) eqn:Ets.
  2:{ cbn -[needs_fix location]. split; [reflexivity |]. exists []. rewrite app_nil_r. auto. }
  unfold bind.
  destruct (readFileSync file w) as [[c | e] w0] eqn:Er.
  2:{ pose proof (readFileSync_same file w) as Hs. rewrite Er in Hs. cbn in Hs. subst w0.
      cbn -[needs_fix location]. split; [reflexivity |]. exists []. rewrite app_nil_r. auto. }
  destruct (readFileSync_ok _ _ _ _ Er) as [-> Hc].
  destruct (Backend.apply_fixes Backend.importFixes c false) as [c' modified] eqn:Ea.
  destruct modified.
  2:{ cbn -[needs_fix location]. split; [reflexivity |]. exists []. rewrite app_nil_r. auto. }
  destruct (writeFileSync file c' w) as [[[] | e] w1] eqn:Ew.
  - destruct (writeFileSync_ok _ _ _ _ Ew) as (Hcwd & _ & Hothers & Hops).
    cbn -[needs_fix location]. split; [exact Hcwd |].
    exists [OpWrite (location w file) c']. split; [exact Hops |].
    intros q [Hq | [Hq | Hq]].
    + split; [apply Hothers; congruence |].
      cbn -[needs_fix location]. rewrite bool_decide_eq_false_2; auto.
    + discriminate.
    + destruct (decide (location w file = q)) as [<- | Hne].
      * rewrite (apply_fixes_clean _ _ _ (Hq _ Hc)) in Ea. discriminate.
      * split; [apply Hothers; congruence |].
        cbn -[needs_fix location]. rewrite bool_decide_eq_false_2; auto.
  - rewrite (writeFileSync_failed _ _ _ _ _ Ew).
    cbn -[needs_fix location]. split; [reflexivity |]. exists []. rewrite app_nil_r. auto.
Qed.

Lemma fixImportPaths_effect files d :
  forall w,
    cwd (fs (snd (Backend.fixImportPaths files d w))) = cwd (fs w) /\
    exists ext,
      ops (fs (snd (Backend.fixImportPaths files d w))) = (ops (fs w) ++ ext)%list /\
      forall q,
        ((forall f, In f files -> location w f = q -> Backend.is_ts f = false) \/
         (forall c, file_at (fs w) q = Some c -> needs_fix c = false)) ->
        file_at (fs (snd (Backend.fixImportPaths files d w))) q = file_at (fs w) q /\
        existsb (writes_to q) ext = false.
Proof.
  unfold Backend.fixImportPaths.
  induction files as [| f files IH]; intros w; cbn [for_of].
  - cbn. split; [reflexivity |]. exists []. rewrite app_nil_r. auto.
  - unfold bind.
    destruct (fix_one_effect f w) as (Hcwd1 & ext1 & Hops1 & Hq1).
    destruct (Backend.fix_one f w) as [[[] | e] w1]; cbn [snd] in *.
    + destruct (IH w1) as (Hcwd2 & ext2 & Hops2 & Hq2).
      split; [congruence |].
      exists (ext1 ++ ext2)%list. split; [rewrite Hops2, Hops1; now rewrite app_assoc |].
      intros q Hq.
      assert (H1 : file_at (fs w1) q = file_at (fs w) q /\ existsb (writes_to q) ext1 = false).
      { apply Hq1. destruct Hq as [Hq | Hq]; [| auto].
        destruct (decide (location w f = q)) as [Heq | Hne]; [| auto].
        right; left. apply Hq; [now left | exact Heq]. }
      destruct H1 as [Hfile1 Hw1].
      assert (H2 : file_at (fs (snd (for_of Backend.fix_one files w1))) q = file_at (fs w1) q /\
                   existsb (writes_to q) ext2 = false).
      { apply Hq2. destruct Hq as [Hq | Hq].
        - left. intros f' Hin Hloc. apply Hq; [now right |].
          unfold location in *. now rewrite <- Hcwd1.
        - right. intros c Hc. apply Hq. now rewrite <- Hfile1. }
      destruct H2 as [Hfile2 Hw2].
      split; [congruence |]. rewrite existsb_app, Hw1, Hw2. reflexivity.
    + split; [exact Hcwd1 |]. exists ext1. split; [exact Hops1 |].
      intros q Hq. apply Hq1. destruct Hq as [Hq | Hq]; [| auto].
      destruct (decide (location w f = q)) as [Heq | Hne]; [| auto].
      right; left. apply Hq; [now left | exact Heq].
Qed.

Lemma new_ops_ext w w' ext :
  ops (fs w') = (ops (fs w) ++ ext)%list -> new_ops w w' = ext.
Proof.
  intros H. unfold new_ops. rewrite H.
  rewrite skipn_app, skipn_all, Nat.sub_diag. reflexivity.
Qed.

Lemma for_of_app {St A} (body : A -> ST St unit) l1 l2 s :
  for_of body (l1 ++ l2) s =
    match for_of body l1 s with
    | (Ok _, s1) => for_of body l2 s1
    | (Throw e, s1) => (Throw e, s1)
    end.
Proof.
  revert s. induction l1 as [| x l1 IH]; intros s; cbn [app for_of].
  - reflexivity.
  - unfold bind. destruct (body x s) as [[[] | e] s1]; [apply IH | reflexivity].
Qed.

Lemma ensureBackendIntegration_returns l d w :
  fst (Backend.ensureBackendIntegration l d w) = Ok tt.
Proof.
  unfold Backend.ensureBackendIntegration, try_catch.
  match goal with |- context [bind ?m ?k w] => destruct (bind m k w) as [[[] | e] w1] end;
    reflexivity.
Qed.

(** C9, as amended. [fixImportPaths] writes only TypeScript files of its
    list whose content holds a mapped import: every other location keeps its
    bytes and sees no write at all. A file that cannot be read or written
    ends the loop there, so the files after it are not processed; but
    [ensureBackendIntegration] catches the error and always returns
    normally. *)
Theorem C9_only_matching_files_rewritten :
  forall (downloadedFiles : list string) (outputDir : string) (w : World),
    let run := Backend.fixImportPaths downloadedFiles outputDir w in
    (forall q,
       ((forall f, In f downloadedFiles -> location w f = q -> Backend.is_ts f = false) \/
        (forall c, file_at (fs w) q = Some c -> needs_fix c = false)) ->
       file_at (fs (snd run)) q = file_at (fs w) q /\
       existsb (writes_to q) (new_ops w (snd run)) = false) /\
    (forall before bad after e,
       downloadedFiles = (before ++ bad :: after)%list ->
       fst (Backend.fixImportPaths before outputDir w) = Ok tt ->
       fst (Backend.fix_one bad (snd (Backend.fixImportPaths before outputDir w))) = Throw e ->
       run = (Throw e,
              snd (Backend.fix_one bad (snd (Backend.fixImportPaths before outputDir w))))) /\
    fst (Backend.ensureBackendIntegration downloadedFiles outputDir w) = Ok tt.
Proof.
  intros files d w. cbv zeta. split; [| split].
  - intros q Hq.
    destruct (fixImportPaths_effect files d w) as (_ & ext & Hops & Hall).
    rewrite (new_ops_ext _ _ _ Hops). now apply Hall.
  - intros before bad after e -> Hbefore Hbad.
    unfold Backend.fixImportPaths in *. rewrite for_of_app.
    destruct (for_of Backend.fix_one before w) as [[[] | e0] w1]; [| discriminate].
    cbn [for_of snd] in *. unfold bind.
    destruct (Backend.fix_one bad w1) as [[[] | e1] w2]; [discriminate |].
    cbn in Hbad. now injection Hbad as ->.
  - apply ensureBackendIntegration_returns.
Qed.

(** [missing.ts] cannot be read, and [b.ts], listed after it, keeps its
    stale import, which processing [b.ts] alone would have rewritten. *)
Lemma C9_failure_stops_the_loop :
  ~ failures_are_isolated "out/missing.ts" ["out/b.ts"] "./out"
      (mkWorld idle disk_with_import 0 0 []).
Proof.
  intros H.
  assert (Hthrows : exists e,
            fst (Backend.fix_one "out/missing.ts" (mkWorld idle disk_with_import 0 0 []))
            = Throw e) by (eexists; vm_compute; reflexivity).
  specialize (H Hthrows).
  apply (f_equal (fun f => file_at f ["work"; "out"; "b.ts"])) in H.
  vm_compute in H. discriminate.
Qed.

Lemma C9_witness :
  file_at (fs (snd (Backend.fixImportPaths ["out/b.ts"; "out/c.ts"] "./out"
                      (mkWorld idle disk_with_import 0 0 []))))
          ["work"; "out"; "c.ts"] = Some "export const one = 1;" /\
  existsb (writes_to ["work"; "out"; "c.ts"])
          (new_ops (mkWorld idle disk_with_import 0 0 [])
                   (snd (Backend.fixImportPaths ["out/b.ts"; "out/c.ts"] "./out"
                           (mkWorld idle disk_with_import 0 0 [])))) = false.
Proof.
  destruct (C9_only_matching_files_rewritten ["out/b.ts"; "out/c.ts"] "./out"
              (mkWorld idle disk_with_import 0 0 [])) as (H & _).
  apply (H ["work"; "out"; "c.ts"]).
  right. intros c Hc. vm_compute in Hc. injection Hc as <-. vm_compute. reflexivity.
Defined.

(** The stale import of [b.ts] is rewritten to the canonical one. *)
Example stale_import_fixed :
  file_at (fs (snd (Backend.fixImportPaths ["out/b.ts"; "out/c.ts"] "./out"
                      (mkWorld idle disk_with_import 0 0 []))))
          ["work"; "out"; "b.ts"] =
    Some ("import { cn } from " ++ Backend.dq ++ "@/lib/utils" ++ Backend.dq ++ ";").
Proof. vm_compute. reflexivity. Qed.

(** ** Staged retries (C6) *)

Lemma final_attempts_returns i n todo :
  forall w, exists r w', Enforced.final_attempts i n todo w = (Ok r, w').
Proof.
  revert i. induction todo as [| s todo IH]; intros i w; cbn [Enforced.final_attempts].
  - eexists _, _. reflexivity.
  - unfold bind, try_catch, log, emit, ret.
    destruct (s _) as [[files | e] w1].
    + destruct (0 <? length files)%nat; [eexists _, _; reflexivity | apply IH].
    + apply IH.
Qed.

Lemma aggressive_retries_returns chatId dir retries :
  forall w, exists r w', Enforced.aggressive_retries chatId dir retries w = (Ok r, w').
Proof.
  induction retries as [| k retries IH]; intros w; cbn [Enforced.aggressive_retries].
  - eexists _, _. reflexivity.
  - unfold bind, try_catch, log, emit, ret, sleep.
    destruct (Enforced.downloadGeneratedCode chatId dir _) as [[files | e] w1].
    + destruct (0 <? length files)%nat; [eexists _, _; reflexivity | apply IH].
    + apply IH.
Qed.

Lemma after_deadline_returns chatId dir w :
  exists files w', Enforced.after_deadline chatId dir w = (Ok files, w').
Proof.
  unfold Enforced.after_deadline, bind.
  destruct (final_attempts_returns 0 (length (Enforced.strategies chatId dir))
              (Enforced.strategies chatId dir) (snd (log LogDeadline w))) as (r & w1 & Hr).
  cbn [log emit fst snd] in *. rewrite Hr.
  destruct r; eexists _, _; reflexivity.
Qed.


(** A job that never produces a file: the three stages run, with their
    pauses of 5 s and 15 s, and the result is the empty list. *)
Example all_stages_empty :
  let run := Enforced.after_deadline "abc123" "./out" (world_of idle) in
  fst run = Ok [] /\ sleeps (trace (snd run)) = [5000%Z; 15000%Z] /\ gets (snd run) = 3%nat.
Proof. vm_compute. auto. Qed.

(** ** The polling loop (C8, C5, C2) *)

(** One iteration, case by case. *)
Lemma poll_once_unfold chatId dir startTime ps w :
  Enforced.poll_once chatId dir startTime (ps, w) =
    let ps1 := Enforced.mkPollState (S (Enforced.attempts ps)) (Enforced.lastStatus ps) in
    match Creator.getChat chatId w with
    | (Throw e, w1) => Enforced.poll_catch e (ps1, w1)
    | (Ok chat, w1) =>
        let cur := Enforced.status_of chat in
        let changed := negb (String.eqb cur (Enforced.lastStatus ps)) in
        let ps2 := if changed then Enforced.mkPollState (S (Enforced.attempts ps)) cur
                   else ps1 in
        let w2 := if changed
                  then snd (log (LogStatusUpdate (Enforced.lastStatus ps) cur) w1)
                  else w1 in
        if String.eqb cur "completed" then
          match Enforced.downloadGeneratedCode chatId dir (snd (log LogCompleted w2)) with
          | (Ok files, w3) =>
              if (0 <? length files)%nat then (Ok (Return files), (ps2, w3))
              else carry_on startTime cur (ps2, snd (log LogCompletedEmpty w3))
          | (Throw e, w3) => Enforced.poll_catch e (ps2, w3)
          end
        else if String.eqb cur "failed" then
          match Enforced.downloadGeneratedCode chatId dir (snd (log LogFailedTrying w2)) with
          | (Ok files, w3) => (Ok (Return files), (ps2, w3))
          | (Throw _, w3) =>
              Enforced.poll_catch "Generation failed and no files available" (ps2, w3)
          end
        else carry_on startTime cur (ps2, w2)
    end.
Proof.
  unfold carry_on, Enforced.poll_once, Enforced.poll_try, try_catch, bind, lift,
    get_local, set_local.
  cbn [fst snd].
  destruct (Creator.getChat chatId w) as [[chat | e] w1]; [| reflexivity].
  cbn [fst snd Enforced.attempts Enforced.lastStatus]. cbv zeta.
  assert (Hcarry : forall st s,
            match (Enforced.progress startTime st ;;; lift (sleep 2000) ;;; ret Next) s with
            | (Ok a, s') => (Ok a, s')
            | (Throw e, s') => Enforced.poll_catch e s'
            end = (Enforced.progress startTime st ;;; lift (sleep 2000) ;;; ret Next) s).
  { intros st [l v]. unfold Enforced.progress, bind, lift, get_local, now, sleep, ret, log, emit.
    cbn [fst snd].
    repeat match goal with |- context [if ?b then _ else _] => destruct b end; reflexivity. }
  unfold bind, lift in Hcarry.
  destruct (negb (String.eqb (Enforced.status_of chat) (Enforced.lastStatus ps)));
    destruct (String.eqb (Enforced.status_of chat) "completed");
    try destruct (String.eqb (Enforced.status_of chat) "failed");
    cbn [fst snd log emit ret service fs clock gets trace
         Enforced.attempts Enforced.lastStatus];
    try apply Hcarry;
    match goal with
    | |- context [Enforced.downloadGeneratedCode chatId dir ?x] =>
        destruct (Enforced.downloadGeneratedCode chatId dir x) as [[files | e] w3];
        cbn [fst snd]; [try destruct (0 <? length files)%nat |];
        first [reflexivity | apply Hcarry]
    end.
Qed.

Lemma poll_catch_run e ps w :
  Enforced.poll_catch e (ps, w) =
    (Ok Next, (ps, later (backoff_ms (Enforced.attempts ps))
                         (backoff_events (Enforced.attempts ps) e) w)).
Proof.
  unfold Enforced.poll_catch, bind, lift, get_local, log, emit, sleep, ret, later,
    backoff_events, backoff_ms.
  cbn [fst snd].
  destruct (Enforced.attempts ps mod 5 =? 0)%nat;
    cbn [fst snd service fs clock gets trace app]; rewrite <- ?app_assoc; reflexivity.
Qed.

Lemma carry_on_run startTime st ps w :
  carry_on startTime st (ps, w) =
    (Ok Next, (ps, later 2000
                     [Console (progress_line startTime st (Enforced.attempts ps) (clock w));
                      Slept 2000] w)).
Proof.
  unfold carry_on, Enforced.progress, bind, lift, get_local, now, log, emit, sleep, ret,
    later, progress_line.
  cbn [fst snd].
  destruct (Enforced.attempts ps mod 10 =? 0)%nat;
    [| destruct (Enforced.attempts ps mod 5 =? 0)%nat];
    cbn [fst snd service fs clock gets trace app]; rewrite <- ?app_assoc; reflexivity.
Qed.

Lemma status_updates_app a b :
  status_updates (a ++ b) = (status_updates a ++ status_updates b)%list.
Proof.
  induction a as [| e a IH]; [reflexivity |].
  destruct e as [[] | | | |]; cbn; try exact IH. now rewrite IH.
Qed.

Lemma sleeps_app a b : sleeps (a ++ b) = (sleeps a ++ sleeps b)%list.
Proof.
  induction a as [| e a IH]; [reflexivity |].
  destruct e as [| | | |]; cbn; try exact IH. now rewrite IH.
Qed.

Lemma quiet_silent ext :
  forallb quiet ext = true -> status_updates ext = [] /\ sleeps ext = [].
Proof.
  induction ext as [| e ext IH]; cbn; [auto |].
  intros H. apply andb_prop in H as [He Hext]. destruct (IH Hext) as [H1 H2].
  destruct e as [[] | | | |]; cbn in *; try discriminate; auto.
Qed.

Lemma extends_later P ms ext w :
  (0 <= ms)%Z -> forallb P ext = true -> extends P w (later ms ext w).
Proof.
  intros Hms Hext. unfold extends, later; cbn. repeat split; try lia.
  exists ext. auto.
Qed.

Lemma backoff_ms_bounds n : (3000 <= backoff_ms n <= 5000)%Z.
Proof. unfold backoff_ms. destruct (n mod 5 =? 0)%nat; lia. Qed.

Lemma backoff_events_facts n e :
  status_updates (backoff_events n e) = [] /\ sleeps (backoff_events n e) = [backoff_ms n].
Proof. unfold backoff_events. destruct (n mod 5 =? 0)%nat; cbn; auto. Qed.

Lemma progress_events_facts startTime st n t :
  status_updates [Console (progress_line startTime st n t); Slept 2000] = [] /\
  sleeps [Console (progress_line startTime st n t); Slept 2000] = [2000%Z].
Proof.
  unfold progress_line.
  destruct (n mod 10 =? 0)%nat; [| destruct (n mod 5 =? 0)%nat]; cbn; auto.
Qed.

Lemma observed_getChat chatId w :
  observed chatId w =
    match fst (Creator.getChat chatId w) with
    | Ok chat => Some (Enforced.status_of chat)
    | Throw _ => None
    end.
Proof. unfold observed. now rewrite (proj1 (getChat_run chatId w)). Qed.

Lemma grows_refl w : grows w w [].
Proof. unfold grows. rewrite app_nil_r. repeat split; lia. Qed.

Lemma grows_trans w1 w2 w3 e1 e2 :
  grows w1 w2 e1 -> grows w2 w3 e2 -> grows w1 w3 (e1 ++ e2).
Proof.
  intros (Hs1 & Hc1 & Ht1 & Hg1 & He1) (Hs2 & Hc2 & Ht2 & Hg2 & He2).
  unfold grows. repeat split; try congruence; try lia.
  rewrite He2, He1. now rewrite app_assoc.
Qed.

Lemma grows_log l w : grows w (snd (log l w)) [Console l].
Proof. unfold grows; cbn. repeat split; lia. Qed.

Lemma grows_later ms ext w : (0 <= ms)%Z -> grows w (later ms ext w) ext.
Proof. intros H. unfold grows, later; cbn. repeat split; lia. Qed.

Lemma grows_of_extends P w w' :
  extends P w w' -> exists ext, grows w w' ext /\ forallb P ext = true.
Proof.
  intros (Hs & Hc & Ht & Hg & ext & He & Hp). exists ext. unfold grows. auto 10.
Qed.


(** Everything one iteration of the loop does, as seen from outside. *)
Lemma poll_once_step chatId dir startTime ps w :
  exists flow ps' w' ext,
    Enforced.poll_once chatId dir startTime (ps, w) = (Ok flow, (ps', w')) /\
    Enforced.attempts ps' = S (Enforced.attempts ps) /\
    Enforced.lastStatus ps' = last_seen (Enforced.lastStatus ps) [observed chatId w] /\
    grows w w' ext /\
    status_updates ext = transitions (Enforced.lastStatus ps) [observed chatId w] /\
    match flow with
    | Next =>
        (clock w + 2000 <= clock w')%Z /\
        (sleeps ext = [2000%Z] \/ sleeps ext = [backoff_ms (S (Enforced.attempts ps))]) /\
        (observed chatId w = None -> sleeps ext = [backoff_ms (S (Enforced.attempts ps))])
    | Return _ =>
        sleeps ext = [] /\
        (observed chatId w = Some "completed" \/ observed chatId w = Some "failed")
    end.
Proof.
  rewrite poll_once_unfold, observed_getChat. cbv zeta.
  destruct (grows_of_extends _ _ _ (frames_getChat chatId w)) as (e1 & Hg1 & Hq1).
  destruct (quiet_silent _ Hq1) as [Hu1 Hs1].
  destruct (Creator.getChat chatId w) as [[chat | e] w1]; cbn [fst snd] in *.
  2:{ rewrite poll_catch_run. cbn [Enforced.attempts Enforced.lastStatus].
      pose proof (backoff_ms_bounds (S (Enforced.attempts ps))) as Hb.
      destruct (backoff_events_facts (S (Enforced.attempts ps)) e) as [Hbu Hbs].
      eexists _, _, _, _. split; [reflexivity |].
      split; [reflexivity |]. split; [reflexivity |].
      split; [eapply grows_trans; [exact Hg1 | apply grows_later; lia] |].
      rewrite status_updates_app, sleeps_app, Hu1, Hs1, Hbu, Hbs.
      split; [reflexivity |].
      destruct Hg1 as (_ & _ & Hc & _). cbn. repeat split; auto; lia. }
  set (cur := Enforced.status_of chat).
  set (changed := negb (String.eqb cur (Enforced.lastStatus ps))).
  set (ps2 := if changed then Enforced.mkPollState _ _ else _).
  set (w2 := if changed then snd _ else _).
  assert (Hps2 : Enforced.attempts ps2 = S (Enforced.attempts ps) /\
                 Enforced.lastStatus ps2 = cur).
  { subst ps2 changed. destruct (String.eqb_spec cur (Enforced.lastStatus ps)); cbn; auto. }
  assert (Hw2 : exists u, grows w1 w2 u /\ sleeps u = [] /\
                  status_updates u = transitions (Enforced.lastStatus ps) [Some cur]).
  { subst w2 changed. cbn [transitions].
    destruct (String.eqb cur (Enforced.lastStatus ps)); cbn [negb].
    - exists []. split; [apply grows_refl | auto].
    - eexists. split; [apply grows_log | auto]. }
  destruct Hps2 as [Hatt Hlast]. destruct Hw2 as (u & Hg2 & Hsu & Huu).
  cbn [last_seen].
  clearbody ps2 w2. clear changed.
  pose proof (grows_trans _ _ _ _ _ Hg1 Hg2) as Hg12.
  assert (H12 : status_updates (e1 ++ u) = transitions (Enforced.lastStatus ps) [Some cur] /\
                sleeps (e1 ++ u) = []).
  { rewrite status_updates_app, sleeps_app, Hu1, Hs1, Huu, Hsu. auto. }
  destruct H12 as [Hu12 Hs12].
  assert (Hclock : forall w', (clock w2 <= clock w')%Z -> (clock w <= clock w')%Z)
    by (destruct Hg12 as (_ & _ & Hc & _); intros; lia).
  destruct (String.eqb_spec cur "completed") as [Hcompleted | _];
    [| destruct (String.eqb_spec cur "failed") as [Hfailed | _]].
  - (* completed *)
    pose proof (grows_trans _ _ _ _ _ Hg12 (grows_log LogCompleted w2)) as Hgl.
    destruct (grows_of_extends _ _ _
                (frames_enforced_download chatId dir (snd (log LogCompleted w2))))
      as (e3 & Hg3 & Hq3).
    destruct (quiet_silent _ Hq3) as [Hu3 Hs3].
    destruct (Enforced.downloadGeneratedCode chatId dir (snd (log LogCompleted w2)))
      as [[files | e] w3]; cbn [fst snd] in Hg3.
    + pose proof (grows_trans _ _ _ _ _ Hgl Hg3) as Hg.
      destruct (0 <? length files)%nat.
      * eexists _, _, _, _. split; [reflexivity |].
        split; [exact Hatt |]. split; [exact Hlast |]. split; [exact Hg |].
        rewrite !status_updates_app, !sleeps_app, Hu1, Huu, Hs1, Hsu, Hu3, Hs3.
        cbn. rewrite ?app_nil_r. rewrite Hcompleted. auto.
      * rewrite carry_on_run.
        pose proof (grows_trans _ _ _ _ _ Hg (grows_log LogCompletedEmpty w3)) as Hg'.
        eexists _, _, _, _. split; [reflexivity |].
        split; [exact Hatt |]. split; [exact Hlast |].
        split; [eapply grows_trans; [exact Hg' | apply grows_later; lia] |].
        destruct (progress_events_facts startTime cur (Enforced.attempts ps2)
                    (clock (snd (log LogCompletedEmpty w3)))) as [Hpu Hps].
        rewrite !status_updates_app, !sleeps_app, Hu1, Huu, Hs1, Hsu, Hu3, Hs3, Hpu, Hps.
        cbn. rewrite ?app_nil_r. split; [reflexivity |].
        split; [| split; [auto | discriminate]].
        destruct Hg as (_ & _ & Hc & _). lia.
    + rewrite poll_catch_run.
      pose proof (grows_trans _ _ _ _ _ Hgl Hg3) as Hg.
      pose proof (backoff_ms_bounds (S (Enforced.attempts ps))) as Hb.
      pose proof (backoff_ms_bounds (Enforced.attempts ps2)) as Hb2.
      destruct (backoff_events_facts (Enforced.attempts ps2) e) as [Hbu Hbs].
      eexists _, _, _, _. split; [reflexivity |].
      split; [exact Hatt |]. split; [exact Hlast |].
      split; [eapply grows_trans; [exact Hg | apply grows_later; lia] |].
      rewrite !status_updates_app, !sleeps_app, Hu1, Huu, Hs1, Hsu, Hu3, Hs3, Hbu, Hbs.
      cbn. rewrite ?app_nil_r, Hatt. split; [reflexivity |].
      split; [| split; [auto | discriminate]].
      destruct Hg as (_ & _ & Hc & _). lia.
  - (* failed *)
    pose proof (grows_trans _ _ _ _ _ Hg12 (grows_log LogFailedTrying w2)) as Hgl.
    destruct (grows_of_extends _ _ _
                (frames_enforced_download chatId dir (snd (log LogFailedTrying w2))))
      as (e3 & Hg3 & Hq3).
    destruct (quiet_silent _ Hq3) as [Hu3 Hs3].
    destruct (Enforced.downloadGeneratedCode chatId dir (snd (log LogFailedTrying w2)))
      as [[files | e] w3]; cbn [fst snd] in Hg3.
    + pose proof (grows_trans _ _ _ _ _ Hgl Hg3) as Hg.
      eexists _, _, _, _. split; [reflexivity |].
      split; [exact Hatt |]. split; [exact Hlast |]. split; [exact Hg |].
      rewrite !status_updates_app, !sleeps_app, Hu1, Huu, Hs1, Hsu, Hu3, Hs3.
      cbn. rewrite ?app_nil_r. rewrite Hfailed. auto.
    + rewrite poll_catch_run.
      pose proof (grows_trans _ _ _ _ _ Hgl Hg3) as Hg.
      pose proof (backoff_ms_bounds (S (Enforced.attempts ps))) as Hb.
      pose proof (backoff_ms_bounds (Enforced.attempts ps2)) as Hb2.
      destruct (backoff_events_facts (Enforced.attempts ps2)
                  "Generation failed and no files available") as [Hbu Hbs].
      eexists _, _, _, _. split; [reflexivity |].
      split; [exact Hatt |]. split; [exact Hlast |].
      split; [eapply grows_trans; [exact Hg | apply grows_later; lia] |].
      rewrite !status_updates_app, !sleeps_app, Hu1, Huu, Hs1, Hsu, Hu3, Hs3, Hbu, Hbs.
      cbn. rewrite ?app_nil_r, Hatt. split; [reflexivity |].
      split; [| split; [auto | discriminate]].
      destruct Hg as (_ & _ & Hc & _). lia.
  - (* any other status *)
    rewrite carry_on_run.
    eexists _, _, _, _. split; [reflexivity |].
    split; [exact Hatt |]. split; [exact Hlast |].
    split; [eapply grows_trans; [exact Hg12 | apply grows_later; lia] |].
    destruct (progress_events_facts startTime cur (Enforced.attempts ps2) (clock w2))
      as [Hpu Hps].
    rewrite !status_updates_app, !sleeps_app, Hu1, Huu, Hs1, Hsu, Hpu, Hps.
    cbn. rewrite ?app_nil_r. split; [reflexivity |].
    split; [| split; [auto | discriminate]].
    destruct Hg12 as (_ & _ & Hc & _). lia.
Qed.

Lemma transitions_cons last o obs :
  transitions last (o :: obs) =
    (transitions last [o] ++ transitions (last_seen last [o]) obs)%list.
Proof.
  destruct o as [st |]; cbn; [| reflexivity].
  destruct (String.eqb st last) eqn:E; [| reflexivity].
  apply String.eqb_eq in E. now subst.
Qed.

Lemma last_seen_cons last o obs :
  last_seen last (o :: obs) = last_seen (last_seen last [o]) obs.
Proof. destruct o; reflexivity. Qed.

(** Everything the polling loop does, as seen from outside. *)
Lemma poll_loop_run chatId dir startTime maxWaitMs fuel :
  forall ps w,
  exists r ps' w' ext,
    Enforced.poll_loop fuel chatId dir startTime maxWaitMs (ps, w) = (Ok r, (ps', w')) /\
    Enforced.attempts ps' =
      Enforced.attempts ps + length (observations fuel chatId dir startTime maxWaitMs (ps, w)) /\
    Enforced.lastStatus ps' =
      last_seen (Enforced.lastStatus ps)
                (observations fuel chatId dir startTime maxWaitMs (ps, w)) /\
    grows w w' ext /\
    status_updates ext =
      transitions (Enforced.lastStatus ps)
                  (observations fuel chatId dir startTime maxWaitMs (ps, w)) /\
    match r with
    | Some Next => (maxWaitMs <= clock w' - startTime)%Z
    | Some (Return _) =>
        last (observations fuel chatId dir startTime maxWaitMs (ps, w)) = Some (Some "completed") \/
        last (observations fuel chatId dir startTime maxWaitMs (ps, w)) = Some (Some "failed")
    | None => (2000 * Z.of_nat fuel < maxWaitMs - (clock w - startTime))%Z
    end.
Proof.
  induction fuel as [| fuel IH]; intros ps w;
    cbn [Enforced.poll_loop observations]; unfold bind, lift, now; cbn [fst snd].
  - destruct (Z.ltb_spec (clock w - startTime) maxWaitMs) as [Hlt | Hge].
    + eexists _, _, _, _. split; [reflexivity |]. cbn.
      rewrite Nat.add_0_r.
      split; [reflexivity | split; [reflexivity | split; [apply grows_refl |]]].
      split; [reflexivity | lia].
    + eexists _, _, _, _. split; [reflexivity |]. cbn.
      rewrite Nat.add_0_r.
      split; [reflexivity | split; [reflexivity | split; [apply grows_refl |]]].
      split; [reflexivity | lia].
  - destruct (Z.ltb_spec (clock w - startTime) maxWaitMs) as [Hlt | Hge].
    2:{ eexists _, _, _, _. split; [reflexivity |]. cbn.
        rewrite Nat.add_0_r.
      split; [reflexivity | split; [reflexivity | split; [apply grows_refl |]]].
      split; [reflexivity | lia]. }
    destruct (poll_once_step chatId dir startTime ps w)
      as (flow & ps1 & w1 & e1 & Hrun & Hatt & Hlast & Hg1 & Hu1 & Hflow).
    rewrite Hrun. cbn [fst snd]. destruct flow as [| files].
    + destruct (IH ps1 w1) as (r & ps2 & w2 & e2 & Hrun2 & Hatt2 & Hlast2 & Hg2 & Hu2 & Hr).
      rewrite Hrun2.
      eexists _, _, _, _. split; [reflexivity |].
      split; [cbn [length]; lia |].
      split; [rewrite last_seen_cons, <- Hlast; exact Hlast2 |].
      split; [exact (grows_trans _ _ _ _ _ Hg1 Hg2) |].
      split; [rewrite status_updates_app, transitions_cons, Hu1, Hu2, <- Hlast; reflexivity |].
      destruct Hflow as (Hclock & _).
      destruct r as [[| files] |].
      * exact Hr.
      * destruct (observations fuel chatId dir startTime maxWaitMs (ps1, w1)) as [| o obs];
          [destruct Hr; discriminate | exact Hr].
      * lia.
    + eexists _, _, _, _. split; [reflexivity |].
      split; [cbn [length]; lia |].
      split; [exact Hlast |].
      split; [exact Hg1 |].
      split; [exact Hu1 |].
      destruct Hflow as (_ & Hobs). cbn [last]. 
      destruct Hobs as [-> | ->]; auto.
Qed.

Lemma poll_fuel_suffices chatId dir startTime maxWaitMs ps w :
  (startTime <= clock w)%Z ->
  fst (Enforced.poll_loop (Enforced.poll_fuel maxWaitMs) chatId dir startTime maxWaitMs (ps, w))
    <> Ok None.
Proof.
  intros Hstart.
  destruct (poll_loop_run chatId dir startTime maxWaitMs (Enforced.poll_fuel maxWaitMs) ps w)
    as (r & ps' & w' & ext & Hrun & _ & _ & _ & _ & Hr).
  rewrite Hrun. cbn. destruct r as [r |]; [discriminate |].
  exfalso. unfold Enforced.poll_fuel in Hr.
  pose proof (Z.mul_succ_div_gt maxWaitMs 2000 ltac:(lia)) as Hdiv. lia.
Qed.

Lemma frames_weaken {St A} (proj : St -> World) (P Q : event -> bool) (m : ST St A) :
  (forall e, P e = true -> Q e = true) -> frames proj P m -> frames proj Q m.
Proof. intros HPQ Hm s. eapply extends_weaken; [exact HPQ | apply Hm]. Qed.

Lemma quiet_no_report e : quiet e = true -> no_report e = true.
Proof. destruct e as [[] | | | |]; cbn; auto. Qed.

Lemma frames_final_attempts i n todo :
  Forall (frames here no_report) todo ->
  frames here no_report (Enforced.final_attempts i n todo).
Proof.
  revert i. induction todo as [| s todo IH]; intros i Hall; cbn [Enforced.final_attempts].
  - frame.
  - apply Forall_cons in Hall as [Hs Hall].
    apply frames_bind.
    + apply frames_try_catch; [| intros; frame].
      apply frames_bind; [frame |]. intros _.
      apply frames_bind; [exact Hs |]. intros files. frame.
    + intros [| files]; [apply IH; exact Hall | frame].
Qed.

Lemma frames_after_deadline chatId dir :
  frames here no_report (Enforced.after_deadline chatId dir).
Proof.
  pose proof (frames_weaken here quiet no_report _ quiet_no_report
                (frames_enforced_download chatId dir)) as Hd.
  unfold Enforced.after_deadline.
  apply frames_bind; [frame |]. intros _.
  apply frames_bind; [| intros [| files]; frame].
  apply frames_final_attempts. unfold Enforced.strategies.
  constructor; [exact Hd |].
  constructor; [apply frames_bind; [frame | intros; exact Hd] |].
  constructor; [apply frames_bind; [frame | intros; exact Hd] |].
  constructor.
Qed.

Lemma no_report_silent ext : forallb no_report ext = true -> status_updates ext = [].
Proof.
  induction ext as [| e ext IH]; cbn; [auto |].
  intros H. apply andb_prop in H as [He Hext].
  destruct e as [[] | | | |]; cbn in *; try discriminate; auto.
Qed.

(** C8. Over any stretch of the polling loop the attempts counter grows by
    exactly the number of polls made, [lastStatus] is the last status seen
    (the initial one while no poll has answered), and the status reports on
    the console are exactly the changes in the sequence of observed
    statuses, one report per change. For a whole wait, which starts from
    [attempts = 0] and [lastStatus = 'unknown'], the reports of its trace are
    the changes of its observations starting from ['unknown']. *)
Theorem C8_status_reported_once_per_change :
  forall (fuel : nat) (chatId dir : string) (startTime maxWaitMs : Z)
         (ps : Enforced.PollState) (w : World) (maxWaitTime : Z),
    let obs := observations fuel chatId dir startTime maxWaitMs (ps, w) in
    let after := snd (Enforced.poll_loop fuel chatId dir startTime maxWaitMs (ps, w)) in
    (Enforced.attempts (fst after) = Enforced.attempts ps + length obs /\
     Enforced.lastStatus (fst after) = last_seen (Enforced.lastStatus ps) obs /\
     exists ext, trace (snd after) = (trace w ++ ext)%list /\
                 status_updates ext = transitions (Enforced.lastStatus ps) obs) /\
    Enforced.attempts (fst (snd (Enforced.poll_once chatId dir startTime (ps, w))))
      = S (Enforced.attempts ps) /\
    (exists ext,
       trace (snd (Enforced.waitAndDownloadEnforced chatId dir maxWaitTime w))
         = (trace w ++ ext)%list /\
       status_updates ext =
         transitions "unknown"
           (observations (Enforced.poll_fuel (maxWaitTime * 1000)) chatId dir (clock w)
                         (maxWaitTime * 1000) (Enforced.mkPollState 0 "unknown", w))).
Proof.
  intros fuel chatId dir startTime maxWaitMs ps w maxWaitTime. cbv zeta.
  split; [| split].
  - destruct (poll_loop_run chatId dir startTime maxWaitMs fuel ps w)
      as (r & ps' & w' & ext & Hrun & Hatt & Hlast & Hg & Hu & _).
    rewrite Hrun. cbn [fst snd].
    split; [exact Hatt | split; [exact Hlast |]].
    exists ext. split; [apply Hg | exact Hu].
  - destruct (poll_once_step chatId dir startTime ps w)
      as (flow & ps1 & w1 & e1 & Hrun & Hatt & _).
    now rewrite Hrun.
  - unfold Enforced.waitAndDownloadEnforced, bind, now, with_locals. cbn [fst snd].
    destruct (poll_loop_run chatId dir (clock w) (maxWaitTime * 1000)
                (Enforced.poll_fuel (maxWaitTime * 1000))
                (Enforced.mkPollState 0 "unknown") w)
      as (r & ps' & w' & ext & Hrun & _ & _ & Hg & Hu & _).
    rewrite Hrun. cbn [fst snd Enforced.lastStatus] in *.
    destruct r as [[| files] |].
    + destruct (grows_of_extends _ _ _ (frames_after_deadline chatId dir w'))
        as (e2 & Hg2 & Hq2).
      destruct (Enforced.after_deadline chatId dir w') as [r2 w2]. cbn [fst snd] in *.
      exists (ext ++ e2)%list. split.
      * destruct r2; cbn; apply (grows_trans _ _ _ _ _ Hg Hg2).
      * rewrite status_updates_app, Hu, (no_report_silent _ Hq2). apply app_nil_r.
    + exists ext. split; [apply Hg | exact Hu].
    + exists ext. split; [apply Hg | exact Hu].
Qed.

(** Two polls see [pending], the third sees [completed]: two reports. *)
Example two_changes_two_reports :
  status_updates
    (trace (snd (Enforced.waitAndDownloadEnforced "abc123" "./out" 300
                   (world_of (scripted (Ok (chat_with "pending" []))
                                [Ok (chat_with "pending" []); Ok (chat_with "pending" [])]
                                (Ok (chat_with "completed" [entry "Button.tsx" "x"])))))))
    = [("unknown", "pending"); ("pending", "completed")].
Proof. vm_compute. reflexivity. Qed.

Lemma waitAndDownloadEnforced_returns chatId dir maxWaitTime w :
  exists files w',
    Enforced.waitAndDownloadEnforced chatId dir maxWaitTime w = (Ok files, w').
Proof.
  unfold Enforced.waitAndDownloadEnforced, bind, now, with_locals. cbn [fst snd].
  pose proof (poll_fuel_suffices chatId dir (clock w) (maxWaitTime * 1000)
                (Enforced.mkPollState 0 "unknown") w (Z.le_refl _)) as Hfuel.
  destruct (poll_loop_run chatId dir (clock w) (maxWaitTime * 1000)
              (Enforced.poll_fuel (maxWaitTime * 1000))
              (Enforced.mkPollState 0 "unknown") w)
    as (r & ps' & w' & ext & Hrun & _).
  rewrite Hrun in *. cbn [fst snd] in *.
  destruct r as [[| files] |]; [| eexists _, _; reflexivity | congruence].
  apply after_deadline_returns.
Qed.

(** C5, as amended. A poll whose [try] block throws never ends the wait: the
    iteration returns normally, logs the error, sleeps 5 s when the attempts
    counter (which counts every poll, failed or not) is a multiple of 5 and
    3 s otherwise, and the loop goes on. The loop is left only once the
    deadline has passed or after a poll that saw [completed] or [failed];
    the wait as a whole always returns a list. In [waitAndDownload] of
    [v0-chat-creator-sdk.js] the pause is always 5 s. *)
Theorem C5_throwing_poll_backs_off :
  forall (chatId dir : string) (startTime maxWaitMs maxWaitTime : Z) (fuel : nat)
         (ps : Enforced.PollState) (w : World) (attempts : nat),
    (exists flow s', Enforced.poll_once chatId dir startTime (ps, w) = (Ok flow, s')) /\
    (forall e ps1 w1,
       Enforced.poll_try chatId dir startTime (ps, w) = (Throw e, (ps1, w1)) ->
       Enforced.attempts ps1 = S (Enforced.attempts ps) /\
       Enforced.poll_once chatId dir startTime (ps, w) =
         (Ok Next, (ps1, later (backoff_ms (Enforced.attempts ps1))
                               (backoff_events (Enforced.attempts ps1) e) w1))) /\
    (backoff_ms attempts = if (attempts mod 5 =? 0)%nat then 5000 else 3000)%Z /\
    (exists r s',
       Enforced.poll_loop fuel chatId dir startTime maxWaitMs (ps, w) = (Ok r, s') /\
       match r with
       | Some Next => (maxWaitMs <= clock (snd s') - startTime)%Z
       | Some (Return _) =>
           last (observations fuel chatId dir startTime maxWaitMs (ps, w))
             = Some (Some "completed") \/
           last (observations fuel chatId dir startTime maxWaitMs (ps, w))
             = Some (Some "failed")
       | None => (2000 * Z.of_nat fuel < maxWaitMs - (clock w - startTime))%Z
       end) /\
    (exists files w',
       Enforced.waitAndDownloadEnforced chatId dir maxWaitTime w = (Ok files, w')) /\
    (forall e,
       Sdk.poll_catch e (attempts, w) =
         (Ok Next, (attempts,
                    later 5000 [Console (LogPollError attempts e); Console LogRetrying5;
                                Slept 5000] w))).
Proof.
  intros chatId dir startTime maxWaitMs maxWaitTime fuel ps w attempts.
  split; [| split; [| split; [| split; [| split]]]].
  - destruct (poll_once_step chatId dir startTime ps w) as (flow & ps1 & w1 & e1 & Hrun & _).
    eexists _, _. exact Hrun.
  - intros e ps1 w1 Htry.
    destruct (poll_once_step chatId dir startTime ps w)
      as (flow & ps' & w' & e1 & Hrun & Hatt & _).
    unfold Enforced.poll_once, try_catch in *. rewrite Htry in *.
    rewrite poll_catch_run in Hrun. injection Hrun as <- <- <-.
    split; [exact Hatt | now rewrite poll_catch_run].
  - reflexivity.
  - destruct (poll_loop_run chatId dir startTime maxWaitMs fuel ps w)
      as (r & ps' & w' & ext & Hrun & _ & _ & _ & _ & Hr).
    eexists _, _. split; [exact Hrun | exact Hr].
  - apply waitAndDownloadEnforced_returns.
  - intros e. unfold Sdk.poll_catch, bind, lift, get_local, log, emit, sleep, ret, later.
    cbn [fst snd service fs clock gets trace]. rewrite <- !app_assoc. reflexivity.
Qed.

(** Four polls succeed and the fifth throws: its pause is 5 s, although it
    is the first failure in a row. *)
Lemma C5_first_failure_waits_five_seconds :
  ~ backoff_by_consecutive_failures (Enforced.poll_fuel 12000) "abc123" "./out" 0 12000
      (Enforced.mkPollState 0 "unknown", world_of flaky).
Proof.
  unfold backoff_by_consecutive_failures. intros H.
  assert (Hlast : last (observations (Enforced.poll_fuel 12000) "abc123" "./out" 0 12000
                          (Enforced.mkPollState 0 "unknown", world_of flaky)) = Some None)
    by (vm_compute; reflexivity).
  specialize (H Hlast). clear Hlast. vm_compute in H. discriminate H.
Qed.

Lemma C5_witness :
  Enforced.poll_once "abc123" "./out" 0
      (Enforced.mkPollState 4 "pending", world_of (scripted (Throw "x") [] (Throw "socket hang up")))
    = (Ok Next,
       (Enforced.mkPollState 5 "pending",
        later 5000
          [Console (LogPollError 5 "socket hang up"); Console LogRetrying5; Slept 5000]
          (snd (Creator.getChat "abc123"
                  (world_of (scripted (Throw "x") [] (Throw "socket hang up"))))))).
Proof.
  destruct (C5_throwing_poll_backs_off "abc123" "./out" 0 12000 12 7
              (Enforced.mkPollState 4 "pending")
              (world_of (scripted (Throw "x") [] (Throw "socket hang up"))) 5)
    as (_ & H & _).
  apply (H "socket hang up").
  vm_compute. reflexivity.
Defined.

(** ** A failed job (C2) *)

(** What a poll that sees [failed] does: it downloads at once; a list, even
    an empty one, is returned from the wait; an error of the download is
    rethrown inside the loop's own [try] and ends up in its [catch]. *)
Lemma failed_status_step chatId dir startTime ps w chat w1 :
  Creator.getChat chatId w = (Ok chat, w1) ->
  Enforced.status_of chat = "failed" ->
  exists ps2 w2,
    Enforced.attempts ps2 = S (Enforced.attempts ps) /\
    Enforced.poll_once chatId dir startTime (ps, w) =
      match Enforced.downloadGeneratedCode chatId dir w2 with
      | (Ok files, w3) => (Ok (Return files), (ps2, w3))
      | (Throw _, w3) =>
          Enforced.poll_catch "Generation failed and no files available" (ps2, w3)
      end.
Proof.
  intros Hget Hfailed. rewrite poll_once_unfold, Hget. cbv zeta. rewrite Hfailed.
  change (String.eqb "failed" "completed") with false.
  change (String.eqb "failed" "failed") with true. cbv iota.
  eexists _, _. split; cycle 1; [reflexivity |].
  destruct (negb _); reflexivity.
Qed.

(** C2, at the failing input. The first poll sees [failed] and its download
    throws; the wait neither raises nor stops: it logs the error, sleeps
    3 s, polls again, downloads again and returns the file found then. *)
Theorem C2_failed_status_is_not_terminal :
  let run := Enforced.waitAndDownloadEnforced "abc123" "./out" 300 (world_of failed_job) in
  fst run = Ok ["out/Button.tsx"] /\
  gets (snd run) = 4%nat /\
  sleeps (trace (snd run)) = [3000%Z] /\
  In (Console (LogPollError 1 "Generation failed and no files available"))
     (trace (snd run)).
Proof.
  vm_compute. repeat split. tauto.
Qed.

(** ** The command line (C4) *)

Lemma parse_keeps_help n :
  forall args o, length args <= n -> Enforced.help o = true ->
                 Enforced.help (Enforced.parse args o) = true.
Proof.
  induction n as [| n IH]; intros args o Hlen Ho.
  - destruct args; [exact Ho | cbn in Hlen; lia].
  - destruct args as [| arg rest]; [exact Ho |]. cbn in Hlen.
    cbn [Enforced.parse].
    assert (Hv : forall set_,
              (forall v o', Enforced.help o' = true -> Enforced.help (set_ v o') = true) ->
              Enforced.help match rest with
                            | [] => set_ None o
                            | value :: rest' => Enforced.parse rest' (set_ (Some value) o)
                            end = true).
    { intros set_ Hset. destruct rest as [| value rest']; [now apply Hset |].
      apply IH; [cbn in Hlen; lia | now apply Hset]. }
    repeat match goal with
           | |- context [if ?b then _ else _] => destruct b
           end;
      first [ apply Hv; intros v o' Ho'; exact Ho'
            | apply IH; [lia | first [exact Ho | reflexivity]] ].
Qed.

Lemma remote_calls_app a b : remote_calls (a ++ b) = remote_calls a + remote_calls b.
Proof.
  induction a as [| e a IH]; [reflexivity |].
  destruct e; cbn; rewrite ?IH; reflexivity.
Qed.

Lemma warnings_run n w :
  exists w',
    for_of (fun _ : unit => log LogDownloadEnforced) (List.repeat tt n) w = (Ok tt, w') /\
    remote_calls (trace w') = remote_calls (trace w).
Proof.
  revert w. induction n as [| n IH]; intros w; cbn [List.repeat for_of].
  - eexists. split; reflexivity.
  - unfold bind. cbn [log emit fst snd].
    destruct (IH (snd (log LogDownloadEnforced w))) as (w' & Hrun & Hcalls).
    cbn [log emit fst snd] in *. rewrite Hrun. eexists. split; [reflexivity |].
    rewrite Hcalls. cbn. rewrite remote_calls_app. cbn. lia.
Qed.

(** C4, as amended. With the API key set, a help invocation ends the
    process with status 0 and a missing prompt ends it with status 1, in
    each of the three scripts (in [v0-chat-creator-sdk.js] unless the
    [download] or [list] command is selected); in both cases only console
    lines are produced: no remote call is made. A leading [--help] or [-h]
    is always a help invocation. *)
Theorem C4_help_and_missing_prompt_exit_early :
  forall (V0_API_KEY : option string) (argv : list string) (w : World),
    Js.truthy V0_API_KEY = true ->
    (* v0-chat-creator-enforced.js *)
    ((Enforced.help (Enforced.parseArgs argv) = true ->
      Enforced.main V0_API_KEY argv w = (Ok 0%Z, snd (log LogHelp w))) /\
     (Enforced.help (Enforced.parseArgs argv) = false ->
      Js.truthy (Enforced.prompt (Enforced.parseArgs argv)) = false ->
      Enforced.main V0_API_KEY argv w =
        (Ok 1%Z, snd (log LogHelp (snd (log LogNoPrompt w))))) /\
     (Enforced.help (Enforced.parseArgs argv) = true \/
      Js.truthy (Enforced.prompt (Enforced.parseArgs argv)) = false ->
      gets (snd (Enforced.main V0_API_KEY argv w)) = gets w /\
      remote_calls (trace (snd (Enforced.main V0_API_KEY argv w))) = remote_calls (trace w)) /\
     (forall rest,
        Enforced.help (Enforced.parseArgs ("--help" :: rest)) = true /\
        Enforced.help (Enforced.parseArgs ("-h" :: rest)) = true)) /\
    (* v0-chat-creator.js *)
    ((Basic.help (Basic.parseArgs argv) = true ->
      Basic.main V0_API_KEY argv w = (Ok 0%Z, snd (log LogHelp w))) /\
     (Basic.help (Basic.parseArgs argv) = false ->
      Js.truthy (Basic.prompt (Basic.parseArgs argv)) = false ->
      Basic.main V0_API_KEY argv w =
        (Ok 1%Z, snd (log LogHelp (snd (log LogNoPrompt w)))))) /\
    (* v0-chat-creator-sdk.js *)
    (special_command argv = false ->
     (Sdk.help (fst (Sdk.parse argv Sdk.defaults 0)) = true ->
      fst (Sdk.main V0_API_KEY argv w) = Ok 0%Z /\
      remote_calls (trace (snd (Sdk.main V0_API_KEY argv w))) = remote_calls (trace w)) /\
     (Sdk.help (fst (Sdk.parse argv Sdk.defaults 0)) = false ->
      Js.truthy (Sdk.prompt (fst (Sdk.parse argv Sdk.defaults 0))) = false ->
      fst (Sdk.main V0_API_KEY argv w) = Ok 1%Z /\
      remote_calls (trace (snd (Sdk.main V0_API_KEY argv w))) = remote_calls (trace w))).
Proof.
  intros key argv w Hkey.
  assert (Hhelp : Enforced.help (Enforced.parseArgs argv) = true ->
                  Enforced.main key argv w = (Ok 0%Z, snd (log LogHelp w))).
  { intros H. unfold Enforced.main. rewrite Hkey, H. reflexivity. }
  assert (Hprompt : Enforced.help (Enforced.parseArgs argv) = false ->
                    Js.truthy (Enforced.prompt (Enforced.parseArgs argv)) = false ->
                    Enforced.main key argv w =
                      (Ok 1%Z, snd (log LogHelp (snd (log LogNoPrompt w))))).
  { intros H1 H2. unfold Enforced.main. rewrite Hkey, H1, H2. reflexivity. }
  split; [| split].
  - split; [exact Hhelp | split; [exact Hprompt | split]].
    + intros H.
      destruct (Enforced.help (Enforced.parseArgs argv)) eqn:Eh.
      * rewrite (Hhelp eq_refl). cbn. rewrite remote_calls_app. cbn.
        split; [reflexivity | lia].
      * destruct H as [H | H]; [discriminate H |].
        rewrite (Hprompt eq_refl H). cbn. rewrite !remote_calls_app. cbn.
        split; [reflexivity | lia].
    + intros rest. unfold Enforced.parseArgs. cbn [Enforced.parse].
      split; (eapply parse_keeps_help; [apply Nat.le_refl | reflexivity]).
  - split.
    + intros H. unfold Basic.main. rewrite Hkey, H. reflexivity.
    + intros H1 H2. unfold Basic.main. rewrite Hkey, H1, H2. reflexivity.
  - intros Hspecial. unfold special_command in Hspecial.
    apply orb_false_elim in Hspecial as [Hd Hl].
    unfold Sdk.main. rewrite Hkey, Hd, Hl. cbn [negb].
    unfold bind, Sdk.parseArgs.
    destruct (Sdk.parse argv Sdk.defaults 0) as [o n]. cbn [fst snd].
    destruct (warnings_run n w) as (w' & Hrun & Hcalls).
    unfold bind. rewrite Hrun. cbn [ret].
    split.
    + intros H. rewrite H. cbn. rewrite remote_calls_app, Hcalls. cbn.
      split; [reflexivity | lia].
    + intros H1 H2. rewrite H1, H2. cbn. rewrite !remote_calls_app, Hcalls. cbn.
      split; [reflexivity | lia].
Qed.

(** [--help] with the key set: exit status 0. *)
Lemma C4_help_exits_with_zero :
  ~ help_exits_nonzero (Some "v1:secret") ["--help"] (world_of idle).
Proof.
  intros H. destruct (H eq_refl) as (n & w' & Hrun & Hn).
  vm_compute in Hrun. injection Hrun as Hn' _. apply Hn. now rewrite <- Hn'.
Qed.

Lemma C4_witness :
  Enforced.main (Some "v1:secret") ["-m"; "v0-1.5-lg"; "--thinking"] (world_of idle) =
    (Ok 1%Z, snd (log LogHelp (snd (log LogNoPrompt (world_of idle))))).
Proof.
  destruct (C4_help_and_missing_prompt_exit_early (Some "v1:secret")
              ["-m"; "v0-1.5-lg"; "--thinking"] (world_of idle) eq_refl)
    as ((_ & H & _) & _).
  apply H; reflexivity.
Defined.

(** In [v0-chat-creator-sdk.js] the [list] command comes before the
    options: [list --help] asks the service for the recent chats. *)
Example list_command_ignores_help :
  remote_calls (trace (snd (Sdk.main (Some "v1:secret") ["list"; "--help"] (world_of idle))))
  = 1.
Proof. vm_compute. reflexivity. Qed.

(** ** The same job seen by [waitAndDownload] of the SDK script *)

(** There a [failed] status is thrown inside the loop's own [try] as well:
    no download is attempted at that point, the loop pauses 5 s and polls
    again until the deadline, and only then downloads once. *)
Example sdk_wait_polls_a_failed_job_until_the_deadline :
  let run := Sdk.waitAndDownload "abc123" "./out" 4
               (world_of (steady (chat_with "failed" [entry "Button.tsx" "x"]))) in
  fst run = Ok ["out/Button.tsx"] /\
  sleeps (trace (snd run)) = [5000%Z] /\
  gets (snd run) = 2%nat /\
  In (Console (LogPollError 1 "Generation failed")) (trace (snd run)).
Proof. vm_compute. repeat split. tauto. Qed.

(** ** More on the enforced wait *)

Lemma observations_length fuel chatId dir startTime maxWaitMs :
  forall s, length (observations fuel chatId dir startTime maxWaitMs s) <= fuel.
Proof.
  induction fuel as [| fuel IH]; intros s; cbn [observations].
  - destruct (_ <? _)%Z; cbn; lia.
  - destruct (_ <? _)%Z; [| cbn; lia]. cbn [length].
    destruct (Enforced.poll_once chatId dir startTime s) as [[[| files] | e] s'];
      cbn [length]; try lia.
    specialize (IH s'). lia.
Qed.

(** A wait of [maxWaitTime] seconds ends its polling loop by itself, after
    at most [maxWaitTime / 2 + 1] polls: every poll that does not return is
    followed by a pause of at least two seconds. *)
Theorem enforced_wait_polls_are_bounded :
  forall (chatId dir : string) (maxWaitTime : Z) (w : World),
    (0 <= maxWaitTime)%Z ->
    exists flow ps' w',
      Enforced.poll_loop (Enforced.poll_fuel (maxWaitTime * 1000)) chatId dir (clock w)
          (maxWaitTime * 1000) (Enforced.mkPollState 0 "unknown", w)
        = (Ok (Some flow), (ps', w')) /\
      (Z.of_nat (Enforced.attempts ps') <= maxWaitTime / 2 + 1)%Z /\
      Enforced.attempts ps' =
        length (observations (Enforced.poll_fuel (maxWaitTime * 1000)) chatId dir (clock w)
                  (maxWaitTime * 1000) (Enforced.mkPollState 0 "unknown", w)).
Proof.
  intros chatId dir maxWaitTime w Hpos.
  pose proof (poll_fuel_suffices chatId dir (clock w) (maxWaitTime * 1000)
                (Enforced.mkPollState 0 "unknown") w (Z.le_refl _)) as Hfuel.
  destruct (poll_loop_run chatId dir (clock w) (maxWaitTime * 1000)
              (Enforced.poll_fuel (maxWaitTime * 1000))
              (Enforced.mkPollState 0 "unknown") w)
    as (r & ps' & w' & ext & Hrun & Hatt & _).
  rewrite Hrun in Hfuel. cbn [fst] in Hfuel.
  destruct r as [flow |]; [| congruence].
  exists flow, ps', w'. split; [exact Hrun |].
  cbn [Enforced.attempts] in Hatt. rewrite Nat.add_0_l in Hatt.
  split; [| exact Hatt].
  pose proof (observations_length (Enforced.poll_fuel (maxWaitTime * 1000)) chatId dir
                (clock w) (maxWaitTime * 1000) (Enforced.mkPollState 0 "unknown", w)) as Hlen.
  rewrite <- Hatt in Hlen. unfold Enforced.poll_fuel in Hlen.
  replace (maxWaitTime * 1000 / 2000)%Z with (maxWaitTime / 2)%Z in Hlen
    by (change 2000%Z with (2 * 1000)%Z; now rewrite Z.div_mul_cancel_r by lia).
  assert (0 <= maxWaitTime / 2)%Z by (apply Z.div_pos; lia).
  lia.
Qed.

Lemma enforced_wait_polls_are_bounded_witness :
  exists flow ps' w',
    Enforced.poll_loop (Enforced.poll_fuel (4 * 1000)) "abc123" "./out" (clock (world_of idle))
        (4 * 1000) (Enforced.mkPollState 0 "unknown", world_of idle)
      = (Ok (Some flow), (ps', w')) /\
    (Z.of_nat (Enforced.attempts ps') <= 4 / 2 + 1)%Z /\
    Enforced.attempts ps' =
      length (observations (Enforced.poll_fuel (4 * 1000)) "abc123" "./out"
                (clock (world_of idle)) (4 * 1000)
                (Enforced.mkPollState 0 "unknown", world_of idle)).
Proof.
  apply (enforced_wait_polls_are_bounded "abc123" "./out" 4 (world_of idle)). lia.
Defined.

(** With a timeout of zero seconds or less no poll is made: the enforced
    wait goes straight to its final strategies, the wait of the SDK script
    to its one final download. *)
Theorem nonpositive_timeout_skips_polling :
  forall (chatId dir : string) (maxWaitTime : Z) (w : World),
    (maxWaitTime <= 0)%Z ->
    Enforced.waitAndDownloadEnforced chatId dir maxWaitTime w =
      Enforced.after_deadline chatId dir w /\
    Sdk.waitAndDownload chatId dir maxWaitTime w =
      (log LogDeadline ;;;
       try_catch (Sdk.downloadGeneratedCode chatId dir)
                 (fun _ => log (LogManualHint chatId) ;;; ret [])) w.
Proof.
  intros chatId dir maxWaitTime w Hneg.
  assert (Hcond : (clock w - clock w <? maxWaitTime * 1000)%Z = false)
    by (apply Z.ltb_ge; lia).
  split.
  - unfold Enforced.waitAndDownloadEnforced, bind, now, with_locals. cbn [fst snd].
    destruct (Enforced.poll_fuel (maxWaitTime * 1000)) as [| fuel];
      cbn [Enforced.poll_loop]; unfold bind, lift, now; cbn [fst snd];
      rewrite Hcond; reflexivity.
  - unfold Sdk.waitAndDownload, bind, now, with_locals. cbn [fst snd].
    destruct (Enforced.poll_fuel (maxWaitTime * 1000)) as [| fuel];
      cbn [Sdk.poll_loop]; unfold bind, lift, now; cbn [fst snd];
      rewrite Hcond; reflexivity.
Qed.

Lemma nonpositive_timeout_skips_polling_witness :
  Enforced.waitAndDownloadEnforced "abc123" "./out" 0 (world_of idle) =
    Enforced.after_deadline "abc123" "./out" (world_of idle).
Proof.
  apply (nonpositive_timeout_skips_polling "abc123" "./out" 0 (world_of idle)). lia.
Defined.

Lemma completed_poll_returns_files chatId dir startTime ps w files s' :
  Enforced.poll_once chatId dir startTime (ps, w) = (Ok (Return files), s') ->
  observed chatId w = Some "completed" ->
  files <> [].
Proof.
  rewrite poll_once_unfold, observed_getChat.
  destruct (Creator.getChat chatId w) as [[chat | e] w1]; cbn [fst]; cbv zeta.
  - intros Hrun Hobs. injection Hobs as Hst. rewrite Hst in Hrun.
    change (String.eqb "completed" "completed") with true in Hrun. cbv iota in Hrun.
    match type of Hrun with
    | context [Enforced.downloadGeneratedCode chatId dir ?w2] =>
        destruct (Enforced.downloadGeneratedCode chatId dir w2) as [[fl | e] w3]
    end.
    + destruct fl as [| f fl]; cbn [length Nat.ltb Nat.leb] in Hrun.
      * rewrite carry_on_run in Hrun. discriminate Hrun.
      * injection Hrun as <- _. discriminate.
    + rewrite poll_catch_run in Hrun. discriminate Hrun.
  - intros _ Hobs. discriminate Hobs.
Qed.

(** A list handed back by the polling loop after a poll that saw
    [completed] is never empty: a completed job without files is polled
    again. An empty list can only come from a poll that saw [failed]. *)
Theorem enforced_loop_returns_no_empty_completed :
  forall (fuel : nat) (chatId dir : string) (startTime maxWaitMs : Z)
         (ps : Enforced.PollState) (w : World) (files : list string)
         (s' : Enforced.PollState * World),
    Enforced.poll_loop fuel chatId dir startTime maxWaitMs (ps, w)
      = (Ok (Some (Return files)), s') ->
    (last (observations fuel chatId dir startTime maxWaitMs (ps, w)) = Some (Some "completed")
     /\ files <> []) \/
    last (observations fuel chatId dir startTime maxWaitMs (ps, w)) = Some (Some "failed").
Proof.
  induction fuel as [| fuel IH]; intros chatId dir startTime maxWaitMs ps w files s';
    cbn [Enforced.poll_loop observations]; unfold bind, lift, now; cbn [fst snd].
  - destruct (_ <? _)%Z; intros H; discriminate H.
  - destruct (_ <? _)%Z; [| intros H; discriminate H].
    destruct (poll_once_step chatId dir startTime ps w)
      as (flow & ps1 & w1 & e1 & Hrun & _ & _ & _ & _ & Hflow).
    pose proof (completed_poll_returns_files chatId dir startTime ps w) as Hcompleted.
    rewrite Hrun in *. cbn [fst snd]. destruct flow as [| files1].
    + intros Hloop. specialize (IH _ _ _ _ _ _ _ _ Hloop).
      destruct (observations fuel chatId dir startTime maxWaitMs (ps1, w1)) as [| o obs].
      * destruct IH as [[H _] | H]; discriminate H.
      * exact IH.
    + intros Hloop. injection Hloop as <- _.
      destruct Hflow as (_ & [Hobs | Hobs]); rewrite Hobs; cbn [last].
      * left. split; [reflexivity |]. eapply Hcompleted; [reflexivity | exact Hobs].
      * right. reflexivity.
Qed.

Lemma enforced_loop_returns_no_empty_completed_witness :
  let w := world_of (steady (chat_with "completed" [entry "Button.tsx" "export default 1"])) in
  (last (observations 3 "abc123" "./out" 0 6000 (Enforced.mkPollState 0 "unknown", w))
     = Some (Some "completed") /\ ["out/Button.tsx"] <> []) \/
  last (observations 3 "abc123" "./out" 0 6000 (Enforced.mkPollState 0 "unknown", w))
    = Some (Some "failed").
Proof.
  cbv zeta.
  eapply (enforced_loop_returns_no_empty_completed 3 "abc123" "./out" 0 6000
           (Enforced.mkPollState 0 "unknown")
           (world_of (steady (chat_with "completed" [entry "Button.tsx" "export default 1"])))
           ["out/Button.tsx"]).
  vm_compute. reflexivity.
Defined.

(** ** The wait of the SDK script *)

Lemma sdk_poll_catch_run e n w :
  Sdk.poll_catch e (n, w) =
    (Ok Next, (n, later 5000 [Console (LogPollError n e); Console LogRetrying5; Slept 5000] w)).
Proof.
  unfold Sdk.poll_catch, bind, lift, get_local, log, emit, sleep, ret, later.
  cbn [fst snd service fs clock gets trace]. rewrite <- !app_assoc. reflexivity.
Qed.

Lemma frames_clock {A} (P : event -> bool) (m : M A) w :
  frames here P m -> (clock w <= clock (snd (m w)))%Z.
Proof. intros H. destruct (H w) as (_ & _ & Hc & _). exact Hc. Qed.

Lemma sdk_poll_once_step chatId dir startTime n w :
  exists flow w',
    Sdk.poll_once chatId dir startTime (n, w) = (Ok flow, (S n, w')) /\
    (clock w <= clock w')%Z /\
    (flow = Next -> (clock w + 2000 <= clock w')%Z).
Proof.
  unfold Sdk.poll_once, try_catch, Sdk.poll_try.
  unfold bind at 1. unfold get_local at 1. cbn [fst snd].
  unfold bind at 1. unfold set_local at 1. cbn [fst snd].
  unfold bind at 1. unfold lift at 1. cbn [fst snd].
  pose proof (frames_clock _ _ w (frames_getChat chatId)) as Hget.
  destruct (Creator.getChat chatId w) as [[chat | e] w1]; cbn [fst snd] in *.
  - destruct (bool_decide (Enforced.version_status chat = Some "completed")).
    + unfold bind at 1. unfold lift at 1, log, emit. cbn [fst snd].
      unfold bind, lift. cbn [fst snd].
      match goal with
      | |- context [Sdk.downloadGeneratedCode chatId dir ?w2] =>
          pose proof (frames_clock _ _ w2 (frames_sdk_download chatId dir)) as Hd;
          destruct (Sdk.downloadGeneratedCode chatId dir w2) as [[files | e] w3]
      end; cbn [fst snd clock] in Hd.
      * eexists _, _. split; [reflexivity |]. split; [lia | discriminate].
      * rewrite sdk_poll_catch_run. eexists _, _. split; [reflexivity |].
        cbn. split; [lia | intros _; lia].
    + destruct (bool_decide (Enforced.version_status chat = Some "failed")).
      * unfold throw. rewrite sdk_poll_catch_run. eexists _, _. split; [reflexivity |].
        cbn. split; [lia | intros _; lia].
      * unfold bind, lift, now, get_local, log, emit, sleep, ret. cbn [fst snd].
        destruct (S n mod 5 =? 0)%nat; cbn [fst snd];
          (eexists _, _; split; [reflexivity |]; cbn; split; [lia | intros _; lia]).
  - rewrite sdk_poll_catch_run. eexists _, _. split; [reflexivity |].
    cbn. split; [lia | intros _; lia].
Qed.

Lemma sdk_poll_loop_run chatId dir startTime maxWaitMs fuel :
  forall n w,
  exists r s',
    Sdk.poll_loop fuel chatId dir startTime maxWaitMs (n, w) = (Ok r, s') /\
    (r = None -> (2000 * Z.of_nat fuel < maxWaitMs - (clock w - startTime))%Z).
Proof.
  induction fuel as [| fuel IH]; intros n w;
    cbn [Sdk.poll_loop]; unfold bind, lift, now; cbn [fst snd].
  - destruct (Z.ltb_spec (clock w - startTime) maxWaitMs) as [Hlt | Hge];
      (eexists _, _; split; [reflexivity |]); [intros _; lia | discriminate].
  - destruct (Z.ltb_spec (clock w - startTime) maxWaitMs) as [Hlt | Hge];
      [| eexists _, _; split; [reflexivity | discriminate]].
    destruct (sdk_poll_once_step chatId dir startTime n w) as (flow & w1 & Hrun & _ & Hflow).
    rewrite Hrun. cbn [fst snd]. destruct flow as [| files].
    + destruct (IH (S n) w1) as (r & s' & Hrun2 & Hr). rewrite Hrun2.
      eexists _, _. split; [reflexivity |]. intros ->.
      specialize (Hr eq_refl). specialize (Hflow eq_refl). lia.
    + eexists _, _. split; [reflexivity | discriminate].
Qed.

(** [waitAndDownload] of the SDK script never throws and always comes to an
    end: an error of a poll, of the download after a [completed] poll or of
    the final download is caught, and every poll that does not return is
    followed by a pause of at least two seconds. *)
Theorem sdk_wait_always_returns :
  forall (chatId dir : string) (maxWaitTime : Z) (w : World),
  exists files w', Sdk.waitAndDownload chatId dir maxWaitTime w = (Ok files, w').
Proof.
  intros chatId dir maxWaitTime w.
  unfold Sdk.waitAndDownload, bind, now, with_locals. cbn [fst snd].
  destruct (sdk_poll_loop_run chatId dir (clock w) (maxWaitTime * 1000)
              (Enforced.poll_fuel (maxWaitTime * 1000)) 0 w) as (r & s' & Hrun & Hr).
  rewrite Hrun. cbn [fst snd].
  destruct r as [[| files] |].
  - unfold log, emit, try_catch, bind, ret. cbn [fst snd].
    destruct (Sdk.downloadGeneratedCode chatId dir _) as [[files | e] w1];
      eexists _, _; reflexivity.
  - eexists _, _. reflexivity.
  - exfalso. specialize (Hr eq_refl). unfold Enforced.poll_fuel in Hr.
    pose proof (Z.mul_succ_div_gt (maxWaitTime * 1000) 2000 ltac:(lia)) as Hdiv. lia.
Qed.

(** ** Creating a chat *)

(** [createChat] of the SDK-based scripts. Without a message it throws
    before anything is sent. With one it makes exactly one call, whose
    request carries the message and no privacy setting: a chat is handed
    back as it came, and an error of the service is rethrown under a fixed
    message when its text holds [401] or [Unauthorized] (whatever else it
    holds), and unchanged when it holds none of the five markers. *)
Theorem createChat_validates_and_translates :
  forall (message system projectId : option string) (mc : ModelConfiguration)
         (attachments : list string) (designSystemId : option string) (w : World),
    let run := Creator.createChat message system projectId mc attachments designSystemId w in
    (Js.truthy message = false ->
       run = (Throw "Message is required to create a chat", w)) /\
    (Js.truthy message = true ->
       remote_calls (trace (snd run)) = S (remote_calls (trace w)) /\
       fs (snd run) = fs w /\
       gets (snd run) = gets w /\
       exists o,
         co_message o = default "" message /\
         co_modelConfiguration o = mc /\
         co_chatPrivacy o = None /\
         match outcome (on_create (service w) o) with
         | Ok chat => fst run = Ok chat
         | Throw e0 =>
             exists e, fst run = Throw e /\
               (Js.includes e0 "401" || Js.includes e0 "Unauthorized" = true ->
                e = "Authentication failed. Please check your V0_API_KEY in the .env file") /\
               (Js.includes e0 "401" || Js.includes e0 "Unauthorized"
                || Js.includes e0 "400" || Js.includes e0 "network"
                || Js.includes e0 "fetch" = false -> e = e0)
         end).
Proof.
  intros message system projectId mc attachments dsid w. cbv zeta.
  unfold Creator.createChat. split.
  - intros ->. reflexivity.
  - intros ->. cbn [negb].
    unfold try_catch, chats_create, remote_call.
    match goal with
    | |- context [on_create (service w) ?o] => set (opts := o)
    end.
    assert (Hgets : forall n : nat, n + 0 = n) by (intros; lia).
    destruct (outcome (on_create (service w) opts)) as [chat | e0] eqn:Eout.
    + cbn [fst snd trace fs gets]. rewrite remote_calls_app. cbn [remote_calls].
      split; [lia | split; [reflexivity | split; [apply Hgets |]]].
      exists opts. rewrite Eout. auto.
    + destruct (Js.includes e0 "401" || Js.includes e0 "Unauthorized") eqn:E401;
        [| destruct (Js.includes e0 "400") eqn:E400;
           [| destruct (Js.includes e0 "network" || Js.includes e0 "fetch") eqn:Enet]];
        unfold throw; cbn [fst snd trace fs gets]; rewrite remote_calls_app;
        cbn [remote_calls];
        (split; [lia | split; [reflexivity | split; [apply Hgets |]]]);
        exists opts; rewrite Eout;
        (split; [reflexivity | split; [reflexivity | split; [reflexivity |]]]);
        eexists; (split; [reflexivity | split]);
        rewrite ?E401; cbn [orb]; rewrite ?E400; cbn [orb];
        try reflexivity; try discriminate; try (intros _; reflexivity).
      intros H. exfalso.
      destruct (Js.includes e0 "network"); cbn in *; congruence.
Qed.

Lemma createChat_validates_and_translates_witness :
  let run := Creator.createChat (Some "Create a button") None None
               (mkModelConfiguration (Some "v0-1.5-md") false false "sync") [] None
               (world_of (scripted (Throw "HTTP 401") [] (Throw "socket hang up"))) in
  remote_calls (trace (snd run)) = 1 /\
  fst run = Throw "Authentication failed. Please check your V0_API_KEY in the .env file".
Proof.
  cbv zeta.
  destruct (createChat_validates_and_translates (Some "Create a button") None None
              (mkModelConfiguration (Some "v0-1.5-md") false false "sync") [] None
              (world_of (scripted (Throw "HTTP 401") [] (Throw "socket hang up"))))
    as [_ H].
  destruct (H eq_refl) as (Hcalls & _ & _ & o & _ & _ & _ & Hout).
  split; [exact Hcalls |].
  cbn -[Creator.createChat] in Hout. destruct Hout as (e & Hrun & H401 & _).
  rewrite Hrun. f_equal. apply H401. reflexivity.
Defined.

Lemma createChat_frame message system projectId mc attachments dsid w :
  fs (snd (Creator.createChat message system projectId mc attachments dsid w)) = fs w /\
  gets (snd (Creator.createChat message system projectId mc attachments dsid w)) = gets w.
Proof.
  unfold Creator.createChat.
  destruct (Js.truthy message); cbn [negb]; [| split; reflexivity].
  unfold try_catch, chats_create, remote_call, throw.
  match goal with
  | |- context [on_create (service w) ?o] => destruct (outcome (on_create (service w) o))
  end; repeat break_match; cbn [fst snd fs gets]; split; try reflexivity; lia.
Qed.

Lemma aggressive_retries_result chatId dir retries :
  forall w files k w',
    Enforced.aggressive_retries chatId dir retries w = (Ok (files, Some k), w') ->
    files <> [] /\ In k retries.
Proof.
  induction retries as [| retry retries IH]; intros w files k w';
    cbn [Enforced.aggressive_retries].
  - intros H. discriminate H.
  - unfold bind, try_catch, log, emit, ret, sleep. cbn [fst snd].
    destruct (Enforced.downloadGeneratedCode chatId dir _) as [[fl | e] w1].
    + destruct fl as [| f fl]; cbn [length Nat.ltb Nat.leb].
      * intros H. apply IH in H as [H1 H2]. split; [exact H1 | now right].
      * intros H. injection H as <- <- _. split; [discriminate | now left].
    + intros H. apply IH in H as [H1 H2]. split; [exact H1 | now right].
Qed.

(** ** [createAndDownload] *)

Lemma createAndDownload_run prompt_ options w :
  match Creator.createChat prompt_
          (Some (Js.or_else (Enforced.system options) Enforced.defaultSystem)) None
          (mkModelConfiguration (Some (Js.or_else (Enforced.modelId options) "v0-1.5-md"))
                                false (Enforced.thinking options) "sync")
          [] None w with
  | (Throw e, w1) => Enforced.createAndDownload prompt_ options w = (Throw e, w1)
  | (Ok created, w1) =>
      exists out w',
        Enforced.createAndDownload prompt_ options w = (Ok out, w') /\
        Enforced.chat out = created /\
        ((exists files,
            files <> [] /\ Enforced.downloadedFiles out = Some files /\
            Enforced.downloadError out = None /\
            (Enforced.autoDownloadStatus out = Some "success" \/
             Enforced.autoDownloadStatus out = Some "retry_success")) \/
         (Enforced.autoDownloadStatus out = Some "failed_will_retry" /\
          Enforced.downloadedFiles out = None /\ Enforced.downloadError out = None) \/
         (Enforced.autoDownloadStatus out = Some "error" /\
          Enforced.downloadedFiles out = None /\
          Enforced.version_status created = Some "completed" /\
          exists e,
            Enforced.downloadError out = Some e /\
            fst (Enforced.downloadGeneratedCode (id created)
                   (Js.or_else (Enforced.outputDir options) "./src/components") w1)
              = Throw e))
  end.
Proof.
  match goal with
  | |- context [Creator.createChat ?a ?b ?c ?d ?e ?f w] =>
      destruct (Creator.createChat a b c d e f w) as [[created | e0] w1] eqn:Ecreate
  end; unfold Enforced.createAndDownload; unfold bind at 1; rewrite Ecreate;
    [| reflexivity].
  unfold try_catch.
  unfold bind at 1.
  destruct (bool_decide (Enforced.version_status created = Some "completed")) eqn:Edone.
  - apply bool_decide_eq_true in Edone.
    destruct (Enforced.downloadGeneratedCode (id created) _ w1) as [[files | e] w2].
    + destruct files as [| f files]; cbn [length Nat.ltb Nat.leb].
      * unfold bind.
        destruct (aggressive_retries_returns (id created)
                    (Js.or_else (Enforced.outputDir options) "./src/components")
                    [1; 2; 3; 4; 5] w2) as ([files' [k |]] & w3 & Hrun).
        -- rewrite Hrun. cbn. eexists _, _. split; [reflexivity | split; [reflexivity |]].
           left. apply aggressive_retries_result in Hrun as [Hne _].
           exists files'. auto.
        -- rewrite Hrun. cbn. eexists _, _. split; [reflexivity | split; [reflexivity |]].
           right. left. auto.
      * cbn. eexists _, _. split; [reflexivity | split; [reflexivity |]].
        left. eexists. split; [| split; [reflexivity | split; [reflexivity | now left]]].
        discriminate.
    + cbn. eexists _, _. split; [reflexivity | split; [reflexivity |]].
      right. right. split; [reflexivity | split; [reflexivity | split; [exact Edone |]]].
      exists e. split; reflexivity.
  - destruct (waitAndDownloadEnforced_returns (id created)
                (Js.or_else (Enforced.outputDir options) "./src/components") 300 w1)
      as (files & w2 & Hwait).
    rewrite Hwait. destruct files as [| f files]; cbn [length Nat.ltb Nat.leb].
    + unfold bind.
      destruct (aggressive_retries_returns (id created)
                  (Js.or_else (Enforced.outputDir options) "./src/components")
                  [1; 2; 3; 4; 5] w2) as ([files' [k |]] & w3 & Hrun).
      * rewrite Hrun. cbn. eexists _, _. split; [reflexivity | split; [reflexivity |]].
        left. apply aggressive_retries_result in Hrun as [Hne _].
        exists files'. auto.
      * rewrite Hrun. cbn. eexists _, _. split; [reflexivity | split; [reflexivity |]].
        right. left. auto.
    + cbn. eexists _, _. split; [reflexivity | split; [reflexivity |]].
      left. eexists. split; [| split; [reflexivity | split; [reflexivity | now left]]].
      discriminate.
Qed.

(** [createAndDownload] throws exactly when [createChat] does, with the
    same error, and then no file has been touched and no chat fetched. Once
    [createChat] has returned a chat, [createAndDownload] always returns,
    and what it returns is that chat, with a download status that matches
    what it carries: [success] and [retry_success] come with a non-empty
    list of files, [failed_will_retry] and [error] with none; and [error]
    comes with the message of the download that threw, which is only
    possible for a chat that was created already [completed], since the
    wait itself never throws. *)
Theorem createAndDownload_outcome :
  forall (prompt_ : option string) (options : Enforced.Options) (w : World),
    match Creator.createChat prompt_
            (Some (Js.or_else (Enforced.system options) Enforced.defaultSystem)) None
            (mkModelConfiguration (Some (Js.or_else (Enforced.modelId options) "v0-1.5-md"))
                                  false (Enforced.thinking options) "sync")
            [] None w with
    | (Throw e, w1) =>
        Enforced.createAndDownload prompt_ options w = (Throw e, w1) /\
        fs w1 = fs w /\ gets w1 = gets w
    | (Ok created, w1) =>
        exists out w',
          Enforced.createAndDownload prompt_ options w = (Ok out, w') /\
          Enforced.chat out = created /\
          ((exists files,
              files <> [] /\ Enforced.downloadedFiles out = Some files /\
              Enforced.downloadError out = None /\
              (Enforced.autoDownloadStatus out = Some "success" \/
               Enforced.autoDownloadStatus out = Some "retry_success")) \/
           (Enforced.autoDownloadStatus out = Some "failed_will_retry" /\
            Enforced.downloadedFiles out = None /\ Enforced.downloadError out = None) \/
           (Enforced.autoDownloadStatus out = Some "error" /\
            Enforced.downloadedFiles out = None /\
            Enforced.version_status created = Some "completed" /\
            exists e,
              Enforced.downloadError out = Some e /\
              fst (Enforced.downloadGeneratedCode (id created)
                     (Js.or_else (Enforced.outputDir options) "./src/components") w1)
                = Throw e))
    end.
Proof.
  intros prompt_ options w.
  pose proof (createAndDownload_run prompt_ options w) as Hrun.
  match goal with
  | |- context [Creator.createChat ?a ?b ?c ?d ?e ?f w] =>
      pose proof (createChat_frame a b c d e f w) as Hframe;
      destruct (Creator.createChat a b c d e f w) as [[created | e0] w1]
  end; cbn [fst snd] in Hframe.
  - exact Hrun.
  - split; [exact Hrun | exact Hframe].
Qed.

(** A job that is already completed at creation and whose file is
    downloaded at once. *)
Example createAndDownload_success :
  let run := Enforced.createAndDownload (Some "Create a button") Enforced.defaults
               (world_of (steady (chat_with "completed" [entry "Button.tsx" "export default 1"]))) in
  match fst run with
  | Ok out => Enforced.autoDownloadStatus out = Some "success" /\
              Enforced.downloadedFiles out = Some ["src/components/Button.tsx"]
  | Throw _ => False
  end.
Proof. vm_compute. auto. Qed.

(** ** [createDynamicChat] of the SDK script *)

(** [createDynamicChat] of the SDK script throws exactly when [createChat]
    does, with the same error, and then no file has been touched and no chat
    fetched. Once [createChat] has returned a chat, [createDynamicChat]
    returns that chat whatever the download that follows does: when the
    download of a chat created [completed] throws, the error only goes to
    the console. The request that created the chat carries no [chatPrivacy],
    and its model configuration holds the chosen model, no image
    generation, the thinking flag and the response mode [sync]. *)
Theorem sdk_download_failure_keeps_the_chat :
  forall (options : Sdk.Options) (w : World),
    match Creator.createChat (Sdk.prompt options)
            (Some (Js.or_else (Sdk.system options) Enforced.defaultSystem)) None
            (mkModelConfiguration (Sdk.modelId options) false (Sdk.thinking options) "sync")
            [] None w with
    | (Throw e, w1) =>
        Sdk.createDynamicChat options w = (Throw e, snd (log (LogChatFailed e) w1)) /\
        fs w1 = fs w /\ gets w1 = gets w
    | (Ok chat, w1) =>
        fst (Sdk.createDynamicChat options w) = Ok chat /\
        (forall e w2,
           Sdk.autoDownload options = true ->
           Enforced.version_status chat = Some "completed" ->
           Sdk.downloadGeneratedCode (id chat)
             (default "./src/components" (Sdk.outputDir options))
             (snd (log (LogChatCreated (id chat)) w1)) = (Throw e, w2) ->
           Sdk.createDynamicChat options w =
             (Ok chat, snd (log (LogManualHint (id chat))
                              (snd (log (LogAutoDownloadFailed e) w2))))) /\
        exists o, outcome (on_create (service w) o) = Ok chat /\
                  co_chatPrivacy o = None /\
                  co_modelConfiguration o =
                    mkModelConfiguration (Sdk.modelId options) false (Sdk.thinking options)
                                         "sync"
    end.
Proof.
  intros options w.
  match goal with
  | |- context [Creator.createChat ?a ?b ?c ?d ?e ?f w] =>
      pose proof (createChat_frame a b c d e f w) as Hframe;
      assert (Hsent : forall chat w1,
                Creator.createChat a b c d e f w = (Ok chat, w1) ->
                exists o, outcome (on_create (service w) o) = Ok chat /\
                          co_chatPrivacy o = None /\ co_modelConfiguration o = d);
      [| destruct (Creator.createChat a b c d e f w) as [[chat | e0] w1] eqn:Ecreate]
  end.
  - intros chat w1. unfold Creator.createChat.
    destruct (Js.truthy (Sdk.prompt options)); cbn [negb]; [| intros H; discriminate H].
    unfold try_catch, chats_create, remote_call.
    match goal with
    | |- context [on_create (service w) ?o] =>
        set (opts := o); destruct (outcome (on_create (service w) opts)) eqn:Eout
    end.
    + intros H. injection H as <- _. exists opts. auto.
    + repeat break_match; intros H; discriminate H.
  - specialize (Hsent chat w1 eq_refl).
    split; [| split; [| exact Hsent]].
    + unfold Sdk.createDynamicChat. unfold try_catch at 1. unfold bind at 1.
      rewrite Ecreate. unfold bind, log, emit, ret, try_catch. cbn [fst snd].
      destruct (Sdk.autoDownload options); [| reflexivity].
      match goal with
      | |- context [if bool_decide ?c then ?a else ?b] =>
          destruct (if bool_decide c then a else b) as [[files | e] w2]
      end.
      * destruct (0 <? length files)%nat; reflexivity.
      * reflexivity.
    + intros e w2 Hauto Hdone Hdl.
      unfold Sdk.createDynamicChat. unfold try_catch at 1. unfold bind at 1.
      rewrite Ecreate. rewrite Hauto, (bool_decide_eq_true_2 _ Hdone).
      unfold bind, log, emit, ret, try_catch in *. cbn [fst snd] in *.
      rewrite Hdl. reflexivity.
  - cbn [fst snd] in Hframe. split; [| exact Hframe].
    unfold Sdk.createDynamicChat, try_catch. unfold bind at 1. rewrite Ecreate.
    reflexivity.
Qed.

Lemma sdk_download_failure_keeps_the_chat_witness :
  let w := world_of (scripted (Ok (chat_with "completed" [])) []
                              (Throw "socket hang up")) in
  fst (Sdk.createDynamicChat (Sdk.set_prompt (Some "Create a button") Sdk.defaults) w)
    = Ok (chat_with "completed" []) /\
  In (Console (LogAutoDownloadFailed "socket hang up"))
     (trace (snd (Sdk.createDynamicChat
                    (Sdk.set_prompt (Some "Create a button") Sdk.defaults) w))).
Proof.
  cbv zeta.
  pose proof (sdk_download_failure_keeps_the_chat
                (Sdk.set_prompt (Some "Create a button") Sdk.defaults)
                (world_of (scripted (Ok (chat_with "completed" [])) []
                                    (Throw "socket hang up")))) as H.
  destruct (Creator.createChat _ _ _ _ _ _ _) as [[chat | e] w1] eqn:Ecreate in H;
    [| vm_compute in Ecreate; discriminate Ecreate].
  destruct H as (_ & H & _).
  vm_compute in Ecreate. injection Ecreate as <- <-.
  erewrite H; [| reflexivity | reflexivity | vm_compute; reflexivity].
  vm_compute. split; [reflexivity | tauto].
Defined.

(** ** Validation in the entry blocks *)

Ltac exit_one :=
  unfold bind, ret, log, emit; cbn [fst snd fs trace];
  rewrite ?remote_calls_app; cbn [remote_calls];
  repeat split; try reflexivity; lia.

(** Each entry block refuses to start without an API key, and with a model
    or a privacy level outside the lists it accepts: the exit status is 1
    and the service has not been contacted nor a file touched. In the SDK
    script the key is checked before the [download] and [list] commands,
    the model and the privacy level only when neither is selected. *)
Theorem entry_blocks_validate_first :
  forall (V0_API_KEY : option string) (argv : list string) (w : World),
    (Js.truthy V0_API_KEY = false ->
     Enforced.main V0_API_KEY argv w = (Ok 1%Z, snd (log LogNoKey w)) /\
     Basic.main V0_API_KEY argv w = (Ok 1%Z, snd (log LogNoKey w)) /\
     Sdk.main V0_API_KEY argv w = (Ok 1%Z, snd (log LogNoKey w))) /\
    (Js.truthy V0_API_KEY = true ->
     (let o := Enforced.parseArgs argv in
      Enforced.help o = false ->
      Enforced.includes_value Enforced.validModels (Enforced.modelId o) = false \/
      Enforced.includes_value Enforced.validPrivacy (Enforced.privacy o) = false ->
      let run := Enforced.main V0_API_KEY argv w in
      fst run = Ok 1%Z /\ fs (snd run) = fs w /\
      remote_calls (trace (snd run)) = remote_calls (trace w)) /\
     (let o := Basic.parseArgs argv in
      Basic.help o = false ->
      Enforced.includes_value Enforced.validModels (Basic.modelId o) = false \/
      Enforced.includes_value Enforced.validPrivacy (Basic.privacy o) = false ->
      let run := Basic.main V0_API_KEY argv w in
      fst run = Ok 1%Z /\ fs (snd run) = fs w /\
      remote_calls (trace (snd run)) = remote_calls (trace w)) /\
     (let o := fst (Sdk.parse argv Sdk.defaults 0) in
      special_command argv = false ->
      Sdk.help o = false ->
      Enforced.includes_value Enforced.validModels (Sdk.modelId o) = false \/
      Enforced.includes_value Enforced.validPrivacy (Sdk.privacy o) = false ->
      let run := Sdk.main V0_API_KEY argv w in
      fst run = Ok 1%Z /\ fs (snd run) = fs w /\
      remote_calls (trace (snd run)) = remote_calls (trace w))).
Proof.
  intros key argv w. split.
  - intros Hkey. unfold Enforced.main, Basic.main, Sdk.main. rewrite Hkey. auto.
  - intros Hkey. split; [| split]; cbv zeta.
    + intros Hhelp Hbad. unfold Enforced.main. rewrite Hkey, Hhelp. cbn [negb].
      destruct (Js.truthy (Enforced.prompt (Enforced.parseArgs argv))); cbn [negb].
      * destruct (Enforced.includes_value Enforced.validModels _); cbn [negb].
        -- destruct Hbad as [Hbad | Hbad]; [discriminate Hbad |]. rewrite Hbad. cbn [negb].
           exit_one.
        -- exit_one.
      * exit_one.
    + intros Hhelp Hbad. unfold Basic.main. rewrite Hkey, Hhelp. cbn [negb].
      destruct (Js.truthy (Basic.prompt (Basic.parseArgs argv))); cbn [negb].
      * destruct (Enforced.includes_value Enforced.validModels _); cbn [negb].
        -- destruct Hbad as [Hbad | Hbad]; [discriminate Hbad |]. rewrite Hbad. cbn [negb].
           exit_one.
        -- exit_one.
      * exit_one.
    + intros Hspecial Hhelp Hbad. unfold special_command in Hspecial.
      apply orb_false_elim in Hspecial as [Hd Hl].
      assert (Hm : exists w2, Sdk.main key argv w = (Ok 1%Z, w2) /\ fs w2 = fs w /\
                              remote_calls (trace w2) = remote_calls (trace w)).
      { unfold Sdk.main. rewrite Hkey, Hd, Hl. cbn [negb].
        unfold bind at 1. unfold Sdk.parseArgs.
        destruct (Sdk.parse argv Sdk.defaults 0) as [o n]. cbn [fst snd] in *.
        destruct (warnings_run n w) as (w' & Hrun & Hcalls).
        assert (Hfs : fs w' = fs w).
        { clear - Hrun. revert w Hrun. induction n as [| n IH]; intros w Hrun.
          - cbn in Hrun. now injection Hrun as <-.
          - cbn [List.repeat for_of] in Hrun. unfold bind in Hrun.
            cbn [log emit fst snd] in Hrun. apply IH in Hrun. exact Hrun. }
        unfold bind at 1. rewrite Hrun. cbn [ret]. rewrite Hhelp. cbn [negb].
        rewrite <- Hfs, <- Hcalls.
        destruct (Js.truthy (Sdk.prompt o)); cbn [negb].
        * destruct (Enforced.includes_value Enforced.validModels _); cbn [negb].
          -- destruct Hbad as [Hbad | Hbad]; [discriminate Hbad |]. rewrite Hbad. cbn [negb].
             eexists. split; [reflexivity |]. exit_one.
          -- eexists. split; [reflexivity |]. exit_one.
        * eexists. split; [reflexivity |]. exit_one. }
      destruct Hm as (w2 & -> & Hfs & Hcalls). auto.
Qed.

Lemma entry_blocks_validate_first_witness :
  let run := Enforced.main (Some "v1:secret") ["Create a button"; "-m"; "gpt-4"]
               (world_of idle) in
  fst run = Ok 1%Z /\ fs (snd run) = fs (world_of idle) /\
  remote_calls (trace (snd run)) = remote_calls (trace (world_of idle)).
Proof.
  cbv zeta.
  destruct (entry_blocks_validate_first (Some "v1:secret")
              ["Create a button"; "-m"; "gpt-4"] (world_of idle)) as [_ H].
  destruct (H eq_refl) as (He & _).
  apply He; [reflexivity | left; reflexivity].
Defined.

(** ** [parseArgs] *)

Lemma parse_prompt_inv n :
  forall args o,
    length args <= n ->
    (forall a, In a args -> Enforced.is_flag a "--prompt" "-p" = false) ->
    (Js.truthy (Enforced.prompt o) = true ->
     Enforced.prompt (Enforced.parse args o) = Enforced.prompt o) /\
    (Js.truthy (Enforced.prompt o) = false ->
     Enforced.prompt (Enforced.parse args o) = Enforced.prompt o \/
     exists a, Enforced.prompt (Enforced.parse args o) = Some a /\ In a args /\
               Js.startsWith a "-" = false).
Proof.
  induction n as [| n IH]; intros args o Hlen Hflags.
  - destruct args; [cbn; auto | cbn in Hlen; lia].
  - destruct args as [| arg rest]; [cbn; auto |]. cbn in Hlen.
    assert (Harg : Enforced.is_flag arg "--prompt" "-p" = false) by (apply Hflags; now left).
    assert (Hrest : forall a, In a rest -> Enforced.is_flag a "--prompt" "-p" = false)
      by (intros a Ha; apply Hflags; now right).
    assert (Hgo : forall o', Enforced.prompt o' = Enforced.prompt o ->
              (Js.truthy (Enforced.prompt o) = true ->
               Enforced.prompt (Enforced.parse rest o') = Enforced.prompt o) /\
              (Js.truthy (Enforced.prompt o) = false ->
               Enforced.prompt (Enforced.parse rest o') = Enforced.prompt o \/
               exists a, Enforced.prompt (Enforced.parse rest o') = Some a /\
                         In a (arg :: rest) /\ Js.startsWith a "-" = false)).
    { intros o' Ho'. destruct (IH rest o' ltac:(lia) Hrest) as [H1 H2].
      rewrite Ho' in *. split; [exact H1 |].
      intros Hf. destruct (H2 Hf) as [H | (a & Ha & Hin & Hs)]; [now left |].
      right. exists a. split; [exact Ha | split; [now right | exact Hs]]. }
    assert (Hv : forall set_,
              (forall v o', Enforced.prompt (set_ v o') = Enforced.prompt o') ->
              let r := match rest with
                       | [] => set_ None o
                       | value :: rest' => Enforced.parse rest' (set_ (Some value) o)
                       end in
              (Js.truthy (Enforced.prompt o) = true -> Enforced.prompt r = Enforced.prompt o) /\
              (Js.truthy (Enforced.prompt o) = false ->
               Enforced.prompt r = Enforced.prompt o \/
               exists a, Enforced.prompt r = Some a /\ In a (arg :: rest) /\
                         Js.startsWith a "-" = false)).
    { intros set_ Hset. cbv zeta. destruct rest as [| value rest'].
      - rewrite Hset. auto.
      - destruct (IH rest' (set_ (Some value) o) ltac:(cbn in Hlen; lia)
                    ltac:(intros a Ha; apply Hrest; now right)) as [H1 H2].
        rewrite Hset in *. split; [exact H1 |].
        intros Hf. destruct (H2 Hf) as [H | (a & Ha & Hin & Hs)]; [now left |].
        right. exists a. split; [exact Ha | split; [right; now right | exact Hs]]. }
    cbn [Enforced.parse]. rewrite Harg.
    repeat match goal with
           | |- context [if Enforced.is_flag arg ?a ?b then _ else _] =>
               destruct (Enforced.is_flag arg a b)
           | |- context [if String.eqb arg ?a then _ else _] =>
               destruct (String.eqb arg a)
           end;
      try (apply Hv; intros; reflexivity);
      try (apply Hgo; reflexivity).
    destruct (Js.truthy (Enforced.prompt o)) eqn:Et; cbn [negb andb].
    + apply Hgo. reflexivity.
    + destruct (Js.startsWith arg "-") eqn:Es; cbn [negb]; [apply Hgo; reflexivity |].
      split; [intros H; discriminate H |]. intros _. right.
      destruct (IH rest (Enforced.set_prompt (Some arg) o) ltac:(lia) Hrest) as [H1 H2].
      cbn [Enforced.set_prompt Enforced.prompt] in H1, H2.
      destruct (Js.truthy (Some arg)) eqn:Ea.
      * exists arg. split; [apply H1; reflexivity | split; [now left | exact Es]].
      * destruct (H2 eq_refl) as [H | (a & Ha & Hin & Hs)].
        -- exists arg. split; [exact H | split; [now left | exact Es]].
        -- exists a. split; [exact Ha | split; [now right | exact Hs]].
Qed.

(** When no [--prompt] or [-p] is given, the prompt found by [parseArgs] is
    one of the arguments and does not start with a dash (or there is none):
    an unknown option is never taken for the prompt. And once a prompt is
    set, later arguments leave it as it is. *)
Theorem parseArgs_prompt_is_positional :
  forall (argv : list string) (o : Enforced.Options),
    (forall a, In a argv -> Enforced.is_flag a "--prompt" "-p" = false) ->
    (Enforced.prompt (Enforced.parseArgs argv) = Some "" \/
     exists a, Enforced.prompt (Enforced.parseArgs argv) = Some a /\ In a argv /\
               Js.startsWith a "-" = false) /\
    (Js.truthy (Enforced.prompt o) = true ->
     Enforced.prompt (Enforced.parse argv o) = Enforced.prompt o).
Proof.
  intros argv o Hflags. split.
  - destruct (parse_prompt_inv (length argv) argv Enforced.defaults (Nat.le_refl _) Hflags)
      as [_ H].
    unfold Enforced.parseArgs. destruct (H eq_refl) as [H' | H']; [left | right]; exact H'.
  - apply (parse_prompt_inv (length argv) argv o (Nat.le_refl _) Hflags).
Qed.

Lemma parseArgs_prompt_is_positional_witness :
  Enforced.prompt (Enforced.parseArgs ["--verbose"; "-m"; "v0-1.5-lg"; "Create a card"; "extra"])
    = Some "" \/
  exists a,
    Enforced.prompt (Enforced.parseArgs ["--verbose"; "-m"; "v0-1.5-lg"; "Create a card"; "extra"])
      = Some a /\
    In a ["--verbose"; "-m"; "v0-1.5-lg"; "Create a card"; "extra"] /\
    Js.startsWith a "-" = false.
Proof.
  apply (parseArgs_prompt_is_positional
           ["--verbose"; "-m"; "v0-1.5-lg"; "Create a card"; "extra"] Enforced.defaults).
  intros a Ha. cbn in Ha.
  repeat (destruct Ha as [<- | Ha]; [reflexivity |]). destruct Ha.
Defined.

Lemma sdk_parse_keeps_download n :
  forall args o warned,
    length args <= n ->
    Sdk.autoDownload o = true -> Sdk.forceDownload o = true ->
    Sdk.autoDownload (fst (Sdk.parse args o warned)) = true /\
    Sdk.forceDownload (fst (Sdk.parse args o warned)) = true.
Proof.
  induction n as [| n IH]; intros args o warned Hlen Ha Hf.
  - destruct args; [cbn; auto | cbn in Hlen; lia].
  - destruct args as [| arg rest]; [cbn; auto |]. cbn in Hlen.
    assert (Hv : forall set_,
              (forall v o', Sdk.autoDownload (set_ v o') = Sdk.autoDownload o' /\
                            Sdk.forceDownload (set_ v o') = Sdk.forceDownload o') ->
              let r := match rest with
                       | [] => (set_ None o, warned)
                       | value :: rest' => Sdk.parse rest' (set_ (Some value) o) warned
                       end in
              Sdk.autoDownload (fst r) = true /\ Sdk.forceDownload (fst r) = true).
    { intros set_ Hset. cbv zeta. destruct rest as [| value rest'].
      - cbn [fst]. destruct (Hset None o) as [-> ->]. auto.
      - destruct (Hset (Some value) o) as [H1 H2].
        apply IH; [cbn in Hlen; lia | congruence | congruence]. }
    cbn [Sdk.parse].
    repeat match goal with
           | |- context [if ?b then _ else _] => destruct b
           end;
      first [ apply Hv; intros v o'; split; reflexivity
            | apply IH; [lia | first [exact Ha | reflexivity] | first [exact Hf | reflexivity]] ].
Qed.

(** In the SDK script no argument list switches the download off:
    [parseArgs] always ends with [autoDownload] and [forceDownload] set,
    [--no-download] included, and prints its warning once per occurrence
    met. So [createDynamicChat] never takes its branch without download. *)
Theorem sdk_download_cannot_be_disabled :
  forall (argv : list string) (w : World),
  exists o w',
    Sdk.parseArgs argv w = (Ok o, w') /\
    Sdk.autoDownload o = true /\ Sdk.forceDownload o = true /\
    fs w' = fs w /\ remote_calls (trace w') = remote_calls (trace w).
Proof.
  intros argv w. unfold Sdk.parseArgs.
  destruct (sdk_parse_keeps_download (length argv) argv Sdk.defaults 0 (Nat.le_refl _)
              eq_refl eq_refl) as [Ha Hf].
  destruct (Sdk.parse argv Sdk.defaults 0) as [o n]. cbn [fst] in *.
  destruct (warnings_run n w) as (w' & Hrun & Hcalls).
  assert (Hfs : fs w' = fs w).
  { clear - Hrun. revert w Hrun. induction n as [| n IH]; intros w Hrun.
    - cbn in Hrun. now injection Hrun as <-.
    - cbn [List.repeat for_of] in Hrun. unfold bind in Hrun.
      cbn [log emit fst snd] in Hrun. apply IH in Hrun. exact Hrun. }
  exists o, w'. unfold bind. rewrite Hrun. auto.
Qed.

(** ** What a download fetches and returns *)

Section Offline.

Lemma offline_ret {A} (a : A) : offline (ret a).
Proof. intros w. split; reflexivity. Qed.

Lemma offline_throw {A} msg : offline (@throw World A msg).
Proof. intros w. split; reflexivity. Qed.

Lemma offline_bind {A B} (m : M A) (k : A -> M B) :
  offline m -> (forall a, offline (k a)) -> offline (bind m k).
Proof.
  intros Hm Hk w. unfold bind. specialize (Hm w).
  destruct (m w) as [[a | e] w1]; cbn [snd] in *; [| exact Hm].
  destruct (Hk a w1) as [H1 H2]. destruct Hm as [H3 H4]. split; congruence.
Qed.

Lemma offline_try_catch {A} (m : M A) (h : string -> M A) :
  offline m -> (forall e, offline (h e)) -> offline (try_catch m h).
Proof.
  intros Hm Hh w. unfold try_catch. specialize (Hm w).
  destruct (m w) as [[a | e] w1]; cbn [snd] in *; [exact Hm |].
  destruct (Hh e w1) as [H1 H2]. destruct Hm as [H3 H4]. split; congruence.
Qed.

Lemma offline_for_of {A} (body : A -> M unit) l :
  (forall x, offline (body x)) -> offline (for_of body l).
Proof.
  intros Hb. induction l as [| x l IH]; cbn [for_of].
  - apply offline_ret.
  - apply offline_bind; [apply Hb | intros _; exact IH].
Qed.

Lemma offline_log l : offline (log l).
Proof. intros w. cbn. rewrite remote_calls_app. cbn. split; [reflexivity | lia]. Qed.

Lemma offline_sleep ms : offline (sleep ms).
Proof. intros w. cbn. rewrite remote_calls_app. cbn. split; [reflexivity | lia]. Qed.

Lemma offline_now : offline now.
Proof. intros w. split; reflexivity. Qed.

Lemma offline_process_cwd : offline process_cwd.
Proof. intros w. split; reflexivity. Qed.

Lemma offline_existsSync p : offline (existsSync p).
Proof. intros w. split; reflexivity. Qed.

Lemma offline_mkdirSync p : offline (mkdirSync p).
Proof. intros w. unfold mkdirSync. destruct (mkdir_from _ _ _); split; reflexivity. Qed.

Lemma offline_writeFileSync p d : offline (writeFileSync p d).
Proof. intros w. unfold writeFileSync. repeat break_match; split; reflexivity. Qed.

Lemma offline_readFileSync p : offline (readFileSync p).
Proof. intros w. unfold readFileSync. repeat break_match; split; reflexivity. Qed.

End Offline.

Ltac offline_step :=
  first
    [ apply offline_ret
    | apply offline_throw
    | apply offline_log
    | apply offline_sleep
    | apply offline_now
    | apply offline_process_cwd
    | apply offline_existsSync
    | apply offline_mkdirSync
    | apply offline_writeFileSync
    | apply offline_readFileSync
    | apply offline_for_of; intros
    | apply offline_bind; [| intros]
    | apply offline_try_catch; [| intros]
    | match goal with
      | |- offline (if ?b then _ else _) => destruct b
      | |- offline (match ?x with _ => _ end) => destruct x
      | |- offline (let (_, _) := ?x in _) => destruct x
      end ].

Ltac stays_offline := repeat offline_step.

Lemma offline_ensureBackendIntegration l d : offline (Backend.ensureBackendIntegration l d).
Proof.
  unfold Backend.ensureBackendIntegration, Backend.validateApiContracts,
    Backend.validateEnvironmentVariables, Backend.fixImportPaths, Backend.fix_one,
    Backend.validateTypeScriptInterfaces, Backend.ensureMiddlewareIntegration,
    Backend.createMiddlewareFile, Backend.createEnvTemplate, Backend.generateApiHelpers.
  stays_offline.
Qed.

Lemma offline_save_each d l : forall i saved, offline (Creator.save_each d l i saved).
Proof.
  induction l as [| f l IH]; intros i saved; cbn [Creator.save_each].
  - stays_offline.
  - apply offline_bind; [| intros; apply IH].
    unfold Creator.save_one. stays_offline.
Qed.

Lemma offline_createIndexFile d saved : offline (Creator.createIndexFile d saved).
Proof. unfold Creator.createIndexFile. stays_offline. Qed.

Lemma getChat_calls chatId w :
  gets (snd (Creator.getChat chatId w)) = S (gets w) /\
  remote_calls (trace (snd (Creator.getChat chatId w))) = S (remote_calls (trace w)).
Proof.
  unfold Creator.getChat, try_catch, bind, log, emit, chats_getById, remote_call, throw.
  cbn [fst snd].
  destruct (outcome _); cbn [fst snd gets trace]; rewrite !remote_calls_app; cbn; split; lia.
Qed.

(** One call of [downloadGeneratedCode] costs exactly one request to the
    service, whatever the chat holds and whether the call returns or
    throws: saving the files, writing the index file and the backend
    integration step all stay on this machine. When that request fails the
    call throws the same error and has written nothing. *)
Theorem download_makes_one_request :
  forall (chatId dir : string) (w : World),
    let sdk := Sdk.downloadGeneratedCode chatId dir w in
    let enforced := Enforced.downloadGeneratedCode chatId dir w in
    gets (snd sdk) = S (gets w) /\
    remote_calls (trace (snd sdk)) = S (remote_calls (trace w)) /\
    gets (snd enforced) = S (gets w) /\
    remote_calls (trace (snd enforced)) = S (remote_calls (trace w)) /\
    (forall e, fetched w chatId = Throw e ->
               fst sdk = Throw e /\ fs (snd sdk) = fs w /\
               fst enforced = Throw e /\ fs (snd enforced) = fs w).
Proof.
  intros chatId dir w. cbv zeta.
  assert (Hone : forall after, (forall l d, offline (after l d)) ->
            exists r w',
              Creator.downloadGeneratedCode after chatId dir w = (r, w') /\
              gets w' = S (gets w) /\
              remote_calls (trace w') = S (remote_calls (trace w)) /\
              (forall e, fetched w chatId = Throw e -> r = Throw e /\ fs w' = fs w)).
  { intros after Hafter.
    unfold Creator.downloadGeneratedCode, try_catch.
    unfold bind at 1. unfold log at 1, emit. cbn [fst snd].
    unfold bind at 1.
    match goal with
    | |- context [Creator.getChat chatId ?w0] =>
        destruct (getChat_calls chatId w0) as [Hg Hc];
        destruct (getChat_run chatId w0) as [Hr Hf];
        destruct (Creator.getChat chatId w0) as [[chat | e0] w1]
    end; cbn [fst snd gets trace fs] in *;
      rewrite remote_calls_app in Hc; cbn in Hc; rewrite Nat.add_0_r in Hc;
      unfold fetched in *; cbn [service gets] in Hr.
    - match goal with
      | |- context [match ?m w1 with _ => _ end] =>
          assert (Hoff : offline m)
      end.
      { destruct (Creator.generated_files chat) as [| f fl]; [stays_offline |].
        apply offline_bind; [stays_offline |]. intros found.
        apply offline_bind; [stays_offline |]. intros _.
        apply offline_bind; [apply offline_save_each |]. intros saved.
        apply offline_bind; [| stays_offline].
        destruct (0 <? length saved)%nat; [| stays_offline].
        apply offline_bind; [stays_offline |]. intros _.
        apply offline_bind; [apply offline_createIndexFile |]. intros _.
        apply Hafter. }
      match goal with
      | |- context [match ?m w1 with _ => _ end] =>
          destruct (Hoff w1) as [H1 H2]; destruct (m w1) as [[saved | e] w2]
      end; cbn [fst snd] in *.
      + eexists _, _. split; [reflexivity |].
        split; [congruence | split; [congruence |]].
        intros e He. congruence.
      + unfold bind, log, emit, throw. cbn [fst snd].
        eexists _, _. split; [reflexivity |]. cbn [gets trace].
        rewrite remote_calls_app. cbn. rewrite Nat.add_0_r.
        split; [congruence | split; [congruence |]].
        intros e' He. congruence.
    - unfold bind, log, emit, throw. cbn [fst snd].
      eexists _, _. split; [reflexivity |]. cbn [gets trace fs].
      rewrite remote_calls_app. cbn. rewrite Nat.add_0_r.
      split; [congruence | split; [congruence |]].
      intros e He. split; [congruence | exact Hf]. }
  destruct (Hone (fun _ _ => ret tt) ltac:(intros; apply offline_ret))
    as (r1 & w1 & E1 & H1 & H2 & H3).
  destruct (Hone Backend.ensureBackendIntegration offline_ensureBackendIntegration)
    as (r2 & w2 & E2 & H4 & H5 & H6).
  unfold Sdk.downloadGeneratedCode, Enforced.downloadGeneratedCode.
  rewrite E1, E2. cbn [fst snd].
  split; [exact H1 | split; [exact H2 | split; [exact H4 | split; [exact H5 |]]]].
  intros e He. destruct (H3 e He) as [? ?]. destruct (H6 e He) as [? ?]. auto.
Qed.

Lemma download_makes_one_request_witness :
  fst (Sdk.downloadGeneratedCode "abc123" "./out"
         (world_of (scripted (Throw "x") [] (Throw "socket hang up"))))
    = Throw "socket hang up".
Proof.
  destruct (download_makes_one_request "abc123" "./out"
              (world_of (scripted (Throw "x") [] (Throw "socket hang up"))))
    as (_ & _ & _ & _ & H).
  destruct (H "socket hang up" eq_refl) as (H1 & _). exact H1.
Defined.

Lemma save_one_kept d file i acc w :
  skipped file = false ->
  forall saved w', Creator.save_one d file i acc w = (Ok saved, w') ->
                   saved = (acc ++ [kept_path d file])%list.
Proof.
  unfold skipped, Creator.save_one, kept_path. intros Hk saved w'.
  destruct (Creator.pick file) as [fileName fileContent]. cbn [fst snd] in *.
  apply negb_false_iff in Hk. rewrite Hk.
  unfold bind, existsSync, log, emit, ret. cbn [fst snd].
  repeat (break_match; cbn [fst snd negb]); intros H; try discriminate H;
    injection H as <- _; reflexivity.
Qed.

Lemma save_each_kept d files :
  forall i acc w saved w',
    Creator.save_each d files i acc w = (Ok saved, w') ->
    saved = (acc ++ List.map (kept_path d) (kept files))%list.
Proof.
  induction files as [| file files IH]; intros i acc w saved w'; cbn [Creator.save_each].
  - intros H. injection H as <- _. cbn. now rewrite app_nil_r.
  - unfold bind.
    destruct (Creator.save_one d file i acc w) as [[saved1 | e] w1] eqn:Eone;
      [| intros H; discriminate H].
    intros Hrest. apply IH in Hrest. unfold kept in *. cbn [List.filter].
    destruct (skipped file) eqn:Es; cbn [negb].
    + rewrite (save_one_skipped _ _ _ _ _ Es) in Eone. injection Eone as <- _. exact Hrest.
    + rewrite (save_one_kept _ _ _ _ _ Es _ _ Eone) in Hrest.
      cbn [List.map]. rewrite Hrest, <- app_assoc. reflexivity.
Qed.

(** The list a download returns names exactly the entries of the fetched
    chat that were not skipped, in the order of the chat, each under the
    destination root joined with its name, in both scripts. *)
Theorem download_returns_kept_entries :
  forall (after : list string -> string -> M unit) (chatId dir : string) (w : World)
         (chat : Chat) (saved : list string) (w' : World),
    fetched w chatId = Ok chat ->
    Creator.downloadGeneratedCode after chatId dir w = (Ok saved, w') ->
    saved = List.map (kept_path dir) (kept (Creator.generated_files chat)) /\
    length saved <= length (Creator.generated_files chat).
Proof.
  intros after chatId dir w chat saved w' Hfetch.
  assert (Hlen : length (List.map (kept_path dir) (kept (Creator.generated_files chat)))
                 <= length (Creator.generated_files chat)).
  { rewrite length_map. unfold kept. apply List.filter_length_le. }
  intros Hrun.
  enough (Heq : saved = List.map (kept_path dir) (kept (Creator.generated_files chat)))
    by (split; [exact Heq | rewrite Heq; exact Hlen]).
  clear Hlen. revert Hrun.
  unfold Creator.downloadGeneratedCode, try_catch.
  unfold bind at 1. unfold log at 1, emit. cbn [fst snd].
  unfold bind at 1.
  match goal with
  | |- context [Creator.getChat chatId ?w0] =>
      destruct (getChat_run chatId w0) as [Hr _];
      destruct (Creator.getChat chatId w0) as [[chat' | e0] w1]
  end; cbn [fst snd] in *; unfold fetched in *; cbn [service gets] in Hr.
  2:{ unfold bind, log, emit, throw. cbn [fst snd]. intros H. discriminate H. }
  assert (chat' = chat) by congruence. subst chat'.
  destruct (Creator.generated_files chat) as [| f fl] eqn:Efiles.
  - unfold bind, log, emit, ret. cbn [fst snd]. intros H. injection H as <- _. reflexivity.
  - unfold bind at 1.
    destruct (existsSync dir w1) as [[found | e] w2]; [| cbn; intros H; discriminate H].
    unfold bind at 1.
    match goal with
    | |- context [match ?m w2 with _ => _ end] => destruct (m w2) as [[[] | e] w3]
    end; [| cbn; intros H; discriminate H].
    unfold bind at 1.
    destruct (Creator.save_each dir (f :: fl) 0 [] w3) as [[saved1 | e] w4] eqn:Eeach;
      [| cbn; intros H; discriminate H].
    apply save_each_kept in Eeach. cbn [app] in Eeach.
    unfold bind at 1.
    match goal with
    | |- context [match ?m w4 with _ => _ end] => destruct (m w4) as [[[] | e] w5]
    end; [| cbn; intros H; discriminate H].
    cbn. intros H. injection H as <- _. exact Eeach.
Qed.

Lemma download_returns_kept_entries_witness :
  let files := [entry "Button.tsx" "export default 1"; entry "empty.ts" "";
                mkFileObj None None (Some "lib/util.ts") (Some "x")] in
  fst (Sdk.downloadGeneratedCode "abc123" "./out" (world_of (steady (chat_with "completed" files))))
    = Ok ["out/Button.tsx"; "out/lib/util.ts"].
Proof.
  cbv zeta.
  destruct (Sdk.downloadGeneratedCode "abc123" "./out"
              (world_of (steady (chat_with "completed"
                 [entry "Button.tsx" "export default 1"; entry "empty.ts" "";
                  mkFileObj None None (Some "lib/util.ts") (Some "x")]))))
    as [[saved | e] w'] eqn:Erun.
  - destruct (download_returns_kept_entries (fun _ _ => ret tt) "abc123" "./out"
                (world_of (steady (chat_with "completed"
                   [entry "Button.tsx" "export default 1"; entry "empty.ts" "";
                    mkFileObj None None (Some "lib/util.ts") (Some "x")])))
                (chat_with "completed"
                   [entry "Button.tsx" "export default 1"; entry "empty.ts" "";
                    mkFileObj None None (Some "lib/util.ts") (Some "x")])
                saved w' eq_refl Erun) as [-> _].
    vm_compute. reflexivity.
  - vm_compute in Erun. discriminate Erun.
Defined.

(** ** Paths: splitting, joining and normalising *)

Lemma append_nil_l s : "" ++ s = s.
Proof. reflexivity. Qed.


Lemma split_cons c p :
  Path.split (String c p) =
    match Path.split p with
    | seg :: rest =>
        if Ascii.eqb c Path.slash then "" :: seg :: rest else String c seg :: rest
    | [] => [String c ""]
    end.
Proof. reflexivity. Qed.

Lemma split_not_nil p : Path.split p <> [].
Proof.
  destruct p as [| c p]; [discriminate |]. rewrite split_cons.
  destruct (Path.split p); [discriminate |]. destruct (Ascii.eqb c Path.slash); discriminate.
Qed.

(** Splitting is a morphism: a slash between two strings separates their
    segments. *)
Lemma split_app a b :
  Path.split (a ++ "/" ++ b) = (Path.split a ++ Path.split b)%list.
Proof.
  induction a as [| c a IH].
  - change ("" ++ "/" ++ b) with (String Path.slash b). rewrite split_cons.
    pose proof (split_not_nil b). destruct (Path.split b); [congruence | reflexivity].
  - rewrite append_cons, !split_cons, IH.
    pose proof (split_not_nil a). destruct (Path.split a) as [| s r]; [congruence |].
    cbn [app]. destruct (Ascii.eqb c Path.slash); reflexivity.
Qed.

Lemma split_no_slash s : no_slash s = true -> Path.split s = [s].
Proof.
  induction s as [| c s IH]; [reflexivity |]. cbn [no_slash].
  intros H. apply andb_prop in H as [Hc Hs]. rewrite split_cons, (IH Hs).
  apply negb_true_iff in Hc. now rewrite Hc.
Qed.

Lemma split_segments p : Forall (fun s => no_slash s = true) (Path.split p).
Proof.
  induction p as [| c p IH]; [repeat constructor |]. rewrite split_cons.
  pose proof (split_not_nil p). destruct (Path.split p) as [| s r]; [congruence |].
  apply Forall_cons in IH as [Hs Hr].
  destruct (Ascii.eqb c Path.slash) eqn:E.
  - repeat constructor; assumption.
  - constructor; [cbn; now rewrite E, Hs | assumption].
Qed.

Lemma normalize_segs_walk a segs :
  forall st, Path.normalize_segs a st segs = rev (walk a st segs).
Proof.
  induction segs as [| seg rest IH]; intros st; cbn [Path.normalize_segs walk].
  - reflexivity.
  - repeat break_match; apply IH.
Qed.

Lemma walk_app a l1 l2 :
  forall st, walk a st (l1 ++ l2) = walk a (walk a st l1) l2.
Proof.
  induction l1 as [| seg rest IH]; intros st; cbn [app walk].
  - reflexivity.
  - repeat break_match; apply IH.
Qed.

Lemma proper_cases seg :
  proper seg = true ->
  String.eqb seg "" || String.eqb seg "." = false /\ String.eqb seg ".." = false.
Proof.
  unfold proper. intros H. apply negb_true_iff in H.
  apply orb_false_elim in H as [H1 H2]. auto.
Qed.

Lemma walk_proper a seg st : proper seg = true -> walk a st [seg] = seg :: st.
Proof. intros H. destruct (proper_cases _ H) as [H1 H2]. cbn [walk]. now rewrite H1, H2. Qed.

(** Segments without [..] only ever go down. *)
Lemma walk_down a segs :
  Forall (fun s => s <> "..") segs ->
  forall st, walk a st segs = (rev (List.filter proper segs) ++ st)%list.
Proof.
  induction segs as [| seg rest IH]; intros Hall st; cbn [walk List.filter].
  - reflexivity.
  - apply Forall_cons in Hall as [Hseg Hrest]. unfold proper.
    destruct (String.eqb_spec seg ".."); [contradiction |].
    destruct (String.eqb seg "" || String.eqb seg ".") eqn:E1; cbn [orb negb].
    + now apply IH.
    + rewrite (IH Hrest). cbn [rev]. now rewrite <- app_assoc.
Qed.

Lemma walk_false_proper segs :
  forall st, Forall (fun s => proper s = true) st ->
             Forall (fun s => proper s = true) (walk false st segs).
Proof.
  induction segs as [| seg rest IH]; intros st Hst; cbn [walk]; [exact Hst |].
  destruct (String.eqb seg "" || String.eqb seg ".") eqn:E1; [now apply IH |].
  destruct (String.eqb seg "..") eqn:E2.
  - destruct st as [| top st']; [now apply IH |].
    apply Forall_cons in Hst as [Htop Hst'].
    destruct (String.eqb top ".."); apply IH; [constructor |]; assumption.
  - apply IH. constructor; [| exact Hst]. unfold proper. now rewrite E1, E2.
Qed.

Lemma walk_cons a st seg rest : walk a st (seg :: rest) = walk a (walk a st [seg]) rest.
Proof. apply (walk_app a [seg] rest). Qed.

Lemma walk_true_tidy seg t : tidy t -> tidy (walk true t [seg]).
Proof.
  intros Ht. cbn [walk].
  destruct (String.eqb seg "" || String.eqb seg ".") eqn:E1; [exact Ht |].
  destruct (String.eqb seg "..") eqn:E2.
  - destruct t as [| top t']; [repeat constructor; now left |].
    destruct (String.eqb top ".."); [constructor; [now left | exact Ht] |].
    now apply Forall_cons in Ht as [_ Ht'].
  - constructor; [right; unfold proper; now rewrite E1, E2 | exact Ht].
Qed.

Lemma walk_normalised_step seg t b :
  tidy t ->
  walk false b (rev (walk true t [seg])) = walk false (walk false b (rev t)) [seg].
Proof.
  intros Ht.
  destruct (String.eqb seg "" || String.eqb seg ".") eqn:E1.
  { cbn [walk]. rewrite E1. reflexivity. }
  destruct (String.eqb seg "..") eqn:E2.
  - apply String.eqb_eq in E2. subst seg.
    destruct t as [| top t']; [reflexivity |].
    apply Forall_cons in Ht as [Htop Ht'].
    destruct (String.eqb_spec top "..") as [-> | Hne].
    + change (walk true (".." :: t') [".."]) with (".." :: ".." :: t').
      change (rev (".." :: ".." :: t')) with (rev (".." :: t') ++ [".."])%list.
      apply walk_app.
    + destruct Htop as [-> | Htop]; [contradiction |].
      assert (Hstep : walk true (top :: t') [".."] = t').
      { cbn [walk]. cbn [String.eqb Ascii.eqb orb].
        destruct (String.eqb_spec top ".."); [contradiction | reflexivity]. }
      rewrite Hstep. cbn [rev]. rewrite walk_app, (walk_proper _ _ _ Htop).
      cbn [walk]. cbn [String.eqb Ascii.eqb orb].
      destruct (String.eqb_spec top ".."); [contradiction | reflexivity].
  - assert (Hp : proper seg = true) by (unfold proper; now rewrite E1, E2).
    rewrite (walk_proper _ _ _ Hp). cbn [rev]. apply walk_app.
Qed.

(** Resolving a normalised relative path against a base gives what
    resolving the path itself gives. *)
Lemma walk_normalised segs :
  forall t b,
    tidy t ->
    walk false b (rev (walk true t segs)) = walk false (walk false b (rev t)) segs.
Proof.
  induction segs as [| seg rest IH]; intros t b Ht; [reflexivity |].
  rewrite (walk_cons true), (walk_cons false).
  rewrite IH by now apply walk_true_tidy.
  now rewrite walk_normalised_step.
Qed.

Lemma walk_idempotent segs :
  walk false [] (rev (walk false [] segs)) = walk false [] segs.
Proof.
  pose proof (walk_false_proper segs [] ltac:(constructor)) as Hp.
  rewrite walk_down.
  - rewrite app_nil_r. rewrite forallb_filter_id, rev_involutive; [reflexivity |].
    apply forallb_forall. intros s Hs. apply in_rev in Hs.
    rewrite Forall_forall in Hp. apply Hp. now apply list_elem_of_In.
  - apply Forall_forall. intros s Hs He. subst s.
    rewrite Forall_forall in Hp. apply list_elem_of_In, in_rev, list_elem_of_In, Hp in Hs.
    discriminate Hs.
Qed.

Lemma join_cons x y l : Js.join "/" (x :: y :: l) = x ++ "/" ++ Js.join "/" (y :: l).
Proof. reflexivity. Qed.

Lemma split_join l :
  l <> [] -> Forall (fun s => no_slash s = true) l -> Path.split (Js.join "/" l) = l.
Proof.
  induction l as [| x l IH]; [congruence |]. intros _ Hall.
  apply Forall_cons in Hall as [Hx Hl].
  destruct l as [| y l]; [now apply split_no_slash |].
  rewrite join_cons, split_app, (split_no_slash _ Hx), IH; [reflexivity | discriminate | exact Hl].
Qed.

Lemma walk_no_slash a segs :
  forall st, Forall (fun s => no_slash s = true) st ->
             Forall (fun s => no_slash s = true) segs ->
             Forall (fun s => no_slash s = true) (walk a st segs).
Proof.
  induction segs as [| seg rest IH]; intros st Hst Hsegs; cbn [walk]; [exact Hst |].
  apply Forall_cons in Hsegs as [Hseg Hrest].
  destruct (String.eqb seg "" || String.eqb seg "."); [now apply IH |].
  destruct (String.eqb seg "..").
  - destruct st as [| top st'].
    + apply IH; [| exact Hrest]. destruct a; repeat constructor.
    + destruct (String.eqb top "..").
      * apply IH; [| exact Hrest]. destruct a; [constructor; [reflexivity |] |]; exact Hst.
      * apply IH; [| exact Hrest]. now apply Forall_cons in Hst as [_ Hst'].
  - apply IH; [constructor |]; assumption.
Qed.

Lemma tidy_head_not_empty x l : tidy (x :: l) -> exists c x', x = String c x'.
Proof.
  intros H. apply Forall_cons in H as [[-> | Hx] _]; [eexists _, _; reflexivity |].
  destruct x as [| c x']; [discriminate Hx | eexists _, _; reflexivity].
Qed.

Lemma join_head c x l : exists s, Js.join "/" (String c x :: l) = String c s.
Proof.
  destruct l as [| y l]; [eexists; reflexivity |].
  rewrite join_cons, append_cons. eexists; reflexivity.
Qed.

Lemma walk_true_all_tidy segs : forall t, tidy t -> tidy (walk true t segs).
Proof.
  induction segs as [| seg rest IH]; intros t Ht; [exact Ht |].
  rewrite walk_cons. apply IH. now apply walk_true_tidy.
Qed.

Lemma proper_tidy l : Forall (fun s => proper s = true) l -> tidy l.
Proof. intros H. eapply Forall_impl; [exact H |]. cbn. auto. Qed.

Lemma tidy_rev l : tidy l -> tidy (rev l).
Proof.
  unfold tidy. rewrite !Forall_forall. intros H s Hs.
  apply H. apply list_elem_of_In. apply list_elem_of_In in Hs. now apply in_rev.
Qed.

Lemma no_slash_rev l :
  Forall (fun s => no_slash s = true) l -> Forall (fun s => no_slash s = true) (rev l).
Proof.
  rewrite !Forall_forall. intros H s Hs.
  apply H. apply list_elem_of_In. apply list_elem_of_In in Hs. now apply in_rev.
Qed.

Lemma endsWith_slash_cases b : 
  Js.endsWith b "/" = true \/ Js.endsWith b "/" = false.
Proof. destruct (Js.endsWith b "/"); auto. Qed.

(** What [Path.normalize] writes for a tidy list of segments, split again:
    the segments, between empty ones. *)
Lemma split_decorated (abs trailing : bool) out :
  out <> [] -> tidy out -> Forall (fun s => no_slash s = true) out ->
  let text := (if abs then "/" else "") ++ Js.join "/" out ++ (if trailing then "/" else "") in
  Path.split text =
    ((if abs then [""] else []) ++ out ++ (if trailing then [""] else []))%list /\
  Js.startsWith text "/" = abs /\
  text <> "".
Proof.
  intros Hne Ht Hns. cbv zeta.
  assert (Hbody : Path.split (Js.join "/" out ++ (if trailing then "/" else ""))
                  = (out ++ (if trailing then [""] else []))%list).
  { destruct trailing.
    - change "/" with ("/" ++ ""). rewrite split_app, split_join by assumption. reflexivity.
    - rewrite append_empty_r, app_nil_r. now apply split_join. }
  destruct out as [| x out']; [congruence |].
  destruct (tidy_head_not_empty _ _ Ht) as (c & x' & ->).
  destruct (join_head c x' out') as (s & Hs).
  assert (Hc : Ascii.eqb c Path.slash = false).
  { apply Forall_cons in Hns as [Hx _]. cbn in Hx. apply andb_prop in Hx as [Hx _].
    now apply negb_true_iff in Hx. }
  destruct abs.
  - split; [| split].
    + change ("/" ++ Js.join "/" (String c x' :: out') ++ (if trailing then "/" else ""))
        with ("" ++ "/" ++ (Js.join "/" (String c x' :: out') ++ (if trailing then "/" else ""))).
      rewrite split_app, Hbody. reflexivity.
    + rewrite append_cons. cbn [Js.startsWith]. rewrite Ascii.eqb_refl. apply startsWith_empty.
    + rewrite append_cons. discriminate.
  - rewrite append_nil_l. split; [exact Hbody | split].
    + rewrite Hs, append_cons. cbn [Js.startsWith]. unfold Path.slash in Hc. now rewrite Hc.
    + rewrite Hs, append_cons. discriminate.
Qed.

Lemma walk_skip_empty a st l (pre post : bool) :
  walk a st ((if pre then [""] else []) ++ l ++ (if post then [""] else [])) = walk a st l.
Proof.
  rewrite !walk_app. destruct pre, post; reflexivity.
Qed.

Lemma join_empty_nil out : tidy out -> Js.join "/" out = "" -> out = [].
Proof.
  intros Ht H. destruct out as [| x out']; [reflexivity |].
  destruct (tidy_head_not_empty _ _ Ht) as (c & x' & ->).
  destruct (join_head c x' out') as (s & Hs). rewrite Hs in H. discriminate H.
Qed.

(** Normalising a path does not change where it leads. *)
Lemma resolve_normalize cwd p :
  Path.resolve cwd (Path.normalize p) = Path.resolve cwd p.
Proof.
  unfold Path.normalize.
  destruct (String.eqb_spec p "") as [-> | Hp]; [reflexivity |].
  cbv zeta. rewrite normalize_segs_walk.
  destruct (Js.startsWith p "/") eqn:Eabs; cbn [negb].
  - assert (Hout : Forall (fun s => proper s = true) (walk false [] (Path.split p)))
      by (apply walk_false_proper; constructor).
    assert (Hns : Forall (fun s => no_slash s = true) (rev (walk false [] (Path.split p))))
      by (apply no_slash_rev, walk_no_slash; [constructor | apply split_segments]).
    assert (Ht : tidy (rev (walk false [] (Path.split p))))
      by (apply tidy_rev, proper_tidy, Hout).
    destruct (String.eqb_spec (Js.join "/" (rev (walk false [] (Path.split p)))) "") as [E | E].
    + apply join_empty_nil in E; [| exact Ht].
      unfold Path.resolve. rewrite Eabs. cbn [Js.startsWith Ascii.eqb Bool.eqb].
      rewrite !normalize_segs_walk.
      change (walk false [] (Path.split "/")) with (@nil string).
      apply (f_equal (@rev string)) in E. rewrite rev_involutive in E. now rewrite E.
    + assert (Hne : rev (walk false [] (Path.split p)) <> [])
        by (intros H; rewrite H in E; now apply E).
      destruct (split_decorated true (Js.endsWith p "/") _ Hne Ht Hns) as (Hsplit & Hstart & _).
      cbv zeta in Hsplit, Hstart.
      unfold Path.resolve. rewrite Hstart, Eabs, !normalize_segs_walk, Hsplit.
      rewrite (walk_skip_empty false [] _ true (Js.endsWith p "/")).
      now rewrite walk_idempotent.
  - assert (Ht : tidy (rev (walk true [] (Path.split p))))
      by (apply tidy_rev, walk_true_all_tidy; constructor).
    assert (Hns : Forall (fun s => no_slash s = true) (rev (walk true [] (Path.split p))))
      by (apply no_slash_rev, walk_no_slash; [constructor | apply split_segments]).
    pose proof (walk_normalised (Path.split p) [] (rev cwd) ltac:(constructor)) as Hsim.
    cbn [rev walk] in Hsim.
    destruct (String.eqb_spec (Js.join "/" (rev (walk true [] (Path.split p)))) "") as [E | E].
    + apply join_empty_nil in E; [| exact Ht].
      rewrite E in Hsim. cbn [walk] in Hsim.
      unfold Path.resolve at 2. rewrite Eabs, normalize_segs_walk, <- Hsim.
      destruct (Js.endsWith p "/"); reflexivity.
    + assert (Hne : rev (walk true [] (Path.split p)) <> [])
        by (intros H; rewrite H in E; now apply E).
      destruct (split_decorated false (Js.endsWith p "/") _ Hne Ht Hns) as (Hsplit & Hstart & _).
      cbv zeta in Hsplit, Hstart.
      unfold Path.resolve. rewrite Hstart, Eabs, !normalize_segs_walk, Hsplit.
      rewrite (walk_skip_empty false _ _ false (Js.endsWith p "/")).
      now rewrite Hsim.
Qed.

Lemma startsWith_app_slash d s : d <> "" -> Js.startsWith (d ++ s) "/" = Js.startsWith d "/".
Proof.
  destruct d as [| c d]; [congruence |]. intros _. rewrite append_cons.
  cbn [Js.startsWith]. destruct (Ascii.eqb c "/"); [| reflexivity].
  now rewrite !startsWith_empty.
Qed.

(** Where [path.join(d, n)] leads: from where [d] leads, along the
    segments of [n]. *)
Lemma resolve_join cwd d n :
  d <> "" -> n <> "" ->
  Path.resolve cwd (Path.join [d; n]) =
    rev (walk false (rev (Path.resolve cwd d)) (Path.split n)).
Proof.
  intros Hd Hn. unfold Path.join. cbn [List.filter].
  destruct (String.eqb_spec d ""); [contradiction |].
  destruct (String.eqb_spec n ""); [contradiction |]. cbn [negb].
  rewrite resolve_normalize.
  change (Js.join "/" [d; n]) with (d ++ "/" ++ n).
  unfold Path.resolve. rewrite (startsWith_app_slash d _ Hd), split_app.
  destruct (Js.startsWith d "/"); rewrite !normalize_segs_walk, walk_app, rev_involutive;
    reflexivity.
Qed.

(** A name without [..] leads below the directory it is joined to. *)
Lemma resolve_join_down cwd d n :
  d <> "" -> n <> "" ->
  Forall (fun s => s <> "..") (Path.split n) ->
  Path.resolve cwd (Path.join [d; n]) =
    (Path.resolve cwd d ++ List.filter proper (Path.split n))%list.
Proof.
  intros Hd Hn Hdown. rewrite (resolve_join _ _ _ Hd Hn), (walk_down _ _ Hdown).
  now rewrite rev_app_distr, !rev_involutive.
Qed.

Lemma mkdirSync_failed p w e w' : mkdirSync p w = (Throw e, w') -> w' = w.
Proof.
  unfold mkdirSync. destruct (mkdir_from _ _ _); intros H; [discriminate H |].
  now injection H as _ <-.
Qed.

Lemma save_one_frame d file i acc w :
  cwd (fs (snd (Creator.save_one d file i acc w))) = cwd (fs w) /\
  forall q, (skipped file = false -> q <> location w (kept_path d file)) ->
            file_at (fs (snd (Creator.save_one d file i acc w))) q = file_at (fs w) q.
Proof.
  destruct (skipped file) eqn:Es.
  { rewrite (save_one_skipped _ _ _ _ _ Es). cbn. auto. }
  unfold skipped in Es. unfold Creator.save_one, kept_path.
  destruct (Creator.pick file) as [fileName fileContent]. cbn [fst snd] in *.
  apply negb_false_iff in Es. rewrite Es.
  set (p := Path.join [d; default "" fileName]).
  change (bind (existsSync (Path.dirname p)) ?k w)
    with (k (match node_at (fs w) (Path.resolve (cwd (fs w)) (Path.dirname p)) with
             | Some _ => true
             | None => false
             end) w).
  assert (Hwrite : forall w0,
            cwd (fs w0) = cwd (fs w) ->
            (forall q, file_at (fs w0) q = file_at (fs w) q) ->
            let r := (writeFileSync p (default "" fileContent) ;;;
                      log (LogSaved p) ;;; ret (acc ++ [p])%list) w0 in
            cwd (fs (snd r)) = cwd (fs w) /\
            forall q, (false = false -> q <> location w p) ->
                      file_at (fs (snd r)) q = file_at (fs w) q).
  { intros w0 Hc Hf. cbv zeta. unfold bind, log, emit, ret.
    destruct (writeFileSync p (default "" fileContent) w0) as [[[] | e] w1] eqn:Ew.
    - destruct (writeFileSync_ok _ _ _ _ Ew) as (Hc1 & _ & Hothers & _).
      cbn [fst snd fs]. split; [congruence |]. intros q Hq. rewrite Hothers; [apply Hf |].
      unfold location in *. rewrite Hc. now apply Hq.
    - apply writeFileSync_failed in Ew. subst w1. cbn [fst snd fs]. split; [exact Hc |].
      intros q _. apply Hf. }
  cbv zeta in Hwrite.
  destruct (node_at (fs w) _) as [nd |]; cbn [negb].
  - change (bind (ret tt) ?k w) with (k tt w). apply Hwrite; auto.
  - destruct (mkdirSync (Path.dirname p) w) as [[[] | e] w0] eqn:Em.
    + destruct (mkdirSync_ok _ _ _ Em) as [Hc0 Hf0].
      change (bind (mkdirSync (Path.dirname p)) ?k w)
        with (match mkdirSync (Path.dirname p) w with
              | (Ok a, s') => k a s'
              | (Throw e, s') => (Throw e, s')
              end).
      rewrite Em. apply Hwrite; auto.
    + change (bind (mkdirSync (Path.dirname p)) ?k w)
        with (match mkdirSync (Path.dirname p) w with
              | (Ok a, s') => k a s'
              | (Throw e, s') => (Throw e, s')
              end).
      rewrite Em. apply mkdirSync_failed in Em. subst w0. cbn. auto.
Qed.

Lemma save_each_frame d files :
  forall i acc w,
    cwd (fs (snd (Creator.save_each d files i acc w))) = cwd (fs w) /\
    forall q, (forall file, In file (kept files) -> q <> location w (kept_path d file)) ->
              file_at (fs (snd (Creator.save_each d files i acc w))) q = file_at (fs w) q.
Proof.
  induction files as [| file files IH]; intros i acc w; cbn [Creator.save_each].
  - cbn. auto.
  - unfold bind.
    destruct (save_one_frame d file i acc w) as [Hc1 Hf1].
    destruct (Creator.save_one d file i acc w) as [[saved | e] w1]; cbn [fst snd] in *.
    + destruct (IH (S i) saved w1) as [Hc2 Hf2].
      split; [congruence |]. intros q Hq.
      rewrite Hf2, Hf1; [reflexivity | |].
      * intros Hk. apply Hq. unfold kept. cbn [List.filter]. rewrite Hk. now left.
      * intros f Hf. unfold location. rewrite Hc1. apply Hq.
        unfold kept in *. cbn [List.filter]. destruct (negb (skipped file)); [now right | exact Hf].
    + split; [exact Hc1 |]. intros q Hq. apply Hf1.
      intros Hk. apply Hq. unfold kept. cbn [List.filter]. rewrite Hk. now left.
Qed.

Lemma createIndexFile_frame d saved w :
  cwd (fs (snd (Creator.createIndexFile d saved w))) = cwd (fs w) /\
  forall q, q <> location w (manifest_path d) ->
            file_at (fs (snd (Creator.createIndexFile d saved w))) q = file_at (fs w) q.
Proof.
  unfold Creator.createIndexFile, try_catch. fold (manifest_path d).
  destruct (List.filter Creator.is_component saved) as [| c cs]; [cbn; auto |].
  unfold bind.
  match goal with
  | |- context [writeFileSync ?p ?data w] =>
      destruct (writeFileSync p data w) as [[[] | e] w1] eqn:Ew
  end.
  - destruct (writeFileSync_ok _ _ _ _ Ew) as (Hc & _ & Hothers & _). cbn. auto.
  - apply writeFileSync_failed in Ew. subst w1. cbn. auto.
Qed.

Lemma under_app root rest : under root (root ++ rest).
Proof. now exists rest. Qed.

(** ** Where a download writes *)

(** With a destination root that is not the empty string and names that
    hold no [..] segment, every file the SDK download saves lies at the
    root followed by the proper segments of its name, the index file lies
    directly in the root, and no file outside the root is created or
    changed, whether the download returns or throws. *)
Theorem sdk_download_stays_under_root :
  forall (chatId dir : string) (w : World) (chat : Chat),
    dir <> "" ->
    fetched w chatId = Ok chat ->
    (forall file, In file (kept (Creator.generated_files chat)) ->
                  Forall (fun s => s <> "..")
                         (Path.split (default "" (fst (Creator.pick file))))) ->
    (forall file, In file (kept (Creator.generated_files chat)) ->
       location w (kept_path dir file) =
         (location w dir ++
          List.filter proper (Path.split (default "" (fst (Creator.pick file)))))%list) /\
    location w (manifest_path dir) = (location w dir ++ ["index.js"])%list /\
    (forall q, ~ under (location w dir) q ->
       file_at (fs (snd (Sdk.downloadGeneratedCode chatId dir w))) q = file_at (fs w) q).
Proof.
  intros chatId dir w chat Hdir Hfetch Hnames.
  assert (Hloc : forall file, In file (kept (Creator.generated_files chat)) ->
            location w (kept_path dir file) =
              (location w dir ++
               List.filter proper (Path.split (default "" (fst (Creator.pick file)))))%list).
  { intros file Hin. unfold location, kept_path. apply resolve_join_down; [exact Hdir | |].
    - unfold kept in Hin. apply filter_In in Hin as [_ Hk]. unfold skipped in Hk.
      rewrite negb_involutive in Hk. apply andb_prop in Hk as [Hk _].
      destruct (fst (Creator.pick file)) as [[| c s] |]; cbn in *; congruence.
    - now apply Hnames. }
  assert (Hidx : location w (manifest_path dir) = (location w dir ++ ["index.js"])%list).
  { unfold location, manifest_path. rewrite resolve_join_down; [reflexivity | exact Hdir | |].
    - discriminate.
    - repeat constructor. discriminate. }
  split; [exact Hloc | split; [exact Hidx |]].
  intros q Hq.
  unfold Sdk.downloadGeneratedCode, Creator.downloadGeneratedCode, try_catch.
  unfold bind at 1. unfold log at 1, emit. cbn [fst snd].
  unfold bind at 1.
  match goal with
  | |- context [Creator.getChat chatId ?w0] =>
      destruct (getChat_run chatId w0) as [Hr Hf];
      destruct (Creator.getChat chatId w0) as [[chat' | e0] w1]
  end; cbn [fst snd fs] in *; unfold fetched in *; cbn [service gets] in Hr.
  2:{ unfold bind, log, emit, throw. cbn [fst snd fs]. now rewrite Hf. }
  assert (chat' = chat) by congruence. subst chat'.
  destruct (Creator.generated_files chat) as [| f fl] eqn:Efiles.
  { unfold bind, log, emit, ret. cbn [fst snd fs]. now rewrite Hf. }
  assert (Hfinish : forall (r : Res (list string)) w2,
            fs w2 = fs w1 ->
            file_at (fs (snd match r with
                             | Ok a => (Ok a, w2)
                             | Throw e => (log (LogDownloadFailed e) ;;; throw e) w2
                             end)) q = file_at (fs w) q).
  { intros r w2 H2. destruct r; cbn; now rewrite H2, Hf. }
  unfold bind at 1. unfold existsSync at 1.
  assert (Hsave : forall w2,
            cwd (fs w2) = cwd (fs w) ->
            (forall q', file_at (fs w2) q' = file_at (fs w) q') ->
            forall k : list string -> M (list string),
              (forall saved w3, fs (snd (k saved w3)) = fs w3 \/
                 (cwd (fs (snd (k saved w3))) = cwd (fs w3) /\
                  forall q', q' <> location w3 (manifest_path dir) ->
                             file_at (fs (snd (k saved w3))) q' = file_at (fs w3) q')) ->
              file_at (fs (snd (match bind (Creator.save_each dir (f :: fl) 0 []) k w2 with
                                | (Ok a, s') => (Ok a, s')
                                | (Throw e, s') => (log (LogDownloadFailed e) ;;; throw e) s'
                                end))) q = file_at (fs w) q).
  { intros w2 Hc2 Hf2 k Hk. unfold bind at 1.
    destruct (save_each_frame dir (f :: fl) 0 [] w2) as [Hc3 Hf3].
    assert (Hq3 : file_at (fs (snd (Creator.save_each dir (f :: fl) 0 [] w2))) q
                  = file_at (fs w) q).
    { rewrite Hf3, Hf2; [reflexivity |]. intros file Hin Heq. apply Hq.
      unfold location in Heq. rewrite Hc2 in Heq. fold (location w (kept_path dir file)) in Heq.
      rewrite (Hloc file Hin) in Heq. rewrite Heq. apply under_app. }
    destruct (Creator.save_each dir (f :: fl) 0 [] w2) as [[saved | e] w3]; cbn [fst snd] in *.
    - assert (Hk3 : file_at (fs (snd (k saved w3))) q = file_at (fs w) q).
      { destruct (Hk saved w3) as [H | [Hc4 Hf4]]; [now rewrite H |].
        rewrite Hf4; [exact Hq3 |]. intros Heq. apply Hq.
        unfold location in Heq. rewrite Hc3, Hc2 in Heq.
        fold (location w (manifest_path dir)) in Heq. rewrite Hidx in Heq.
        rewrite Heq. apply under_app. }
      destruct (k saved w3) as [[a | e] w4]; cbn in *; exact Hk3.
    - cbn. exact Hq3. }
  assert (Hk : forall saved w3,
            let k := fun savedFiles : list string =>
                       (if (0 <? length savedFiles)%nat
                        then log (LogSavedAll (length savedFiles) dir) ;;;
                             Creator.createIndexFile dir savedFiles ;;; ret tt
                        else ret tt) ;;; ret savedFiles in
            fs (snd (k saved w3)) = fs w3 \/
            (cwd (fs (snd (k saved w3))) = cwd (fs w3) /\
             forall q', q' <> location w3 (manifest_path dir) ->
                        file_at (fs (snd (k saved w3))) q' = file_at (fs w3) q')).
  { intros saved w3. cbv beta zeta.
    destruct (0 <? length saved)%nat; [| left; reflexivity].
    right. unfold bind, log, emit, ret. cbn [fst snd].
    match goal with
    | |- context [Creator.createIndexFile dir saved ?w4] =>
        destruct (createIndexFile_frame dir saved w4) as [Hc5 Hf5];
        destruct (Creator.createIndexFile dir saved w4) as [[[] | e] w5]
    end; cbn [fst snd fs] in *; unfold location in *; cbn [fs] in *; split; auto. }
  destruct (node_at (fs w1) _) as [nd |]; cbn [negb].
  - unfold bind at 1. cbn [ret].
    apply Hsave; [now rewrite Hf | intros; now rewrite Hf | exact Hk].
  - unfold bind at 1. unfold bind at 1.
    destruct (mkdirSync dir w1) as [[[] | e] w2] eqn:Em.
    + destruct (mkdirSync_ok _ _ _ Em) as [Hc2 Hf2].
      unfold log at 1, emit. cbn [fst snd].
      apply Hsave; cbn [fs]; [now rewrite Hc2, Hf | intros; now rewrite Hf2, Hf | exact Hk].
    + apply mkdirSync_failed in Em. subst w2. cbn. now rewrite Hf.
Qed.

Lemma sdk_download_stays_under_root_witness :
  let w := world_of (steady (chat_with "completed" [entry "lib/util.ts" "x"])) in
  location w (kept_path "./out" (entry "lib/util.ts" "x")) =
    ["work"; "out"; "lib"; "util.ts"] /\
  file_at (fs (snd (Sdk.downloadGeneratedCode "abc123" "./out" w))) ["etc"; "passwd"] =
    file_at (fs w) ["etc"; "passwd"].
Proof.
  cbv zeta.
  destruct (sdk_download_stays_under_root "abc123" "./out"
              (world_of (steady (chat_with "completed" [entry "lib/util.ts" "x"])))
              (chat_with "completed" [entry "lib/util.ts" "x"]))
    as (Hloc & _ & Hout).
  - discriminate.
  - reflexivity.
  - intros file Hin. vm_compute in Hin. destruct Hin as [<- | []].
    vm_compute. repeat (constructor; [discriminate |]). constructor.
  - split.
    + rewrite (Hloc (entry "lib/util.ts" "x")); [reflexivity | now left].
    + apply Hout. intros [rest Hrest]. vm_compute in Hrest. discriminate Hrest.
Defined.

(** A name that climbs with [..] is not held back: the file is written
    outside the destination root. *)
Example sdk_download_follows_dotdot :
  let w := world_of (steady (chat_with "completed" [entry "../../etc/cron.d/job" "x"])) in
  file_at (fs w) ["etc"; "cron.d"; "job"] = None /\
  file_at (fs (snd (Sdk.downloadGeneratedCode "abc123" "./out" w))) ["etc"; "cron.d"; "job"] =
    Some "x".
Proof. vm_compute. split; reflexivity. Qed.

(** ** The smart generator *)

Lemma first_match_in prompt entries :
  In (Smart.first_match prompt entries) ("default" :: List.map fst entries).
Proof.
  induction entries as [| [t kws] entries IH]; cbn [Smart.first_match List.map fst].
  - now left.
  - destruct (existsb _ kws); [right; now left |].
    destruct IH as [H | H]; [now left | right; now right].
Qed.

Lemma first_match_default prompt entries :
  ~ In "default" (List.map fst entries) ->
  (Smart.first_match prompt entries = "default" <->
   forall t kws kw, In (t, kws) entries -> In kw kws -> Js.includes prompt kw = false).
Proof.
  induction entries as [| [t kws] entries IH]; cbn [Smart.first_match List.map fst]; intros Hno.
  - split; [intros _ t kws kw [] | reflexivity].
  - assert (Ht : t <> "default") by (intros ->; apply Hno; now left).
    assert (Hno' : ~ In "default" (List.map fst entries)) by (intros H; apply Hno; now right).
    destruct (existsb (fun keyword => Js.includes prompt keyword) kws) eqn:E.
    + split; [intros H; contradiction |].
      intros H. exfalso. apply existsb_exists in E as (kw & Hkw & Hinc).
      rewrite (H t kws kw (or_introl eq_refl) Hkw) in Hinc. discriminate Hinc.
    + rewrite (IH Hno'). split.
      * intros H t' kws' kw [Heq | Hin] Hkw.
        -- injection Heq as <- <-.
           destruct (Js.includes prompt kw) eqn:Ei; [| reflexivity].
           assert (existsb (fun keyword => Js.includes prompt keyword) kws = true)
             by (apply existsb_exists; eauto).
           congruence.
        -- eapply H; eassumption.
      * intros H t' kws' kw Hin Hkw. eapply H; [right; exact Hin | exact Hkw].
Qed.

Lemma lower_idempotent c : Smart.lower (Smart.lower c) = Smart.lower c.
Proof. destruct c as [[] [] [] [] [] [] [] []]; reflexivity. Qed.

Lemma toLowerCase_idempotent s : Smart.toLowerCase (Smart.toLowerCase s) = Smart.toLowerCase s.
Proof.
  induction s as [| c s IH]; [reflexivity |].
  cbn [Smart.toLowerCase]. now rewrite lower_idempotent, IH.
Qed.

(** [analyzePrompt] always answers with one of its eight component types
    or with [default]; with [default] exactly when none of the keywords
    occurs in the lower-cased prompt; with [dashboard] as soon as one of the
    dashboard keywords occurs, whatever else the prompt holds; and its
    answer does not depend on the case of the letters. *)
Theorem analyzePrompt_classifies :
  forall (userPrompt : string),
    In (Smart.analyzePrompt userPrompt)
       ["default"; "dashboard"; "queryBuilder"; "resultsTable"; "analyticsCharts";
        "userManagement"; "authentication"; "navigation"; "forms"] /\
    (Smart.analyzePrompt userPrompt = "default" <->
     forall t kws kw, In (t, kws) Smart.patterns -> In kw kws ->
                      Js.includes (Smart.toLowerCase userPrompt) kw = false) /\
    (forall kw, In kw ["dashboard"; "overview"; "main page"; "home"; "analytics studio"] ->
                Js.includes (Smart.toLowerCase userPrompt) kw = true ->
                Smart.analyzePrompt userPrompt = "dashboard") /\
    Smart.analyzePrompt (Smart.toLowerCase userPrompt) = Smart.analyzePrompt userPrompt.
Proof.
  intros userPrompt. unfold Smart.analyzePrompt. split; [| split; [| split]].
  - apply (first_match_in (Smart.toLowerCase userPrompt) Smart.patterns).
  - apply first_match_default. cbn. intros H.
    repeat (destruct H as [H | H]; [discriminate H |]). exact H.
  - intros kw Hkw Hinc. cbn [Smart.patterns Smart.first_match].
    match goal with
    | |- (if ?b then _ else _) = _ => assert (Hb : b = true); [| now rewrite Hb]
    end.
    apply existsb_exists. exists kw. split; [exact Hkw | exact Hinc].
  - now rewrite toLowerCase_idempotent.
Qed.

Lemma analyzePrompt_classifies_witness :
  Smart.analyzePrompt "Build an Analytics DASHBOARD with a users table" = "dashboard".
Proof.
  destruct (analyzePrompt_classifies "Build an Analytics DASHBOARD with a users table")
    as (_ & _ & H & _).
  apply (H "dashboard"); [now left | reflexivity].
Defined.

(** A prompt with none of the earlier keywords but the word [create] is a
    form. *)
Example create_means_forms :
  Smart.analyzePrompt "Create a sentiment widget" = "forms".
Proof. reflexivity. Qed.


Lemma lookup_cases table key :
  match Smart.lookup table key with
  | Some (Smart.Text v) => In (key, v) table
  | Some (Smart.Native k) =>
      k = key /\ In key Smart.inherited_keys /\ ~ In key (List.map fst table)
  | None => ~ In key Smart.inherited_keys /\ ~ In key (List.map fst table)
  end.
Proof.
  induction table as [| [k v] table IH]; cbn [Smart.lookup List.map fst In].
  - destruct (existsb (String.eqb key) Smart.inherited_keys) eqn:E.
    + apply existsb_exists in E as (k & Hin & Heq). apply String.eqb_eq in Heq. subst k.
      auto.
    + split; [| auto]. intros Hin.
      assert (existsb (String.eqb key) Smart.inherited_keys = true)
        by (apply existsb_exists; exists key; split; [exact Hin | apply String.eqb_refl]).
      congruence.
  - destruct (String.eqb_spec k key) as [-> | Hne]; [now left |].
    destruct (Smart.lookup table key) as [[v' | k'] |].
    + now right.
    + destruct IH as (H1 & H2 & H3). repeat split; auto. intros [H | H]; auto.
    + destruct IH as (H1 & H2). split; auto. intros [H | H]; auto.
Qed.



(** A component type that is an inherited key gets the text of the
    inherited member as its hint. *)
Example enhancePrompt_of_constructor :
  Smart.enhancePrompt "x" "constructor" =
    "x" ++ "function Object() { [native code] }" ++ Smart.reminder.
Proof. reflexivity. Qed.

Lemma generateSystemPrompt_truthy ctx :
  Js.truthy (Some (Prompts.generateSystemPrompt ctx)) = true.
Proof.
  unfold Prompts.generateSystemPrompt, Prompts.BACKEND_COMPATIBLE_SYSTEM_PROMPT.
  rewrite append_cons. reflexivity.
Qed.

Lemma getSystemPrompt_cases componentType userPrompt :
  match Smart.lookup Prompts.COMPONENT_PROMPTS componentType with
  | Some (Smart.Text v) =>
      Smart.getSystemPrompt componentType userPrompt = Smart.Text v /\
      exists ctx, v = Prompts.generateSystemPrompt ctx
  | Some (Smart.Native k) =>
      Smart.getSystemPrompt componentType userPrompt = Smart.Native componentType /\
      In componentType Smart.inherited_keys
  | None =>
      Smart.getSystemPrompt componentType userPrompt =
        Smart.Text (Prompts.generateSystemPrompt (Smart.generateCustomContext userPrompt)) /\
      ~ In componentType Smart.inherited_keys
  end.
Proof.
  unfold Smart.getSystemPrompt.
  pose proof (lookup_cases Prompts.COMPONENT_PROMPTS componentType) as Hcases.
  destruct (Smart.lookup Prompts.COMPONENT_PROMPTS componentType) as [[v | k] |].
  - unfold Prompts.COMPONENT_PROMPTS in Hcases. cbn [In] in Hcases.
    repeat (destruct Hcases as [Hcases | Hcases];
            [injection Hcases as _ <-; cbn [Smart.truthy];
             rewrite generateSystemPrompt_truthy; split; [reflexivity | eexists; reflexivity] |]).
    destruct Hcases.
  - destruct Hcases as (-> & Hin & _). cbn [Smart.truthy]. auto.
  - split; [reflexivity | apply Hcases].
Qed.

(** For a component type that is no inherited key, the system prompt is a
    string that begins with the backend contract and holds the domain
    context; where the type has no prompt of its own, the context added is
    built from the prompt. For an inherited key such as [constructor], what
    [getSystemPrompt] returns is the inherited member, not a string. The
    context built from a prompt begins with the general sentence and names
    sentiment, compliance, agents, administration and live data exactly
    when the lower-cased prompt holds the matching keyword. *)
Theorem system_prompt_carries_the_contract :
  forall (componentType userPrompt : string),
    let prompt := Smart.toLowerCase userPrompt in
    let context := Smart.generateCustomContext userPrompt in
    (~ In componentType Smart.inherited_keys ->
     exists text ctx,
       Smart.getSystemPrompt componentType userPrompt = Smart.Text text /\
       text = Prompts.generateSystemPrompt ctx /\
       (Smart.lookup Prompts.COMPONENT_PROMPTS componentType = None -> ctx = context) /\
       Js.startsWith text Prompts.BACKEND_COMPATIBLE_SYSTEM_PROMPT = true /\
       Js.includes text Prompts.QUERY_ENGINE_CONTEXT = true) /\
    (In componentType Smart.inherited_keys ->
     Smart.getSystemPrompt componentType userPrompt = Smart.Native componentType) /\
    Js.startsWith context "Create a component that integrates with the Query Engine Studio."
      = true /\
    Js.includes context "sentiment analysis" = Js.includes prompt "sentiment" /\
    Js.includes context "compliance tracking" = Js.includes prompt "compliance" /\
    Js.includes context "agent-specific" = Js.includes prompt "agent" /\
    Js.includes context "administrative features" = Js.includes prompt "admin" /\
    Js.includes context "live monitoring" =
      (Js.includes prompt "real-time" || Js.includes prompt "live").
Proof.
  intros componentType userPrompt. cbv zeta.
  pose proof (getSystemPrompt_cases componentType userPrompt) as Hcases.
  pose proof (lookup_cases Prompts.COMPONENT_PROMPTS componentType) as Hkeys.
  split; [| split].
  - intros Hown.
    assert (Hfacts : forall ctx,
              Js.startsWith (Prompts.generateSystemPrompt ctx)
                            Prompts.BACKEND_COMPATIBLE_SYSTEM_PROMPT = true /\
              Js.includes (Prompts.generateSystemPrompt ctx)
                          Prompts.QUERY_ENGINE_CONTEXT = true).
    { intros ctx. split; [apply startsWith_app |]. unfold Prompts.generateSystemPrompt.
      apply includes_app_r. apply includes_app_r. apply includes_app_l. apply includes_self. }
    destruct (Smart.lookup Prompts.COMPONENT_PROMPTS componentType) as [[v | k] |].
    + destruct Hcases as (Heq & ctx & ->). exists (Prompts.generateSystemPrompt ctx), ctx.
      split; [exact Heq | split; [reflexivity | split; [intros H; discriminate H |]]].
      apply Hfacts.
    + destruct Hcases as (_ & Hin). contradiction.
    + destruct Hcases as (Heq & _). eexists _, _.
      split; [exact Heq | split; [reflexivity | split; [reflexivity |]]].
      apply Hfacts.
  - intros Hin.
    destruct (Smart.lookup Prompts.COMPONENT_PROMPTS componentType) as [[v | k] |].
    + exfalso. clear Hcases. unfold Prompts.COMPONENT_PROMPTS in Hkeys. cbn [In] in Hkeys.
      repeat (destruct Hkeys as [Hkeys | Hkeys];
              [injection Hkeys as <- _; cbn in Hin;
               repeat (destruct Hin as [Hin | Hin]; [discriminate Hin |]); exact Hin |]).
      exact Hkeys.
    + apply Hcases.
    + destruct Hcases as (_ & Hno). contradiction.
  - unfold Smart.generateCustomContext. cbv zeta.
    destruct (Js.includes (Smart.toLowerCase userPrompt) "sentiment"),
             (Js.includes (Smart.toLowerCase userPrompt) "compliance"),
             (Js.includes (Smart.toLowerCase userPrompt) "agent"),
             (Js.includes (Smart.toLowerCase userPrompt) "admin"),
             (Js.includes (Smart.toLowerCase userPrompt) "real-time"),
             (Js.includes (Smart.toLowerCase userPrompt) "live");
      vm_compute; repeat split.
Qed.

Lemma system_prompt_carries_the_contract_witness :
  Smart.getSystemPrompt "forms" "Create an admin form" =
    Smart.Text (Prompts.generateSystemPrompt
                  (Smart.generateCustomContext "Create an admin form")) /\
  Smart.getSystemPrompt "constructor" "Create an admin form" = Smart.Native "constructor".
Proof.
  split.
  - destruct (system_prompt_carries_the_contract "forms" "Create an admin form")
      as (H & _).
    destruct H as (text & ctx & Heq & -> & Hctx & _).
    + cbn. intros H. repeat (destruct H as [H | H]; [discriminate H |]). exact H.
    + rewrite Heq. f_equal. f_equal. apply Hctx. reflexivity.
  - apply (system_prompt_carries_the_contract "constructor" "Create an admin form").
    now left.
Defined.

(** ** What the smart generator sends *)

Lemma frames_any_getChat chatId : frames here any_event (Creator.getChat chatId).
Proof. unfold Creator.getChat. frame. Qed.








(** The empty prompt goes out as the reminder alone. *)
Example empty_prompt_is_sent :
  let run := Smart.generateComponent "" Smart.defaults
               (world_of (steady (chat_with "completed"
                                    [entry "Button.tsx" "export default 1"]))) in
  match fst run with
  | Ok generated =>
      Smart.componentType generated = "default" /\
      Smart.enhancedPrompt generated = Smart.reminder
  | Throw _ => False
  end /\
  In Created (trace (snd run)).
Proof. vm_compute. split; [split; reflexivity | tauto]. Qed.

(** ** The lines of the index file *)

Lemma length_append_s a b : String.length (a ++ b) = String.length a + String.length b.
Proof.
  induction a as [| c a IH]; [reflexivity |].
  rewrite append_cons. cbn [String.length]. now rewrite IH.
Qed.

Lemma length_drop k : forall s, String.length (Js.drop k s) = String.length s - k.
Proof.
  induction k as [| k IH]; intros s; cbn [Js.drop]; [lia |].
  destruct s as [| c s]; [reflexivity |]. cbn [String.length]. now rewrite IH.
Qed.

Lemma last_dot_bound s k : Path.last_dot s = Some k -> k < String.length s.
Proof.
  revert k. induction s as [| c s IH]; intros k; cbn [Path.last_dot]; [discriminate |].
  destruct (Path.last_dot s) as [j |].
  - intros H. injection H as <-. specialize (IH j eq_refl). cbn [String.length]. lia.
  - destruct (Ascii.eqb c Path.dot); intros H; [| discriminate H].
    injection H as <-. cbn [String.length]. lia.
Qed.

Lemma last_component_app d b :
  b <> "" -> no_slash b = true -> Path.last_component (d ++ "/" ++ b) = b.
Proof.
  intros Hb Hs. unfold Path.last_component.
  rewrite split_app, (split_no_slash _ Hs), List.filter_app. cbn [List.filter].
  destruct (String.eqb_spec b ""); [contradiction |]. cbn [negb]. apply last_last.
Qed.

Lemma last_component_self b :
  b <> "" -> no_slash b = true -> Path.last_component b = b.
Proof.
  intros Hb Hs. unfold Path.last_component. rewrite (split_no_slash _ Hs). cbn [List.filter].
  destruct (String.eqb_spec b ""); [contradiction | reflexivity].
Qed.

Lemma extname_shorter p :
  Path.extname p = "" \/ String.length (Path.extname p) < String.length (Path.last_component p).
Proof.
  unfold Path.extname.
  destruct (Path.last_dot (Path.last_component p)) as [[| k] |] eqn:E; [now left | | now left].
  destruct (String.eqb (Path.last_component p) ".."); [now left |].
  right. rewrite length_drop. apply last_dot_bound in E. lia.
Qed.

Lemma basename_of_component p b :
  Path.last_component p = b ->
  String.length b <= String.length p ->
  Path.basename p (Path.extname p) =
    if String.eqb (Path.extname p) "" then b
    else if Js.endsWith b (Path.extname p) && negb (String.eqb b (Path.extname p))
         then Js.take (String.length b - String.length (Path.extname p)) b
         else b.
Proof.
  intros Hb Hlen. unfold Path.basename. rewrite Hb.
  destruct (String.eqb_spec (Path.extname p) "") as [E | E]; [reflexivity |]. cbn [negb andb].
  destruct (extname_shorter p) as [H | H]; [contradiction |]. rewrite Hb in H.
  destruct (Nat.leb_spec (String.length (Path.extname p)) (String.length p)); [| lia].
  destruct (String.eqb_spec (Path.extname p) p) as [Heq | Hne]; [| reflexivity].
  rewrite Heq in H. lia.
Qed.

(** The line the index file gets for a saved file depends on the last
    component of its path only: the directory the file lies in plays no
    part. So a file saved in a sub-directory is re-exported from
    [./Name] all the same, and two files of the same name in different
    directories get the same line. *)
Theorem export_line_ignores_directory :
  forall (d d' b : string),
    b <> "" -> no_slash b = true ->
    Creator.export_line (d ++ "/" ++ b) = Creator.export_line b /\
    Creator.export_line (d ++ "/" ++ b) = Creator.export_line (d' ++ "/" ++ b) /\
    exists fileName,
      Creator.export_line (d ++ "/" ++ b) =
        "export { default as " ++ fileName ++ " } from './" ++ fileName ++ "';".
Proof.
  intros d d' b Hb Hs.
  assert (Hext : forall x, Path.extname (x ++ "/" ++ b) = Path.extname b).
  { intros x. unfold Path.extname.
    now rewrite (last_component_app x b Hb Hs), (last_component_self b Hb Hs). }
  assert (Hbase : forall x, Path.basename (x ++ "/" ++ b) (Path.extname (x ++ "/" ++ b))
                            = Path.basename b (Path.extname b)).
  { intros x.
    rewrite (basename_of_component (x ++ "/" ++ b) b (last_component_app x b Hb Hs))
      by (rewrite !length_append_s; lia).
    rewrite (basename_of_component b b (last_component_self b Hb Hs)) by lia.
    now rewrite Hext. }
  assert (Hline : forall x, Creator.export_line (x ++ "/" ++ b) = Creator.export_line b).
  { intros x. unfold Creator.export_line. cbv zeta. now rewrite Hbase. }
  split; [apply Hline | split; [now rewrite !Hline |]].
  eexists. unfold Creator.export_line. cbv zeta. reflexivity.
Qed.

Lemma export_line_ignores_directory_witness :
  Creator.export_line ("out/forms" ++ "/" ++ "Button.tsx") =
    Creator.export_line ("out/cards" ++ "/" ++ "Button.tsx").
Proof.
  apply (export_line_ignores_directory "out/forms" "out/cards" "Button.tsx");
    [discriminate | reflexivity].
Defined.

(** ** The files of the integration step *)

Lemma canonical_forall segs :
  canonical segs = true ->
  Forall (fun s => proper s = true) segs /\ Forall (fun s => no_slash s = true) segs.
Proof.
  unfold canonical. rewrite forallb_forall. intros H.
  split; apply Forall_forall; intros s Hs; apply list_elem_of_In, H, andb_prop in Hs; tauto.
Qed.

Lemma filter_proper_id segs :
  Forall (fun s => proper s = true) segs -> List.filter proper segs = segs.
Proof.
  intros H. apply forallb_filter_id. apply forallb_forall. intros s Hs.
  rewrite Forall_forall in H. now apply H, list_elem_of_In.
Qed.

Lemma proper_not_up s : proper s = true -> s <> "..".
Proof. intros H ->. discriminate H. Qed.

(** Splitting what [process.cwd()] returns gives the segments of the
    working directory back, after an empty segment or two. *)
Lemma split_cwd segs :
  canonical segs = true ->
  List.filter proper (Path.split ("/" ++ Js.join "/" segs)) = segs /\
  Forall (fun s => s <> "..") (Path.split ("/" ++ Js.join "/" segs)).
Proof.
  intros Hc. destruct (canonical_forall _ Hc) as [Hp Hs].
  change ("/" ++ Js.join "/" segs) with ("" ++ "/" ++ Js.join "/" segs).
  rewrite split_app. change (Path.split "") with [""].
  destruct segs as [| s segs].
  - cbn. split; [reflexivity | repeat constructor; discriminate].
  - rewrite split_join by (try discriminate; exact Hs).
    rewrite List.filter_app, (filter_proper_id _ Hp).
    split; [reflexivity |]. apply Forall_app. split; [repeat constructor; discriminate |].
    eapply Forall_impl; [exact Hp |]. apply proper_not_up.
Qed.

Lemma join_filter_id args :
  Forall (fun s => s <> "") args ->
  List.filter (fun a => negb (String.eqb a "")) args = args.
Proof.
  intros H. apply forallb_filter_id, forallb_forall. intros s Hs.
  rewrite Forall_forall in H. apply list_elem_of_In, H in Hs.
  now destruct (String.eqb_spec s "").
Qed.

Lemma resolve_from_cwd segs names :
  canonical segs = true -> canonical names = true -> names <> [] ->
  Path.resolve segs (Path.join (("/" ++ Js.join "/" segs) :: names)) = (segs ++ names)%list.
Proof.
  intros Hc Hn Hne. destruct (canonical_forall _ Hn) as [Hp Hs].
  destruct (split_cwd _ Hc) as [Hsplit Hdown].
  unfold Path.join. rewrite join_filter_id.
  2:{ constructor; [rewrite append_cons; discriminate |].
      eapply Forall_impl; [exact Hp |]. intros s H ->. discriminate H. }
  rewrite resolve_normalize.
  destruct names as [| n names]; [congruence |].
  rewrite join_cons. unfold Path.resolve.
  rewrite startsWith_app_slash by (rewrite append_cons; discriminate).
  rewrite (startsWith_app "/"), split_app, normalize_segs_walk.
  rewrite split_join by (try discriminate; exact Hs).
  rewrite walk_down.
  - rewrite List.filter_app, Hsplit, (filter_proper_id _ Hp), app_nil_r. apply rev_involutive.
  - apply Forall_app. split; [exact Hdown |].
    eapply Forall_impl; [exact Hp |]. apply proper_not_up.
Qed.

Lemma resolve_relative_name segs name :
  proper name = true -> no_slash name = true ->
  Path.resolve segs name = (segs ++ [name])%list.
Proof.
  intros Hp Hs. unfold Path.resolve.
  assert (Hrel : Js.startsWith name "/" = false).
  { destruct name as [| c name]; [reflexivity |]. cbn in Hs. cbn [Js.startsWith].
    apply andb_prop in Hs as [Hc _]. apply negb_true_iff in Hc. unfold Path.slash in Hc.
    now rewrite Hc. }
  rewrite Hrel, normalize_segs_walk, (split_no_slash _ Hs), (walk_proper _ _ _ Hp).
  cbn [rev]. now rewrite rev_involutive.
Qed.

Lemma normalize_not_empty p : Path.normalize p <> "".
Proof.
  unfold Path.normalize. destruct (String.eqb p ""); [discriminate |]. cbv zeta.
  destruct (String.eqb_spec (Js.join "/" (Path.normalize_segs (negb (Js.startsWith p "/")) []
                                            (Path.split p))) "") as [E | E].
  - destruct (Js.startsWith p "/"); [discriminate |]. destruct (Js.endsWith p "/"); discriminate.
  - intros H. destruct (Js.startsWith p "/").
    + rewrite append_cons in H. discriminate H.
    + rewrite append_nil_l in H.
      destruct (Js.join "/" _) as [| c s]; [now apply E |]. rewrite append_cons in H.
      discriminate H.
Qed.

(** Where [generateApiHelpers] writes its file. *)
Lemma helpers_path w dir :
  dir <> "" ->
  location w (Path.join [Path.join [dir; "lib"; "api"]; "client.ts"]) = helpers_location w dir /\
  location w (Path.join [dir; "lib"; "api"]) = (location w dir ++ ["lib"; "api"])%list.
Proof.
  intros Hdir. unfold helpers_location, location.
  assert (Hdirs : Path.resolve (cwd (fs w)) (Path.join [dir; "lib"; "api"])
                  = (Path.resolve (cwd (fs w)) dir ++ ["lib"; "api"])%list).
  { assert (Hjoin : Path.join [dir; "lib"; "api"] = Path.join [dir; "lib/api"]).
    { unfold Path.join. cbn [List.filter].
      destruct (String.eqb_spec dir ""); [contradiction | reflexivity]. }
    rewrite Hjoin, resolve_join_down; [reflexivity | exact Hdir | discriminate |].
    repeat constructor; discriminate. }
  split; [| exact Hdirs].
  rewrite resolve_join_down.
  - rewrite Hdirs, <- app_assoc. reflexivity.
  - unfold Path.join. cbn [List.filter].
    destruct (String.eqb dir ""); cbn [negb]; apply normalize_not_empty.
  - discriminate.
  - repeat constructor; discriminate.
Qed.

Lemma mkdir_from_mono pre rest m m' q :
  mkdir_from pre rest m = Some m' -> m !! q <> None -> m' !! q <> None.
Proof.
  revert pre m. induction rest as [| s rest IH]; intros pre m Hm Hq; cbn [mkdir_from] in Hm.
  - now injection Hm as <-.
  - assert (Hgo : mkdir_from (pre ++ [s]) rest (<[(pre ++ [s])%list := Dir]> m) = Some m')
      by (destruct (m !! (pre ++ [s])%list) as [[d' |] |]; congruence).
    apply (IH _ _ Hgo).
    destruct (decide ((pre ++ [s])%list = q)) as [<- | Hne].
    + rewrite lookup_insert_eq. discriminate.
    + now rewrite lookup_insert_ne.
Qed.

Lemma writeFileSync_nodes p data w w' :
  writeFileSync p data w = (Ok tt, w') ->
  cwd (fs w') = cwd (fs w) /\
  forall q, node_at (fs w') q =
            if decide (location w p = q) then Some (File data) else node_at (fs w) q.
Proof.
  unfold writeFileSync, location.
  set (q0 := Path.resolve (cwd (fs w)) p).
  destruct (node_at (fs w) q0) as [[d |] |] eqn:E0; try discriminate;
    destruct (node_at (fs w) (removelast q0)) as [[d' |] |] eqn:E1; try discriminate;
    intros H; injection H as <-; cbn [fs with_fs cwd];
    (assert (Hq0 : q0 <> []) by (intros Hq; rewrite Hq in E0; discriminate));
    (split; [reflexivity |]); intros q; unfold node_at; cbn [nodes];
    (destruct q as [| s q];
     [destruct (decide (q0 = [])); [contradiction | reflexivity] |]);
    (destruct (decide (q0 = s :: q)) as [-> | Hne];
     [apply lookup_insert_eq | now apply lookup_insert_ne]).
Qed.

Lemma keeps_nodes_ret {A} (a : A) : keeps_nodes (ret a).
Proof. intros w. cbn. auto. Qed.

Lemma keeps_nodes_throw {A} msg : keeps_nodes (@throw World A msg).
Proof. intros w. cbn. auto. Qed.

Lemma keeps_nodes_bind {A B} (m : M A) (k : A -> M B) :
  keeps_nodes m -> (forall a, keeps_nodes (k a)) -> keeps_nodes (bind m k).
Proof.
  intros Hm Hk w. unfold bind. destruct (Hm w) as [Hc Hn].
  destruct (m w) as [[a | e] w1]; cbn [snd] in *; [| auto].
  destruct (Hk a w1) as [Hc1 Hn1]. split; [congruence | auto].
Qed.

Lemma keeps_nodes_try_catch {A} (m : M A) (h : string -> M A) :
  keeps_nodes m -> (forall e, keeps_nodes (h e)) -> keeps_nodes (try_catch m h).
Proof.
  intros Hm Hh w. unfold try_catch. destruct (Hm w) as [Hc Hn].
  destruct (m w) as [[a | e] w1]; cbn [snd] in *; [auto |].
  destruct (Hh e w1) as [Hc1 Hn1]. split; [congruence | auto].
Qed.

Lemma keeps_nodes_for_of {A} (body : A -> M unit) l :
  (forall x, keeps_nodes (body x)) -> keeps_nodes (for_of body l).
Proof.
  intros Hb. induction l as [| x l IH]; cbn [for_of].
  - apply keeps_nodes_ret.
  - apply keeps_nodes_bind; [apply Hb | intros _; exact IH].
Qed.

Lemma keeps_nodes_reads {A} (m : M A) : reads_only m -> keeps_nodes m.
Proof. intros H w. unfold reads_only in H. rewrite !H. split; [reflexivity | intros q Hq; exact Hq]. Qed.

Lemma reads_only_log l : reads_only (log l).
Proof. intros w. reflexivity. Qed.

Lemma reads_only_process_cwd : reads_only process_cwd.
Proof. intros w. reflexivity. Qed.

Lemma reads_only_existsSync p : reads_only (existsSync p).
Proof. intros w. reflexivity. Qed.

Lemma reads_only_readFileSync p : reads_only (readFileSync p).
Proof. intros w. now rewrite readFileSync_same. Qed.

Lemma reads_only_ret {A} (a : A) : reads_only (ret a).
Proof. intros w. reflexivity. Qed.

Lemma reads_only_bind {A B} (m : M A) (k : A -> M B) :
  reads_only m -> (forall a, reads_only (k a)) -> reads_only (bind m k).
Proof.
  intros Hm Hk w. unfold bind. specialize (Hm w).
  destruct (m w) as [[a | e] w1]; cbn [snd] in *; [| exact Hm].
  now rewrite Hk.
Qed.

Lemma reads_only_for_of {A} (body : A -> M unit) l :
  (forall x, reads_only (body x)) -> reads_only (for_of body l).
Proof.
  intros Hb. induction l as [| x l IH]; cbn [for_of].
  - apply reads_only_ret.
  - apply reads_only_bind; [apply Hb | intros _; exact IH].
Qed.

Lemma keeps_nodes_mkdirSync p : keeps_nodes (mkdirSync p).
Proof.
  intros w. unfold mkdirSync.
  destruct (mkdir_from _ _ _) as [m |] eqn:Hm; cbn [snd fs with_fs cwd]; [| auto].
  split; [reflexivity |]. intros q Hq. unfold node_at in *. cbn [nodes].
  destruct q as [| s q]; [discriminate |]. eapply mkdir_from_mono; eassumption.
Qed.

Lemma keeps_nodes_writeFileSync p d : keeps_nodes (writeFileSync p d).
Proof.
  intros w. destruct (writeFileSync p d w) as [[[] | e] w'] eqn:E; cbn [snd].
  - destruct (writeFileSync_nodes _ _ _ _ E) as [Hc Hn]. split; [exact Hc |].
    intros q Hq. rewrite Hn. destruct (decide _); [discriminate | exact Hq].
  - apply writeFileSync_failed in E. subst. auto.
Qed.

Ltac keeps_step :=
  first
    [ apply keeps_nodes_ret
    | apply keeps_nodes_throw
    | apply keeps_nodes_reads, reads_only_log
    | apply keeps_nodes_reads, reads_only_process_cwd
    | apply keeps_nodes_reads, reads_only_existsSync
    | apply keeps_nodes_reads, reads_only_readFileSync
    | apply keeps_nodes_mkdirSync
    | apply keeps_nodes_writeFileSync
    | apply keeps_nodes_for_of; intros
    | apply keeps_nodes_bind; [| intros]
    | apply keeps_nodes_try_catch; [| intros]
    | match goal with
      | |- keeps_nodes (if ?b then _ else _) => destruct b
      | |- keeps_nodes (match ?x with _ => _ end) => destruct x
      | |- keeps_nodes (let (_, _) := ?x in _) => destruct x
      end ].

Lemma keeps_nodes_fixImportPaths l d : keeps_nodes (Backend.fixImportPaths l d).
Proof. unfold Backend.fixImportPaths, Backend.fix_one. repeat keeps_step. Qed.

Lemma keeps_nodes_validateTypeScriptInterfaces l :
  keeps_nodes (Backend.validateTypeScriptInterfaces l).
Proof. unfold Backend.validateTypeScriptInterfaces. repeat keeps_step. Qed.

Lemma keeps_nodes_validateApiContracts l : keeps_nodes (Backend.validateApiContracts l).
Proof. unfold Backend.validateApiContracts. repeat keeps_step. Qed.

Lemma keeps_nodes_ensureMiddlewareIntegration : keeps_nodes Backend.ensureMiddlewareIntegration.
Proof.
  unfold Backend.ensureMiddlewareIntegration, Backend.createMiddlewareFile. repeat keeps_step.
Qed.

Lemma keeps_nodes_generateApiHelpers d : keeps_nodes (Backend.generateApiHelpers d).
Proof. unfold Backend.generateApiHelpers. repeat keeps_step. Qed.

Lemma keeps_nodes_validateEnvironmentVariables :
  keeps_nodes Backend.validateEnvironmentVariables.
Proof.
  unfold Backend.validateEnvironmentVariables, Backend.createEnvTemplate. repeat keeps_step.
Qed.

Lemma reads_only_validateApiContracts l : reads_only (Backend.validateApiContracts l).
Proof.
  unfold Backend.validateApiContracts. apply reads_only_for_of. intros f.
  destruct (Backend.is_ts f); [| apply reads_only_ret].
  apply reads_only_bind; [apply reads_only_readFileSync | intros; apply reads_only_ret].
Qed.

Lemma reads_only_validateTypeScriptInterfaces l :
  reads_only (Backend.validateTypeScriptInterfaces l).
Proof.
  unfold Backend.validateTypeScriptInterfaces. apply reads_only_for_of. intros f.
  destruct (Backend.is_ts f); [| apply reads_only_ret].
  apply reads_only_bind; [apply reads_only_readFileSync | intros; apply reads_only_ret].
Qed.

Lemma warning_is_no_success tr msg :
  last (tr ++ [Console (LogIntegrationWarning msg)]) <> Some (Console LogIntegrationOk).
Proof. rewrite last_snoc. discriminate. Qed.

(** A run that ends with the success line went through all six steps. *)
Lemma integrated_steps files dir w :
  integrated (snd (Backend.ensureBackendIntegration files dir w)) ->
  exists w1 w2 w3 w4 w5 w6,
    Backend.validateApiContracts files w = (Ok tt, w1) /\
    Backend.validateEnvironmentVariables w1 = (Ok tt, w2) /\
    Backend.fixImportPaths files dir w2 = (Ok tt, w3) /\
    Backend.validateTypeScriptInterfaces files w3 = (Ok tt, w4) /\
    Backend.ensureMiddlewareIntegration w4 = (Ok tt, w5) /\
    Backend.generateApiHelpers dir w5 = (Ok tt, w6) /\
    fs (snd (Backend.ensureBackendIntegration files dir w)) = fs w6.
Proof.
  unfold integrated, Backend.ensureBackendIntegration, try_catch, bind.
  destruct (Backend.validateApiContracts files w) as [[[] | e] w1] eqn:E1;
    [| intros H; now apply warning_is_no_success in H].
  destruct (Backend.validateEnvironmentVariables w1) as [[[] | e] w2] eqn:E2;
    [| intros H; now apply warning_is_no_success in H].
  destruct (Backend.fixImportPaths files dir w2) as [[[] | e] w3] eqn:E3;
    [| intros H; now apply warning_is_no_success in H].
  destruct (Backend.validateTypeScriptInterfaces files w3) as [[[] | e] w4] eqn:E4;
    [| intros H; now apply warning_is_no_success in H].
  destruct (Backend.ensureMiddlewareIntegration w4) as [[[] | e] w5] eqn:E5;
    [| intros H; now apply warning_is_no_success in H].
  destruct (Backend.generateApiHelpers dir w5) as [[[] | e] w6] eqn:E6;
    [| intros H; now apply warning_is_no_success in H].
  intros _. exists w1, w2, w3, w4, w5, w6.
  split; [reflexivity |]. split; [exact E2 |]. split; [exact E3 |]. split; [exact E4 |].
  split; [exact E5 |]. split; [exact E6 | reflexivity].
Qed.

Lemma generateApiHelpers_ok dir w w' :
  dir <> "" ->
  Backend.generateApiHelpers dir w = (Ok tt, w') ->
  file_at (fs w') (helpers_location w dir) = Some Backend.apiHelperContent.
Proof.
  intros Hdir. unfold Backend.generateApiHelpers, bind, existsSync.
  destruct (node_at (fs w) _) as [nd |]; cbn [negb ret].
  - destruct (writeFileSync _ _ w) as [[[] | e] w1] eqn:Ew; intros H; [| discriminate H].
    injection H as <-. destruct (writeFileSync_ok _ _ _ _ Ew) as (_ & Hfile & _).
    now rewrite (proj1 (helpers_path w dir Hdir)) in Hfile.
  - destruct (mkdirSync _ w) as [[[] | e] w0] eqn:Em; [| intros H; discriminate H].
    destruct (mkdirSync_ok _ _ _ Em) as [Hc _].
    destruct (writeFileSync _ _ w0) as [[[] | e] w1] eqn:Ew; intros H; [| discriminate H].
    injection H as <-. destruct (writeFileSync_ok _ _ _ _ Ew) as (_ & Hfile & _).
    unfold location in Hfile. rewrite Hc in Hfile.
    fold (location w (Path.join [Path.join [dir; "lib"; "api"]; "client.ts"])) in Hfile.
    now rewrite (proj1 (helpers_path w dir Hdir)) in Hfile.
Qed.

Lemma middleware_path w :
  canonical (cwd (fs w)) = true ->
  Path.resolve (cwd (fs w))
    (Path.join ["/" ++ Js.join "/" (cwd (fs w)); "src"; "middleware.ts"])
  = middleware_location w.
Proof. intros Hc. now apply resolve_from_cwd. Qed.

Lemma env_path w :
  canonical (cwd (fs w)) = true ->
  Path.resolve (cwd (fs w)) (Path.join ["/" ++ Js.join "/" (cwd (fs w)); ".env"])
  = env_location w.
Proof. intros Hc. now apply resolve_from_cwd. Qed.

Lemma env_template_path w : location w ".env.template" = env_template_location w.
Proof. unfold location. now apply resolve_relative_name. Qed.

Lemma ensureMiddlewareIntegration_ok w w' :
  canonical (cwd (fs w)) = true ->
  Backend.ensureMiddlewareIntegration w = (Ok tt, w') ->
  node_at (fs w') (middleware_location w) <> None.
Proof.
  intros Hc. unfold Backend.ensureMiddlewareIntegration, Backend.createMiddlewareFile,
    bind, process_cwd, existsSync. cbn [fst snd].
  rewrite (middleware_path w Hc).
  destruct (node_at (fs w) (middleware_location w)) as [nd |] eqn:E; cbn [negb ret].
  - intros H. injection H as <-. now rewrite E.
  - destruct (writeFileSync _ _ w) as [[[] | e] w1] eqn:Ew; intros H; [| discriminate H].
    injection H as <-. destruct (writeFileSync_nodes _ _ _ _ Ew) as [_ Hn].
    rewrite Hn. unfold location. rewrite (middleware_path w Hc).
    destruct (decide _); [discriminate | contradiction].
Qed.

Lemma validateEnvironmentVariables_ok w w' :
  canonical (cwd (fs w)) = true ->
  node_at (fs w) (env_location w) = None ->
  Backend.validateEnvironmentVariables w = (Ok tt, w') ->
  node_at (fs w') (env_template_location w) <> None.
Proof.
  intros Hc Henv. unfold Backend.validateEnvironmentVariables, Backend.createEnvTemplate,
    bind, process_cwd, existsSync. cbn [fst snd].
  rewrite (env_path w Hc), Henv. cbn [negb].
  destruct (writeFileSync _ _ w) as [[[] | e] w1] eqn:Ew; intros H; [| discriminate H].
  injection H as <-. destruct (writeFileSync_nodes _ _ _ _ Ew) as [_ Hn].
  rewrite Hn, env_template_path. destruct (decide _); [discriminate | contradiction].
Qed.

(** When the integration step ends with its success line, its files are
    there: the API helpers under the destination root, with the text of the
    source; a [src/middleware.ts] below the working directory; and, if
    there was no [.env] there, a [.env.template]. *)
Theorem integration_success_leaves_its_files :
  forall (files : list string) (dir : string) (w : World),
    let w' := snd (Backend.ensureBackendIntegration files dir w) in
    canonical (cwd (fs w)) = true ->
    dir <> "" ->
    integrated w' ->
    file_at (fs w') (helpers_location w dir) = Some Backend.apiHelperContent /\
    node_at (fs w') (middleware_location w) <> None /\
    (node_at (fs w) (env_location w) = None ->
     node_at (fs w') (env_template_location w) <> None).
Proof.
  intros files dir w w' Hc Hdir Hok. subst w'.
  destruct (integrated_steps _ _ _ Hok)
    as (w1 & w2 & w3 & w4 & w5 & w6 & E1 & E2 & E3 & E4 & E5 & E6 & Hfs).
  rewrite Hfs.
  pose proof (reads_only_validateApiContracts files w) as R1. rewrite E1 in R1. cbn in R1.
  destruct (keeps_nodes_validateEnvironmentVariables w1) as [C2 N2]. rewrite E2 in C2, N2.
  destruct (keeps_nodes_fixImportPaths files dir w2) as [C3 N3]. rewrite E3 in C3, N3.
  destruct (keeps_nodes_validateTypeScriptInterfaces files w3) as [C4 N4]. rewrite E4 in C4, N4.
  destruct (keeps_nodes_ensureMiddlewareIntegration w4) as [C5 N5]. rewrite E5 in C5, N5.
  destruct (keeps_nodes_generateApiHelpers dir w5) as [C6 N6]. rewrite E6 in C6, N6.
  cbn [snd] in *.
  assert (Hc1 : cwd (fs w1) = cwd (fs w)) by now rewrite R1.
  assert (Hc4 : cwd (fs w4) = cwd (fs w)) by congruence.
  assert (Hc5 : cwd (fs w5) = cwd (fs w)) by congruence.
  split; [| split].
  - pose proof (generateApiHelpers_ok dir w5 w6 Hdir E6) as H.
    unfold helpers_location, location in *. now rewrite Hc5 in H.
  - apply N6.
    pose proof (ensureMiddlewareIntegration_ok w4 w5 ltac:(now rewrite Hc4) E5) as H.
    unfold middleware_location in *. now rewrite Hc4 in H.
  - intros Henv. apply N6, N5, N4, N3.
    pose proof (validateEnvironmentVariables_ok w1 w2 ltac:(now rewrite Hc1)) as H.
    unfold env_location, env_template_location in *. rewrite Hc1, R1 in H.
    now apply H.
Qed.

Lemma integration_success_leaves_its_files_witness :
  let w := mkWorld idle
             (mkFS ["work"]
                (<[ ["work"; "src"] := Dir ]> (<[ ["work"; "out"] := Dir ]>
                   (<[ ["work"] := Dir ]> ∅))) []) 0 0 [] in
  file_at (fs (snd (Backend.ensureBackendIntegration [] "./out" w)))
          ["work"; "out"; "lib"; "api"; "client.ts"] = Some Backend.apiHelperContent /\
  node_at (fs (snd (Backend.ensureBackendIntegration [] "./out" w)))
          ["work"; "src"; "middleware.ts"] <> None.
Proof.
  cbv zeta.
  destruct (integration_success_leaves_its_files [] "./out"
              (mkWorld idle
                 (mkFS ["work"]
                    (<[ ["work"; "src"] := Dir ]> (<[ ["work"; "out"] := Dir ]>
                       (<[ ["work"] := Dir ]> ∅))) []) 0 0 []))
    as (H1 & H2 & _); [reflexivity | discriminate | vm_compute; reflexivity |].
  split; [exact H1 | exact H2].
Defined.

Lemma fix_one_no_new_nodes f w :
  cwd (fs (snd (Backend.fix_one f w))) = cwd (fs w) /\
  forall q, node_at (fs w) q = None -> node_at (fs (snd (Backend.fix_one f w))) q = None.
Proof.
  unfold Backend.fix_one. destruct (Backend.is_ts f); [| cbn; auto].
  unfold bind, readFileSync.
  destruct (node_at (fs w) (Path.resolve (cwd (fs w)) f)) as [[c |] |] eqn:E; [| cbn; auto ..].
  destruct (Backend.apply_fixes Backend.importFixes c false) as [c' [|]]; [| cbn; auto].
  destruct (writeFileSync f c' w) as [[[] | e] w1] eqn:Ew.
  - destruct (writeFileSync_nodes _ _ _ _ Ew) as [Hc Hn]. cbn [fst snd log emit fs].
    split; [exact Hc |]. intros q Hq. rewrite Hn.
    destruct (decide (location w f = q)) as [<- | Hne]; [| exact Hq].
    unfold location in Hq. rewrite E in Hq. discriminate Hq.
  - apply writeFileSync_failed in Ew. subst w1. cbn. auto.
Qed.

Lemma fixImportPaths_no_new_nodes files d :
  forall w,
    cwd (fs (snd (Backend.fixImportPaths files d w))) = cwd (fs w) /\
    forall q, node_at (fs w) q = None ->
              node_at (fs (snd (Backend.fixImportPaths files d w))) q = None.
Proof.
  unfold Backend.fixImportPaths.
  induction files as [| f files IH]; intros w; cbn [for_of]; [cbn; auto |].
  unfold bind. destruct (fix_one_no_new_nodes f w) as [Hc Hn].
  destruct (Backend.fix_one f w) as [[[] | e] w1]; cbn [fst snd] in *; [| auto].
  destruct (IH w1) as [Hc1 Hn1]. split; [congruence | auto].
Qed.

Lemma validateEnvironmentVariables_no_new_nodes w :
  cwd (fs (snd (Backend.validateEnvironmentVariables w))) = cwd (fs w) /\
  forall q, q <> env_template_location w -> node_at (fs w) q = None ->
            node_at (fs (snd (Backend.validateEnvironmentVariables w))) q = None.
Proof.
  unfold Backend.validateEnvironmentVariables, Backend.createEnvTemplate, bind,
    process_cwd, existsSync. cbn [fst snd].
  destruct (node_at (fs w) _) as [nd |]; cbn [negb].
  - match goal with
    | |- context [readFileSync ?p w] =>
        pose proof (readFileSync_same p w) as Hs;
        destruct (readFileSync p w) as [[c | e] w1]
    end; cbn [snd] in Hs; subst w1; cbn; auto.
  - destruct (writeFileSync ".env.template" Backend.envTemplate w) as [[[] | e] w1] eqn:Ew.
    + destruct (writeFileSync_nodes _ _ _ _ Ew) as [Hc Hn]. cbn [snd].
      split; [exact Hc |]. intros q Hq Hnone. rewrite Hn, env_template_path.
      destruct (decide _) as [Heq | _]; [now symmetry in Heq | exact Hnone].
    + apply writeFileSync_failed in Ew. subst w1. cbn. auto.
Qed.

Lemma middleware_fails_without_src w :
  canonical (cwd (fs w)) = true ->
  node_at (fs w) (src_location w) = None ->
  node_at (fs w) (middleware_location w) = None ->
  exists msg, Backend.ensureMiddlewareIntegration w = (Throw msg, w).
Proof.
  intros Hc Hsrc Hmid.
  unfold Backend.ensureMiddlewareIntegration, Backend.createMiddlewareFile, bind,
    process_cwd, existsSync. cbn [fst snd].
  rewrite (middleware_path w Hc), Hmid. cbn [negb].
  unfold writeFileSync. rewrite (middleware_path w Hc), Hmid.
  assert (Hparent : removelast (middleware_location w) = src_location w).
  { unfold middleware_location, src_location.
    change ["src"; "middleware.ts"] with (["src"] ++ ["middleware.ts"])%list.
    rewrite app_assoc. apply removelast_last. }
  rewrite Hparent, Hsrc. eexists. reflexivity.
Qed.

(** In a project without a [src] directory the integration step cannot
    write its middleware file and stops there: it never reaches its success
    line and ends with a warning instead; the file system is left as the
    first four steps left it, so no API helper is generated; and [src] and
    the middleware file are still missing. *)
Theorem integration_stops_without_src :
  forall (files : list string) (dir : string) (w : World),
    let w' := snd (Backend.ensureBackendIntegration files dir w) in
    let w4 := snd ((Backend.validateApiContracts files ;;;
                    Backend.validateEnvironmentVariables ;;;
                    Backend.fixImportPaths files dir ;;;
                    Backend.validateTypeScriptInterfaces files) w) in
    canonical (cwd (fs w)) = true ->
    node_at (fs w) (src_location w) = None ->
    node_at (fs w) (middleware_location w) = None ->
    (exists msg, last (trace w') = Some (Console (LogIntegrationWarning msg))) /\
    ~ integrated w' /\
    fs w' = fs w4 /\
    node_at (fs w') (src_location w) = None /\
    node_at (fs w') (middleware_location w) = None.
Proof.
  intros files dir w w' w4 Hc Hsrc Hmid. subst w' w4.
  assert (Hend : forall (wk : World) msg,
            fs wk = fs wk ->
            node_at (fs wk) (src_location w) = None ->
            node_at (fs wk) (middleware_location w) = None ->
            let w' := snd (log (LogIntegrationWarning msg) wk) in
            (exists msg', last (trace w') = Some (Console (LogIntegrationWarning msg'))) /\
            ~ integrated w' /\ fs w' = fs wk /\
            node_at (fs w') (src_location w) = None /\
            node_at (fs w') (middleware_location w) = None).
  { intros wk msg _ H1 H2. cbn. split; [| split; [| auto]].
    - exists msg. apply last_snoc.
    - apply warning_is_no_success. }
  unfold Backend.ensureBackendIntegration, try_catch, bind.
  pose proof (reads_only_validateApiContracts files w) as R1.
  destruct (Backend.validateApiContracts files w) as [[[] | e] w1]; cbn [snd] in R1.
  2:{ apply Hend; rewrite ?R1; auto. }
  destruct (validateEnvironmentVariables_no_new_nodes w1) as [C2 N2].
  assert (Htemplate : forall names, names <> [".env.template"] ->
            (cwd (fs w) ++ names)%list <> env_template_location w1).
  { intros names Hn Heq. unfold env_template_location in Heq. rewrite R1 in Heq.
    apply app_inv_head in Heq. contradiction. }
  assert (S2 : node_at (fs (snd (Backend.validateEnvironmentVariables w1))) (src_location w)
               = None).
  { apply N2; [apply Htemplate; discriminate | now rewrite R1]. }
  assert (M2 : node_at (fs (snd (Backend.validateEnvironmentVariables w1)))
                       (middleware_location w) = None).
  { apply N2; [apply Htemplate; discriminate | now rewrite R1]. }
  destruct (Backend.validateEnvironmentVariables w1) as [[[] | e] w2]; cbn [snd] in *.
  2:{ apply Hend; auto. }
  destruct (fixImportPaths_no_new_nodes files dir w2) as [C3 N3].
  pose proof (N3 _ S2) as S3. pose proof (N3 _ M2) as M3.
  destruct (Backend.fixImportPaths files dir w2) as [[[] | e] w3]; cbn [snd] in *.
  2:{ apply Hend; auto. }
  pose proof (reads_only_validateTypeScriptInterfaces files w3) as R4.
  destruct (Backend.validateTypeScriptInterfaces files w3) as [[[] | e] w4]; cbn [snd] in R4.
  2:{ cbn [snd]. apply (Hend w4 e eq_refl); rewrite R4; assumption. }
  assert (C4 : cwd (fs w4) = cwd (fs w)) by (rewrite R4, C3, C2, R1; reflexivity).
  destruct (middleware_fails_without_src w4) as (msg & Em).
  - now rewrite C4.
  - unfold src_location. rewrite C4, R4. exact S3.
  - unfold middleware_location. rewrite C4, R4. exact M3.
  - rewrite Em. cbn [snd]. apply (Hend w4 msg eq_refl); rewrite R4; assumption.
Qed.

Lemma integration_stops_without_src_witness :
  let w := world_of idle in
  (exists msg,
     last (trace (snd (Backend.ensureBackendIntegration [] "./out" w)))
       = Some (Console (LogIntegrationWarning msg))) /\
  node_at (fs (snd (Backend.ensureBackendIntegration [] "./out" w)))
          ["work"; "src"; "middleware.ts"] = None.
Proof.
  cbv zeta.
  destruct (integration_stops_without_src [] "./out" (world_of idle))
    as (H1 & _ & _ & _ & H2); [reflexivity | reflexivity | reflexivity |].
  split; [exact H1 | exact H2].
Defined.

(** There the warning is the one of the failed write. *)
Example integration_without_src_reports_enoent :
  last (trace (snd (Backend.ensureBackendIntegration [] "./out" (world_of idle)))) =
    Some (Console (LogIntegrationWarning
      "ENOENT: no such file or directory, open '/work/src/middleware.ts'")).
Proof. vm_compute. reflexivity. Qed.

(** ** The stages, from the first to the last (C6) *)

Lemma enforced_download_gets chatId dir w :
  gets (snd (Enforced.downloadGeneratedCode chatId dir w)) = S (gets w).
Proof.
  unfold Enforced.downloadGeneratedCode, Creator.downloadGeneratedCode, try_catch.
  unfold bind at 1. unfold log at 1, emit. cbn [fst snd].
  unfold bind at 1.
  match goal with
  | |- context [Creator.getChat chatId ?w0] =>
      destruct (getChat_calls chatId w0) as [Hg _];
      destruct (Creator.getChat chatId w0) as [[chat | e0] w1]
  end; cbn [fst snd gets] in *.
  - match goal with
    | |- context [match ?m w1 with _ => _ end] => assert (Hoff : offline m)
    end.
    { destruct (Creator.generated_files chat) as [| f fl]; [stays_offline |].
      apply offline_bind; [stays_offline |]. intros found.
      apply offline_bind; [stays_offline |]. intros _.
      apply offline_bind; [apply offline_save_each |]. intros saved.
      apply offline_bind; [| stays_offline].
      destruct (0 <? length saved)%nat; [| stays_offline].
      apply offline_bind; [stays_offline |]. intros _.
      apply offline_bind; [apply offline_createIndexFile |]. intros _.
      apply offline_ensureBackendIntegration. }
    match goal with
    | |- context [match ?m w1 with _ => _ end] =>
        destruct (Hoff w1) as [H1 _]; destruct (m w1) as [[saved | e] w2]
    end; cbn [fst snd] in *.
    + congruence.
    + unfold bind, log, emit, throw. cbn [fst snd gets]. congruence.
  - unfold bind, log, emit, throw. cbn [fst snd gets]. exact Hg.
Qed.

Lemma strategies_gets chatId dir stage w :
  In stage (Enforced.strategies chatId dir) -> gets (snd (stage w)) = S (gets w).
Proof.
  unfold Enforced.strategies. cbn [In].
  intros [<- | [<- | [<- | []]]]; unfold bind, sleep; cbn [fst snd];
    rewrite enforced_download_gets; reflexivity.
Qed.

Lemma stages_fail_gets todo :
  (forall stage w, In stage todo -> gets (snd (stage w)) = S (gets w)) ->
  forall i n w w', stages_fail i n todo w = Some w' -> gets w' = gets w + length todo.
Proof.
  induction todo as [| stage todo IH]; intros Hone i n w w'; cbn [stages_fail length].
  - intros H. injection H as <-. lia.
  - pose proof (Hone stage (snd (log (LogFinalAttempt (i + 1) n) w)) (or_introl eq_refl))
      as Hg.
    destruct (stage _) as [[[| f files] | e] w1]; cbn [fst snd log emit gets] in Hg;
      [| intros H; discriminate H |];
      intros H; apply IH in H; cbn [log emit snd gets] in H;
      try (intros; apply Hone; now right); lia.
Qed.

Lemma final_attempts_first_success before :
  forall i n stage later w wk files w1,
    stages_fail i n before w = Some wk ->
    stage (snd (log (LogFinalAttempt (i + length before + 1) n) wk)) = (Ok files, w1) ->
    files <> [] ->
    Enforced.final_attempts i n (before ++ stage :: later) w
      = (Ok (Return files), snd (log (LogFinalOk (i + length before + 1)) w1)).
Proof.
  induction before as [| s before IH]; intros i n stage later w wk files w1;
    cbn [stages_fail length app Enforced.final_attempts].
  - intros H Hs Hne. injection H as <-. rewrite Nat.add_0_r in *.
    unfold bind, try_catch. cbn [log emit fst snd] in *. rewrite Hs.
    destruct files; [congruence | reflexivity].
  - replace (i + S (length before) + 1) with (S i + length before + 1) by lia.
    unfold bind, try_catch. cbn [log emit fst snd].
    destruct (s _) as [[[| f fl] | e] w0]; [| intros H; discriminate H |];
      cbn [length Nat.ltb Nat.leb fst snd ret]; intros H Hs Hne; eapply IH; eassumption.
Qed.

Lemma final_attempts_all_fail todo :
  forall i n w w',
    stages_fail i n todo w = Some w' ->
    Enforced.final_attempts i n todo w = (Ok Next, w').
Proof.
  induction todo as [| s todo IH]; intros i n w w';
    cbn [stages_fail Enforced.final_attempts].
  - intros H. now injection H as <-.
  - unfold bind, try_catch. cbn [log emit fst snd].
    destruct (s _) as [[[| f fl] | e] w0]; [| intros H; discriminate H |];
      cbn [length Nat.ltb Nat.leb fst snd ret]; intros H; now apply IH.
Qed.

Lemma aggressive_retries_first_success chatId dir before :
  forall retry later w wk files w1,
    retries_fail chatId dir before w = Some wk ->
    Enforced.downloadGeneratedCode chatId dir (retry_world retry wk) = (Ok files, w1) ->
    files <> [] ->
    Enforced.aggressive_retries chatId dir (before ++ retry :: later) w
      = (Ok (files, Some retry), snd (log (LogRetryOk retry) w1)) /\
    gets w1 = gets w + length before + 1.
Proof.
  induction before as [| r before IH]; intros retry later w wk files w1;
    cbn [retries_fail length app Enforced.aggressive_retries].
  - intros H Hs Hne. injection H as <-.
    pose proof (enforced_download_gets chatId dir (retry_world retry w)) as Hg.
    unfold retry_world in *. unfold bind, try_catch. cbn [log emit sleep fst snd] in *.
    rewrite Hs in *. cbn [snd gets] in Hg.
    split; [destruct files; [congruence | reflexivity] | lia].
  - pose proof (enforced_download_gets chatId dir (retry_world r w)) as Hg.
    unfold retry_world at 1 2. unfold retry_world in Hg.
    unfold bind, try_catch. cbn [log emit sleep fst snd] in *.
    destruct (Enforced.downloadGeneratedCode chatId dir _) as [[[| f fl] | e] w0];
      [| intros H; discriminate H |];
      cbn [length Nat.ltb Nat.leb fst snd ret gets] in *; intros H Hs Hne;
      destruct (IH _ later _ _ _ _ H Hs Hne) as [Hrun Hgets];
      cbn [log emit snd gets] in Hgets; (split; [exact Hrun | lia]).
Qed.

Lemma aggressive_retries_all_fail chatId dir retries :
  forall w w',
    retries_fail chatId dir retries w = Some w' ->
    Enforced.aggressive_retries chatId dir retries w = (Ok ([], None), w') /\
    gets w' = gets w + length retries.
Proof.
  induction retries as [| r retries IH]; intros w w';
    cbn [retries_fail length Enforced.aggressive_retries].
  - intros H. injection H as <-. split; [reflexivity | lia].
  - pose proof (enforced_download_gets chatId dir (retry_world r w)) as Hg.
    unfold retry_world at 1. unfold retry_world in Hg.
    unfold bind, try_catch. cbn [log emit sleep fst snd] in *.
    destruct (Enforced.downloadGeneratedCode chatId dir _) as [[[| f fl] | e] w0];
      [| intros H; discriminate H |];
      cbn [length Nat.ltb Nat.leb fst snd ret gets] in *; intros H;
      destruct (IH _ _ H) as [Hrun Hgets];
      cbn [log emit snd gets] in Hgets; (split; [exact Hrun | lia]).
Qed.

(** C6. The stages that follow the deadline, and likewise the five retries
    of [createAndDownload], are run one after the other. When the stages
    before one have all come up without a file, by returning none or by
    throwing, and that one returns files, its list is the result: of the
    loop whatever the later stages are, and of [waitAndDownloadEnforced]
    after its deadline with exactly one request per stage run, so that no
    later stage is invoked. When every stage comes up without a file the
    result is the empty list, returned normally after one request per
    stage. One of the two always applies: the stages never throw. In
    [createAndDownload] the retries decide the outcome in the same way. *)
Theorem C6_first_success_ends_the_stages :
  forall (chatId dir : string) (w : World),
    (* the loop over the strategies *)
    (forall i n before stage later wk files w1,
       stages_fail i n before w = Some wk ->
       stage (snd (log (LogFinalAttempt (i + length before + 1) n) wk)) = (Ok files, w1) ->
       files <> [] ->
       Enforced.final_attempts i n (before ++ stage :: later) w
         = (Ok (Return files), snd (log (LogFinalOk (i + length before + 1)) w1))) /\
    (forall i n todo w',
       stages_fail i n todo w = Some w' ->
       Enforced.final_attempts i n todo w = (Ok Next, w')) /\
    (* [waitAndDownloadEnforced] after its deadline *)
    (forall maxWaitTime ps w1,
       Enforced.poll_loop (Enforced.poll_fuel (maxWaitTime * 1000)) chatId dir (clock w)
           (maxWaitTime * 1000) (Enforced.mkPollState 0 "unknown", w)
         = (Ok (Some Next), (ps, w1)) ->
       Enforced.waitAndDownloadEnforced chatId dir maxWaitTime w
         = Enforced.after_deadline chatId dir w1) /\
    (forall before stage later wk files w1,
       Enforced.strategies chatId dir = (before ++ stage :: later)%list ->
       stages_fail 0 3 before (snd (log LogDeadline w)) = Some wk ->
       stage (snd (log (LogFinalAttempt (length before + 1) 3) wk)) = (Ok files, w1) ->
       files <> [] ->
       Enforced.after_deadline chatId dir w
         = (Ok files, snd (log (LogFinalOk (length before + 1)) w1)) /\
       gets w1 = gets w + length before + 1) /\
    (forall w3,
       stages_fail 0 3 (Enforced.strategies chatId dir) (snd (log LogDeadline w)) = Some w3 ->
       Enforced.after_deadline chatId dir w
         = (Ok [], snd (log (LogManualHint chatId) (snd (log LogExhausted w3)))) /\
       gets w3 = gets w + 3) /\
    (exists files w', Enforced.after_deadline chatId dir w = (Ok files, w')) /\
    (* the retries of [createAndDownload] *)
    (forall before retry later wk files w1,
       retries_fail chatId dir before w = Some wk ->
       Enforced.downloadGeneratedCode chatId dir (retry_world retry wk) = (Ok files, w1) ->
       files <> [] ->
       Enforced.aggressive_retries chatId dir (before ++ retry :: later) w
         = (Ok (files, Some retry), snd (log (LogRetryOk retry) w1)) /\
       gets w1 = gets w + length before + 1) /\
    (forall retries w',
       retries_fail chatId dir retries w = Some w' ->
       Enforced.aggressive_retries chatId dir retries w = (Ok ([], None), w') /\
       gets w' = gets w + length retries) /\
    (forall prompt_ options created w1 w2 r w3,
       Creator.createChat prompt_
         (Some (Js.or_else (Enforced.system options) Enforced.defaultSystem)) None
         (mkModelConfiguration (Some (Js.or_else (Enforced.modelId options) "v0-1.5-md"))
                               false (Enforced.thinking options) "sync")
         [] None w = (Ok created, w1) ->
       (if bool_decide (Enforced.version_status created = Some "completed")
        then Enforced.downloadGeneratedCode (id created)
               (Js.or_else (Enforced.outputDir options) "./src/components")
        else Enforced.waitAndDownloadEnforced (id created)
               (Js.or_else (Enforced.outputDir options) "./src/components") 300) w1
         = (Ok [], w2) ->
       Enforced.aggressive_retries (id created)
         (Js.or_else (Enforced.outputDir options) "./src/components") [1; 2; 3; 4; 5] w2
         = (Ok r, w3) ->
       Enforced.createAndDownload prompt_ options w =
         match r with
         | (files, Some _) =>
             (Ok (Enforced.mkOutcome created (Some files) (Some "retry_success") None), w3)
         | (_, None) =>
             (Ok (Enforced.mkOutcome created None (Some "failed_will_retry") None),
              snd (log (LogManualHint (id created)) w3))
         end).
Proof.
  intros chatId dir w.
  repeat match goal with |- _ /\ _ => split end.
  - intros i n before stage later wk files w1. apply final_attempts_first_success.
  - intros i n todo w'. apply final_attempts_all_fail.
  - intros maxWaitTime ps w1 Hloop.
    unfold Enforced.waitAndDownloadEnforced, bind, now, with_locals. cbn [fst snd].
    rewrite Hloop. reflexivity.
  - intros before stage later wk files w1 Hsplit Hfail Hstage Hne.
    split.
    + unfold Enforced.after_deadline, bind. cbn [log emit fst snd] in *.
      rewrite Hsplit.
      replace (length (before ++ stage :: later)) with 3
        by (rewrite <- Hsplit; reflexivity).
      erewrite (final_attempts_first_success before 0 3); [reflexivity | | | exact Hne];
        eassumption.
    + assert (Hbefore : forall s w0, In s before -> gets (snd (s w0)) = S (gets w0)).
      { intros s w0 Hin. apply (strategies_gets chatId dir). rewrite Hsplit.
        apply in_or_app. now left. }
      pose proof (stages_fail_gets before Hbefore _ _ _ _ Hfail) as Hg.
      assert (Hs : gets (snd (stage (snd (log (LogFinalAttempt (length before + 1) 3) wk))))
                   = S (gets (snd (log (LogFinalAttempt (length before + 1) 3) wk)))).
      { apply (strategies_gets chatId dir). rewrite Hsplit. apply in_or_app.
        right. now left. }
      rewrite Hstage in Hs. cbn [log emit fst snd gets] in *.
      rewrite Hs, Hg, Nat.add_1_r. reflexivity.
  - intros w3 Hfail. split.
    + unfold Enforced.after_deadline, bind. cbn [log emit fst snd] in *.
      change (length (Enforced.strategies chatId dir)) with 3.
      rewrite (final_attempts_all_fail _ _ _ _ _ Hfail). reflexivity.
    + pose proof (stages_fail_gets (Enforced.strategies chatId dir)
                    (fun s w0 => strategies_gets chatId dir s w0) _ _ _ _ Hfail) as Hg.
      cbn [log emit fst snd gets length Enforced.strategies] in Hg. exact Hg.
  - apply after_deadline_returns.
  - intros before retry later wk files w1. apply aggressive_retries_first_success.
  - intros retries w'. apply aggressive_retries_all_fail.
  - intros prompt_ options created w1 w2 r w3 Hcreate Hfirst Hretries.
    unfold Enforced.createAndDownload. unfold bind at 1. rewrite Hcreate.
    unfold try_catch. unfold bind at 1. rewrite Hfirst.
    cbn [length Nat.ltb Nat.leb]. unfold bind at 1. rewrite Hretries.
    destruct r as [files [k |]]; reflexivity.
Qed.

Lemma C6_witness :
  let w := world_of (scripted (Throw "x") [Ok (chat_with "pending" [])]
                              (Ok (chat_with "completed"
                                     [entry "Button.tsx" "export default 1"]))) in
  fst (Enforced.after_deadline "abc123" "./out" w) = Ok ["out/Button.tsx"] /\
  sleeps (trace (snd (Enforced.after_deadline "abc123" "./out" w))) = [5000%Z] /\
  gets (snd (Enforced.after_deadline "abc123" "./out" w)) = 2.
Proof.
  cbv zeta.
  destruct (C6_first_success_ends_the_stages "abc123" "./out"
              (world_of (scripted (Throw "x") [Ok (chat_with "pending" [])]
                                  (Ok (chat_with "completed"
                                         [entry "Button.tsx" "export default 1"])))))
    as (_ & _ & _ & H & _).
  edestruct (H [Enforced.downloadGeneratedCode "abc123" "./out"]
               (sleep 5000 ;;; Enforced.downloadGeneratedCode "abc123" "./out")
               [sleep 15000 ;;; Enforced.downloadGeneratedCode "abc123" "./out"])
    as [Hrun Hgets].
  - reflexivity.
  - vm_compute. reflexivity.
  - vm_compute. reflexivity.
  - discriminate.
  - rewrite Hrun. vm_compute. auto.
Defined.

(** ** The download as a whole (C1) *)













(** An entry named [index.js] next to a component: both paths are
    returned, but the file holds the index of the components, not the
    entry's content. *)
Example index_entry_is_overwritten :
  let w := world_of (steady (chat_with "completed"
                               [entry "index.js" "export const one = 1;";
                                entry "Button.tsx" "export default 1"])) in
  fst (Sdk.downloadGeneratedCode "abc123" "./out" w) = Ok ["out/index.js"; "out/Button.tsx"] /\
  file_at (fs (snd (Sdk.downloadGeneratedCode "abc123" "./out" w))) ["work"; "out"; "index.js"]
    = Some (manifest_text ["out/index.js"; "out/Button.tsx"]).
Proof. vm_compute. split; reflexivity. Qed.

(** In the enforced script an entry with a mapped import is saved, and then
    rewritten by the integration step. *)
Example stale_entry_is_rewritten :
  let w := world_of (steady (chat_with "completed" [entry "b.ts" stale_import])) in
  fst (Enforced.downloadGeneratedCode "abc123" "./out" w) = Ok ["out/b.ts"] /\
  file_at (fs (snd (Enforced.downloadGeneratedCode "abc123" "./out" w))) ["work"; "out"; "b.ts"]
    = Some ("import { cn } from " ++ Backend.dq ++ "@/lib/utils" ++ Backend.dq ++ ";").
Proof. vm_compute. split; reflexivity. Qed.
